(** * Automated content rewriting: validator, span extractor, rewrite client
      and pipeline

    A shallow embedding of [src/llm-rewriter.js] and of the three scripts
    held in [src/scripts/content-validator.js]: the validator
    (first script), the article selector (second script) and the content
    processor (third script).

    JavaScript strings are sequences of UTF-16 code units; the regular
    expressions of the scripts carry no [u] flag, so they work on code units
    too.  A string is therefore a list of code units, and a regular expression
    is a syntax tree run by a backtracking matcher that follows the
    ECMAScript pattern semantics (continuations, greedy and lazy quantifiers,
    the empty-iteration check of RepeatMatcher). *)

From Stdlib Require Import String Ascii.
From stdpp Require Import gmap list.

Local Open Scope N_scope.
Local Open Scope nat_scope.

(** ** Code units and strings *)

Module Js.

Definition char := N.
Definition str := list char.

(** A Rocq string literal read as a JavaScript string (ASCII only). *)
Definition lit (s : string) : str :=
  List.map N_of_ascii (list_ascii_of_string s).

Definition LF : char := 10%N.
Definition CR : char := 13%N.

(** ECMAScript [LineTerminator]: LF, CR, LS, PS. *)
Definition is_line_terminator (c : char) : bool :=
  (c =? 10)%N || (c =? 13)%N || (c =? 8232)%N || (c =? 8233)%N.

(** What [\s] matches and [trim] strips: [WhiteSpace] and [LineTerminator]. *)
Definition is_space (c : char) : bool :=
  (c =? 9)%N || (c =? 10)%N || (c =? 11)%N || (c =? 12)%N || (c =? 13)%N
  || (c =? 32)%N || (c =? 160)%N || (c =? 5760)%N
  || ((8192 <=? c)%N && (c <=? 8202)%N)
  || (c =? 8232)%N || (c =? 8233)%N || (c =? 8239)%N || (c =? 8287)%N
  || (c =? 12288)%N || (c =? 65279)%N.

(** What [\d] matches. *)
Definition is_digit (c : char) : bool := (48 <=? c)%N && (c <=? 57)%N.

(** ** Regular expressions *)

(** One member of a bracketed class. *)
Inductive citem :=
| IChar (c : char)
| ISpace
| INonSpace
| IDigit.

Definition citem_ok (i : citem) (c : char) : bool :=
  match i with
  | IChar d => (c =? d)%N
  | ISpace => is_space c
  | INonSpace => negb (is_space c)
  | IDigit => is_digit c
  end.

(** A pattern that consumes exactly one code unit. *)
Inductive atom :=
| AChar (c : char)                       (* a literal character *)
| AClass (neg : bool) (items : list citem) (* [...] and [^...], \s, \d *)
| ADot.                                  (* . *)

Definition atom_ok (a : atom) (c : char) : bool :=
  match a with
  | AChar d => (c =? d)%N
  | AClass neg items => xorb neg (existsb (fun i => citem_ok i c) items)
  | ADot => negb (is_line_terminator c)
  end.

Inductive regex :=
| Eps
| One (a : atom)
| Bol                                   (* ^ *)
| Eol                                   (* $ *)
| Seq (r1 r2 : regex)
| Rep (lo : nat) (hi : option nat) (greedy : bool) (r : regex)
| Group (n : nat) (r : regex).          (* the n-th capturing group *)

Definition Chr (c : char) : regex := One (AChar c).
Definition Space : regex := One (AClass false [ISpace]).        (* \s *)
Definition Digit : regex := One (AClass false [IDigit]).        (* \d *)
Definition AnyChar : regex := One (AClass false [ISpace; INonSpace]). (* [\s\S] *)
Definition NoneOf (cs : list char) : regex := One (AClass true (List.map IChar cs)).

Fixpoint Lit (s : str) : regex :=
  match s with
  | [] => Eps
  | c :: t => Seq (Chr c) (Lit t)
  end.

Fixpoint Cat (rs : list regex) : regex :=
  match rs with
  | [] => Eps
  | [r] => r
  | r :: t => Seq r (Cat t)
  end.

Definition Star (r : regex) : regex := Rep 0 None true r.       (* r*  *)
Definition LazyStar (r : regex) : regex := Rep 0 None false r.  (* r*? *)
Definition Plus (r : regex) : regex := Rep 1 None true r.       (* r+  *)
Definition Times (n : nat) (r : regex) : regex := Rep n (Some n) true r. (* r{n} *)

(** ** The matcher *)

(** A matcher state: the code unit before the current position, the input
    from the current position on, and the captures made so far (the newest
    first). *)
Record mstate := MState {
  prev : option char;
  rest : str;
  caps : list (nat * str)
}.

Definition cont := mstate -> option mstate.

Definition at_bol (multiline : bool) (st : mstate) : bool :=
  match prev st with
  | None => true
  | Some c => multiline && is_line_terminator c
  end.

Definition at_eol (multiline : bool) (st : mstate) : bool :=
  match rest st with
  | [] => true
  | c :: _ => multiline && is_line_terminator c
  end.

(** The text between two states of one run. *)
Definition consumed (st st' : mstate) : str :=
  take (length (rest st) - length (rest st')) (rest st).

(** ECMAScript's RepeatMatcher; [fuel] bounds the number of iterations and
    is more than [lo] plus the length of the remaining input whenever the
    matcher is entered, which no run exceeds: an iteration either lowers
    [lo] or, when [lo] is zero, must consume input.  No pattern of the
    scripts has a group under a quantifier, so the captures of an iteration
    are not reset. *)
Fixpoint rep (m : mstate -> cont -> option mstate) (fuel lo : nat)
    (hi : option nat) (greedy : bool) (st : mstate) (k : cont)
    : option mstate :=
  match fuel with
  | O => None
  | S fuel' =>
    match hi with
    | Some O => k st
    | _ =>
      let d : cont := fun y =>
        if (lo =? 0) && (length (rest y) =? length (rest st)) then None
        else rep m fuel' (pred lo) (option_map pred hi) greedy y k in
      if negb (lo =? 0) then m st d
      else if greedy then
        match m st d with
        | Some z => Some z
        | None => k st
        end
      else
        match k st with
        | Some z => Some z
        | None => m st d
        end
    end
  end.

Fixpoint run (ml : bool) (r : regex) (st : mstate) (k : cont)
    : option mstate :=
  match r with
  | Eps => k st
  | One a =>
    match rest st with
    | c :: t => if atom_ok a c then k (MState (Some c) t (caps st)) else None
    | [] => None
    end
  | Bol => if at_bol ml st then k st else None
  | Eol => if at_eol ml st then k st else None
  | Seq r1 r2 => run ml r1 st (fun st' => run ml r2 st' k)
  | Rep lo hi greedy r1 =>
    rep (run ml r1) (S (lo + length (rest st))) lo hi greedy st k
  | Group n r1 =>
    run ml r1 st (fun st' =>
      k (MState (prev st') (rest st') ((n, consumed st st') :: caps st')))
  end.

(** One attempt at one position. *)
Definition exec_at (ml : bool) (r : regex) (p : option char) (s : str)
    : option mstate :=
  run ml r (MState p s []) Some.

(** The result of a successful match: where it starts, the matched text,
    the captures and the input after it. *)
Record match_result := MatchResult {
  index : nat;
  matched : str;
  groups : list (nat * str);
  after : str
}.

Definition group (n : nat) (m : match_result) : option str :=
  snd <$> List.find (fun p => fst p =? n) (groups m).

Definition result_at (i : nat) (s : str) (st' : mstate) : match_result :=
  MatchResult i (take (length s - length (rest st')) s) (caps st') (rest st').

(** [RegExp.prototype.exec] of a regular expression without the [g] flag:
    the leftmost position at which the pattern matches. *)
Fixpoint search_from (ml : bool) (r : regex) (p : option char) (s : str)
    (i : nat) : option match_result :=
  match exec_at ml r p s with
  | Some st' => Some (result_at i s st')
  | None =>
    match s with
    | [] => None
    | c :: t => search_from ml r (Some c) t (S i)
    end
  end.

Definition search (ml : bool) (r : regex) (s : str) : option match_result :=
  search_from ml r None s 0.

(** [regex.test(s)]. *)
Definition test (ml : bool) (r : regex) (s : str) : bool :=
  match search ml r s with Some _ => true | None => false end.

(** All matches of a regular expression with the [g] flag, as [matchAll]
    and [match] walk them: after a match the search resumes at its end, one
    further when the match was empty.  [skip] counts the code units still
    inside the last match. *)
Fixpoint match_all_from (ml : bool) (r : regex) (p : option char) (s : str)
    (i skip : nat) : list match_result :=
  match skip with
  | S n =>
    match s with
    | [] => []
    | c :: t => match_all_from ml r (Some c) t (S i) n
    end
  | O =>
    match exec_at ml r p s with
    | Some st' =>
      let m := result_at i s st' in
      m :: match s with
           | [] => []
           | c :: t =>
             match_all_from ml r (Some c) t (S i) (pred (length (matched m)))
           end
    | None =>
      match s with
      | [] => []
      | c :: t => match_all_from ml r (Some c) t (S i) 0
      end
    end
  end.

Definition match_all (ml : bool) (r : regex) (s : str) : list match_result :=
  match_all_from ml r None s 0 0.

(** [s.match(/r/g) || []]: the matched texts. *)
Definition match_g (ml : bool) (r : regex) (s : str) : list str :=
  matched <$> match_all ml r s.

(** ** String methods *)

Fixpoint drop_while (f : char -> bool) (s : str) : str :=
  match s with
  | [] => []
  | c :: t => if f c then drop_while f t else s
  end.

(** [s.trim()]. *)
Definition trim_start (s : str) : str := drop_while is_space s.
Definition trim_end (s : str) : str := rev (drop_while is_space (rev s)).
Definition trim (s : str) : str := trim_end (trim_start s).

Fixpoint starts_with (p s : str) : bool :=
  match p, s with
  | [], _ => true
  | a :: p', b :: s' => (a =? b)%N && starts_with p' s'
  | _ :: _, [] => false
  end.

(** [s.indexOf(p)]: the first position at which [p] occurs in [s]. *)
Fixpoint index_of_from (p s : str) (i : nat) : option nat :=
  if starts_with p s then Some i
  else match s with
       | [] => None
       | _ :: t => index_of_from p t (S i)
       end.

Definition index_of (p s : str) : option nat := index_of_from p s 0.

(** [s.includes(p)]. *)
Definition includes (s p : str) : bool :=
  match index_of p s with Some _ => true | None => false end.

Definition str_eqb (a b : str) : bool := bool_decide (a = b).

(** A text as it comes back from a file.  [fs.writeFileSync(path, text)]
    stores the UTF-8 encoding of the text and [fs.readFileSync(path, 'utf8')]
    decodes it.  A surrogate code unit that is not part of a pair has no
    UTF-8 encoding: the encoding of U+FFFD is stored for it, and U+FFFD is
    what is read back ([String.prototype.toWellFormed] does the same). *)
Definition is_high_surrogate (c : char) : bool :=
  (55296 <=? c)%N && (c <=? 56319)%N.
Definition is_low_surrogate (c : char) : bool :=
  (56320 <=? c)%N && (c <=? 57343)%N.

Fixpoint toWellFormed (s : str) : str :=
  match s with
  | [] => []
  | c :: t =>
    if is_high_surrogate c then
      match t with
      | d :: t' =>
        if is_low_surrogate d then c :: d :: toWellFormed t'
        else 65533%N :: toWellFormed t
      | [] => [65533%N]
      end
    else if is_low_surrogate c then 65533%N :: toWellFormed t
    else c :: toWellFormed t
  end.

(** [s.split(/r/)] for a pattern without capturing groups, as
    [RegExp.prototype[Symbol.split]] walks the string: [cur] holds (reversed)
    the piece begun at [p] and read up to [q]; a match is tried at every [q]
    below the length and ends the piece unless it is empty and begins it;
    [skip] counts the code units still inside the last separator. *)
Fixpoint split_loop (ml : bool) (r : regex) (p : option char) (s : str)
    (cur : str) (skip : nat) : list str :=
  match s with
  | [] => [rev cur]
  | c :: t =>
    match skip with
    | S n => split_loop ml r (Some c) t [] n
    | O =>
      match exec_at ml r p s with
      | None => split_loop ml r (Some c) t (c :: cur) 0
      | Some st' =>
        match length s - length (rest st'), cur with
        | O, [] => split_loop ml r (Some c) t [c] 0
        | O, _ :: _ => rev cur :: split_loop ml r (Some c) t [c] 0
        | S n, _ => rev cur :: split_loop ml r (Some c) t [] n
        end
      end
    end
  end.

Definition split (ml : bool) (r : regex) (s : str) : list str :=
  match s with
  | [] => match exec_at ml r None [] with Some _ => [] | None => [[]] end
  | _ => split_loop ml r None s [] 0
  end.

(** The replacement text of [replace]: ECMAScript's GetSubstitution.
    [$$] is a dollar, [$&] the match, [$`] the text before it, [$'] the text
    after it, [$n] and [$nn] the n-th capture when the pattern has that many
    groups ([ngroups]); any other dollar stands for itself. *)
Definition digit_val (c : char) : nat := N.to_nat (c - 48)%N.

Definition cap_text (gs : list (nat * str)) (n : nat) : str :=
  default [] (snd <$> List.find (fun p => fst p =? n) gs).

Fixpoint substitute (ngroups : nat) (before m after : str)
    (gs : list (nat * str)) (tpl : str) : str :=
  match tpl with
  | [] => []
  | c :: t =>
    if negb (c =? 36)%N then c :: substitute ngroups before m after gs t
    else
      match t with
      | d :: t' =>
        if (d =? 36)%N then 36%N :: substitute ngroups before m after gs t'
        else if (d =? 38)%N then m ++ substitute ngroups before m after gs t'
        else if (d =? 96)%N then before ++ substitute ngroups before m after gs t'
        else if (d =? 39)%N then after ++ substitute ngroups before m after gs t'
        else if is_digit d then
          match t' with
          | e :: t'' =>
            let nn := 10 * digit_val d + digit_val e in
            if is_digit e && (1 <=? nn) && (nn <=? ngroups) then
              cap_text gs nn ++ substitute ngroups before m after gs t''
            else if (1 <=? digit_val d) && (digit_val d <=? ngroups) then
              cap_text gs (digit_val d) ++ substitute ngroups before m after gs t'
            else c :: substitute ngroups before m after gs t
          | [] =>
            if (1 <=? digit_val d) && (digit_val d <=? ngroups) then
              cap_text gs (digit_val d)
            else c :: substitute ngroups before m after gs t
          end
        else c :: substitute ngroups before m after gs t
      | [] => [c]
      end
  end.

(** [s.replace(pattern, tpl)] for a string pattern: the first occurrence. *)
Definition replace_str (s pat tpl : str) : str :=
  match index_of pat s with
  | None => s
  | Some i =>
    let before := take i s in
    let after := drop (i + length pat) s in
    before ++ substitute 0 before pat after [] tpl ++ after
  end.

(** [s.replace(/r/, tpl)] for a pattern without the [g] flag. *)
Definition replace_re (ml : bool) (r : regex) (ngroups : nat) (s tpl : str)
    : str :=
  match search ml r s with
  | None => s
  | Some m =>
    let before := take (index m) s in
    before ++ substitute ngroups before (matched m) (after m) (groups m) tpl
           ++ after m
  end.

End Js.

(** ** The file system

    The scripts reach the disk through [fs.readFileSync], [fs.writeFileSync],
    [fs.copyFileSync], [fs.unlinkSync] and [fs.existsSync]; a disk is a finite
    map from paths to file contents, each content being the text that
    [fs.readFileSync(path, 'utf8')] returns. *)

Module Fs.
Import Js.

Abbreviation disk := (gmap str str).

Definition readFileSync (d : disk) (path : str) : option str := d !! path.

(** The text goes through UTF-8: what the file holds afterwards is
    [toWellFormed content]. *)
Definition writeFileSync (d : disk) (path content : str) : disk :=
  <[path := toWellFormed content]> d.

(** [None] when the source is missing (the call throws). *)
Definition copyFileSync (d : disk) (src dst : str) : option disk :=
  match d !! src with
  | Some c => Some (<[dst := c]> d)
  | None => None
  end.

(** [None] when the file is missing (the call throws). *)
Definition unlinkSync (d : disk) (path : str) : option disk :=
  match d !! path with
  | Some _ => Some (delete path d)
  | None => None
  end.

Definition existsSync (d : disk) (path : str) : bool :=
  bool_decide (is_Some (d !! path)).

End Fs.

(** ** ContentValidator ([src/scripts/content-validator.js], first script) *)

Module Validator.
Import Js.

(** The messages the validator pushes, one constructor per template string;
    the arguments are the values spliced into the template. *)
Inductive message :=
| MissingFrontMatter                          (* Missing or malformed front matter *)
| MissingRequiredField (field : str)          (* Missing required field: F *)
| InvalidDateFormat (field dateStr : str)     (* Invalid date format for F: D ... *)
| GistCountMismatch (orig new : nat)          (* Gist count mismatch: original N, new M *)
| GistModified (i : nat) (orig new : str)     (* Gist i+1 was modified: "A" -> "B" *)
| HeadingCountChanged (orig new : nat)        (* Heading count changed: ... *)
| HeadingChanged (i : nat) (orig new : str)   (* Heading i+1 changed: "A" -> "B" *)
| LinkCountChanged (orig new : nat)           (* Link count changed: ... *)
| InternalLinkCountMismatch (orig new : nat)  (* Internal link count mismatch: ... *)
| UnmatchedSquareBrackets (opened closed : nat) (* Unmatched square brackets: N open, M close *)
| UnmatchedParentheses                        (* Potential unmatched parentheses in links *)
| UnmatchedCodeBlock                          (* Unmatched code block markers *)
| ContentShortened (origLen newLen : nat)     (* Content significantly shortened: P% reduction *)
| ContentLengthened (origLen newLen : nat)    (* Content significantly lengthened: P% increase *)
| FailedToValidate.                           (* Failed to validate file: ... *)

(** The instance fields [this.errors] and [this.warnings]. *)
Record validator := Validator {
  errors : list message;
  warnings : list message
}.

Definition push_error (m : message) (v : validator) : validator :=
  Validator (errors v ++ [m]) (warnings v).

Definition push_warning (m : message) (v : validator) : validator :=
  Validator (errors v) (warnings v ++ [m]).

Definition no_errors (v : validator) : bool :=
  match errors v with [] => true | _ => false end.

(** [/^---\n([\s\S]*?)\n---\n/] *)
Definition frontMatter_re : regex := Eval cbv in
  Cat [Bol; Lit (lit "---"); Chr LF; Group 1 (LazyStar AnyChar);
       Chr LF; Lit (lit "---"); Chr LF].

Definition requiredFields : list str := Eval cbv in
  [lit "title"; lit "productname"; lit "productkey"; lit "platformkey";
   lit "date"; lit "lastmod"; lit "type"].

Definition dateFields : list str := Eval cbv in [lit "date"; lit "lastmod"].

(** [\d{4}-\d{2}-\d{2}] *)
Definition ymd : regex := Eval cbv in
  Cat [Times 4 Digit; Chr 45%N; Times 2 Digit; Chr 45%N; Times 2 Digit].

(** [new RegExp(`${field}:\\s*(\\d{4}-\\d{2}-\\d{2})`)] *)
Definition dateField_re (field : str) : regex :=
  Seq (Lit (field ++ [58%N])) (Seq (Star Space) (Group 1 ymd)).

(** [/^\d{4}-\d{2}-\d{2}$/] *)
Definition strictDate_re : regex := Seq Bol (Seq ymd Eol).

(** The loop over [requiredFields]. *)
Definition checkRequired (frontMatter : str) (v : validator) : validator :=
  foldl (fun v field =>
           if negb (includes frontMatter (field ++ [58%N]))
           then push_error (MissingRequiredField field) v else v)
        v requiredFields.

(** The loop over [dateFields]. *)
Definition checkDates (frontMatter : str) (v : validator) : validator :=
  foldl (fun v field =>
           match search false (dateField_re field) frontMatter with
           | Some m =>
             let dateStr := default [] (group 1 m) in
             if negb (test false strictDate_re dateStr)
             then push_error (InvalidDateFormat field dateStr) v else v
           | None => v
           end)
        v dateFields.

Definition validateFrontMatter (content : str) (v : validator)
    : bool * validator :=
  match search false frontMatter_re content with
  | None => (false, push_error MissingFrontMatter v)
  | Some frontMatterMatch =>
    let frontMatter := default [] (group 1 frontMatterMatch) in
    let v := checkRequired frontMatter v in
    let v := checkDates frontMatter v in
    (no_errors v, v)
  end.

(** [/\{\{<\s*gist[\s\S]*?\>\}\}/g] *)
Definition gist_re : regex := Eval cbv in
  Cat [Lit (lit "{{<"); Star Space; Lit (lit "gist"); LazyStar AnyChar;
       Lit (lit ">}}")].

Definition gists (content : str) : list str := match_g false gist_re content.

(** The loop [for (let i = 0; i < originalGists.length; i++)], entered only
    when the two lists have the same length. *)
Fixpoint compareGists (i : nat) (orig new : list str) (v : validator)
    : validator :=
  match orig, new with
  | o :: orig', n :: new' =>
    compareGists (S i) orig' new'
      (if negb (str_eqb o n) then push_error (GistModified i o n) v else v)
  | _, _ => v
  end.

Definition validateGistPreservation (originalContent newContent : str)
    (v : validator) : bool * validator :=
  let originalGists := gists originalContent in
  let newGists := gists newContent in
  if negb (length originalGists =? length newGists) then
    (false, push_error (GistCountMismatch (length originalGists)
                                          (length newGists)) v)
  else
    let v := compareGists 0 originalGists newGists v in
    (no_errors v, v).

(** [/^#{1,6}\s+.+$/gm] *)
Definition heading_re : regex := Eval cbv in
  Cat [Bol; Rep 1 (Some 6) true (Chr 35%N); Plus Space; Plus (One ADot); Eol].

(** [/^#+\s+/] *)
Definition headingMark_re : regex := Eval cbv in
  Cat [Bol; Plus (Chr 35%N); Plus Space].

Definition headingText (h : str) : str := replace_re false headingMark_re 0 h [].

(** The loop up to [Math.min] of the two lengths. *)
Fixpoint compareHeadings (i : nat) (orig new : list str) (v : validator)
    : validator :=
  match orig, new with
  | o :: orig', n :: new' =>
    compareHeadings (S i) orig' new'
      (if negb (str_eqb o n) then push_warning (HeadingChanged i o n) v else v)
  | _, _ => v
  end.

Definition validateHeadingsPreservation (originalContent newContent : str)
    (v : validator) : bool * validator :=
  let originalHeadings := match_g true heading_re originalContent in
  let newHeadings := match_g true heading_re newContent in
  let v := if negb (length originalHeadings =? length newHeadings)
           then push_warning (HeadingCountChanged (length originalHeadings)
                                                  (length newHeadings)) v
           else v in
  (true, compareHeadings 0 (headingText <$> originalHeadings)
                           (headingText <$> newHeadings) v).

(** The link pattern of [validateLinksPreservation]: an opening bracket,
    group 1 of any run without a closing bracket, a closing bracket, an
    opening parenthesis, one or more characters other than a closing
    parenthesis, a closing parenthesis; flag [g]. *)
Definition link_re : regex := Eval cbv in
  Cat [Chr 91%N; Group 1 (Star (NoneOf [93%N])); Chr 93%N; Chr 40%N;
       Plus (NoneOf [41%N]); Chr 41%N].

(** [/\{\{<\s*site\/baseurl\s*\>\}/g] *)
Definition internalLink_re : regex := Eval cbv in
  Cat [Lit (lit "{{<"); Star Space; Lit (lit "site/baseurl"); Star Space;
       Lit (lit ">}")].

Definition validateLinksPreservation (originalContent newContent : str)
    (v : validator) : bool * validator :=
  let originalLinks := match_g false link_re originalContent in
  let newLinks := match_g false link_re newContent in
  let v := if negb (length originalLinks =? length newLinks)
           then push_warning (LinkCountChanged (length originalLinks)
                                               (length newLinks)) v
           else v in
  let originalInternalLinks := match_g false internalLink_re originalContent in
  let newInternalLinks := match_g false internalLink_re newContent in
  let v := if negb (length originalInternalLinks =? length newInternalLinks)
           then push_error (InternalLinkCountMismatch
                              (length originalInternalLinks)
                              (length newInternalLinks)) v
           else v in
  (no_errors v, v).

(** [/\]\(/g], [/\)\s*[^(]/g] and the code fence. *)
Definition linkOpen_re : regex := Eval cbv in Seq (Chr 93%N) (Chr 40%N).
Definition linkClose_re : regex := Eval cbv in
  Cat [Chr 41%N; Star Space; NoneOf [40%N]].
Definition fence_re : regex := Eval cbv in Lit (lit "```").

(** [Math.abs(a - b)] on counts. *)
Definition abs_diff (a b : nat) : nat := (a - b) + (b - a).

Definition validateMarkdownStructure (content : str) (v : validator)
    : bool * validator :=
  let openBrackets := length (match_g false (Chr 91%N) content) in
  let closeBrackets := length (match_g false (Chr 93%N) content) in
  let issues :=
    if negb (openBrackets =? closeBrackets)
    then [UnmatchedSquareBrackets openBrackets closeBrackets] else [] in
  let openParens := length (match_g false linkOpen_re content) in
  let closeParens := length (match_g false linkClose_re content) in
  let v := if 1 <? abs_diff openParens closeParens
           then push_warning UnmatchedParentheses v else v in
  let codeBlocks := match_g false fence_re content in
  let issues :=
    if negb (length codeBlocks mod 2 =? 0)
    then issues ++ [UnmatchedCodeBlock] else issues in
  (match issues with [] => true | _ => false end,
   Validator (errors v ++ issues) (warnings v)).

(** [ratio < 0.5] and [ratio > 2.0] for [ratio = newLength / originalLength]
    decided on the two lengths; with an empty original the quotient is [NaN]
    for an empty candidate (neither test holds) and [Infinity] otherwise. *)
Definition validateContentLength (originalContent newContent : str)
    (v : validator) : bool * validator :=
  let originalLength := length originalContent in
  let newLength := length newContent in
  (true,
   if 2 * newLength <? originalLength
   then push_warning (ContentShortened originalLength newLength) v
   else if 2 * originalLength <? newLength
   then push_warning (ContentLengthened originalLength newLength) v
   else v).

(** The object [validateFile] returns. *)
Record validation := Validation {
  valid : bool;
  v_errors : list message;
  v_warnings : list message
}.

(** JavaScript truthiness of [originalContent]: [null] and the empty string
    are falsy. *)
Definition truthy (o : option str) : bool :=
  match o with
  | Some (_ :: _) => true
  | _ => false
  end.

(** [validateFile(filePath, originalContent = null)]: the report and the
    instance afterwards.  Reading a missing file throws, which the method
    catches. *)
Definition validateFile (d : Fs.disk) (filePath : str)
    (originalContent : option str) (v : validator) : validation * validator :=
  let v := Validator [] [] in
  match Fs.readFileSync d filePath with
  | None => (Validation false [FailedToValidate] [], v)
  | Some content =>
    let v := snd (validateFrontMatter content v) in
    let v := snd (validateMarkdownStructure content v) in
    let v :=
      if truthy originalContent then
        let original := default [] originalContent in
        let v := snd (validateGistPreservation original content v) in
        let v := snd (validateHeadingsPreservation original content v) in
        let v := snd (validateLinksPreservation original content v) in
        snd (validateContentLength original content v)
      else v in
    (Validation (no_errors v) (errors v) (warnings v), v)
  end.

(** [ContentValidator.createBackup]; [stamp] is [Date.now()] in decimal. *)
Definition backupPathOf (filePath stamp : str) : str :=
  filePath ++ lit ".backup." ++ stamp.

Definition createBackup (d : Fs.disk) (filePath stamp : str)
    : option (str * Fs.disk) :=
  let backupPath := backupPathOf filePath stamp in
  d' ← Fs.copyFileSync d filePath backupPath;
  Some (backupPath, d').

(** [ContentValidator.restoreFromBackup]. *)
Definition restoreFromBackup (d : Fs.disk) (filePath backupPath : str)
    : option Fs.disk :=
  d' ← Fs.copyFileSync d backupPath filePath;
  Fs.unlinkSync d' backupPath.

End Validator.

(** ** LLMRewriter ([src/llm-rewriter.js]) *)

Module Rewriter.
Import Js.

(** The two requests the rewriter sends; the messages are built from the
    paragraph, the article title and the platform. *)
Inductive prompt :=
| OpeningPrompt (originalText articleTitle platform : str)
| ClosingPrompt (originalText articleTitle platform : str).

(** What one pass through the [try] block of [callLLM] ends in: an error
    caught by the [catch] (a rejected [fetch], a response that is not [ok],
    a body that is not JSON, a body without [choices[0].message]), or the
    value of [data.choices[0].message.content], [None] when it is not a
    string. *)
Inductive outcome :=
| Failed (message : str)
| Returned (content : option str).

(** The service: the outcome of its n-th request. *)
Definition service := nat -> prompt -> outcome.

Inductive event :=
| Request (n : nat) (p : prompt)   (* fetch(this.apiUrl, ...) *)
| Sleep (ms : Z).                  (* a timer that runs for ms milliseconds *)

(** The requests made so far and the trace of requests and waits. *)
Record client := Client {
  requests : nat;
  trace : list event
}.

Inductive llm_error :=
| ApiFailed (maxRetries : Z) (message : str). (* LLM API failed after N attempts: M *)

(** How an [async] method settles. *)
Inductive settled (A : Type) :=
| Resolved (value : A)
| Rejected (e : llm_error).
Arguments Resolved {A} value.
Arguments Rejected {A} e.

Definition fetch (svc : service) (p : prompt) (c : client)
    : outcome * client :=
  (svc (requests c) p,
   Client (S (requests c)) (trace c ++ [Request (requests c) p])).

(** Node's timers: a delay that is not between 1 and [TIMEOUT_MAX]
    milliseconds is replaced by 1 millisecond (with a
    [TimeoutOverflowWarning] when it is too long). *)
Definition TIMEOUT_MAX : Z := 2147483647.   (* 2^31 - 1 *)

Definition timer (ms : Z) : Z :=
  if (1 <=? ms)%Z && (ms <=? TIMEOUT_MAX)%Z then ms else 1%Z.

(** [await new Promise(resolve => setTimeout(resolve, ms))]: the trace
    records how long the timer runs. *)
Definition sleep (ms : Z) (c : client) : client :=
  Client (requests c) (trace c ++ [Sleep (timer ms)]).

(** The loop [for (let attempt = 1; attempt <= maxRetries; attempt++)];
    [fuel] is the number of values [attempt] can still take.  Falling out
    of the loop returns [undefined].  The delay
    [Math.pow(2, attempt) * 1000] is a double: it is the integer
    [2^attempt * 1000] up to attempt 1014 and [Infinity] from attempt 1015
    on; from attempt 22 on it is above [TIMEOUT_MAX] either way, so the
    timer treats the integer as it treats the double. *)
Fixpoint callLLM_from (svc : service) (p : prompt) (fuel : nat)
    (attempt maxRetries : Z) (c : client) : settled (option str) * client :=
  match fuel with
  | O => (Resolved None, c)
  | S fuel' =>
    if (attempt <=? maxRetries)%Z then
      let (o, c) := fetch svc p c in
      match o with
      | Returned content => (Resolved content, c)
      | Failed message =>
        if (attempt =? maxRetries)%Z
        then (Rejected (ApiFailed maxRetries message), c)
        else callLLM_from svc p fuel' (attempt + 1) maxRetries
               (sleep (2 ^ attempt * 1000) c)
      end
    else (Resolved None, c)
  end.

Definition callLLM (svc : service) (p : prompt) (maxRetries : Z) (c : client)
    : settled (option str) * client :=
  callLLM_from svc p (Z.to_nat maxRetries) 1 maxRetries c.

(** [callLLM(messages)] with the default [maxRetries = 3]. *)
Definition rewriteOpeningParagraph (svc : service)
    (originalText articleTitle platform : str) (c : client) :=
  callLLM svc (OpeningPrompt originalText articleTitle platform) 3 c.

Definition rewriteClosingParagraph (svc : service)
    (originalText articleTitle platform : str) (c : client) :=
  callLLM svc (ClosingPrompt originalText articleTitle platform) 3 c.

(** [delay(ms = 2000)]. *)
Definition delay (ms : Z) (c : client) : client := sleep ms c.

(** Readings of a trace: the number of requests and the waits in order. *)
Fixpoint attempts (t : list event) : nat :=
  match t with
  | [] => 0
  | Request _ _ :: t' => S (attempts t')
  | Sleep _ :: t' => attempts t'
  end.

Fixpoint waits (t : list event) : list Z :=
  match t with
  | [] => []
  | Sleep ms :: t' => ms :: waits t'
  | Request _ _ :: t' => waits t'
  end.

(** The trace of [S left] failed attempts, the first being request number
    [first] and attempt number [attempt]: a timer set to [2^attempt]
    seconds follows every attempt but the last. *)
Fixpoint retry_trace (p : prompt) (first : nat) (attempt : Z) (left : nat)
    : list event :=
  match left with
  | O => [Request first p]
  | S left' =>
    Request first p :: Sleep (timer (2 ^ attempt * 1000))
      :: retry_trace p (S first) (attempt + 1) left'
  end.

End Rewriter.

(** ** ContentProcessor ([src/scripts/content-validator.js], third script) *)

Module Processor.
Import Js.

(** The pattern of [parseFrontMatter]: the front matter between two [---]
    lines (group 1) and everything after (group 2), with LF or CRLF line
    ends. *)
Definition optCR : regex := Rep 0 (Some 1) true (Chr CR).

Definition parse_re : regex := Eval cbv in
  Cat [Bol; Lit (lit "---"); optCR; Chr LF; Group 1 (LazyStar AnyChar);
       optCR; Chr LF; Lit (lit "---"); optCR; Chr LF;
       Group 2 (Star AnyChar); Eol].

(** [None] stands for the thrown [No front matter found in file]. *)
Definition parseFrontMatter (content : str) : option (str * str) :=
  m ← search false parse_re content;
  Some (default [] (group 1 m), default [] (group 2 m)).

(** [/lastmod:\s*\d{4}-\d{2}-\d{2}/] and [/(date:\s*\d{4}-\d{2}-\d{2})/] *)
Definition lastmod_re : regex := Eval cbv in
  Cat [Lit (lit "lastmod:"); Star Space; Validator.ymd].
Definition date_re : regex := Eval cbv in
  Group 1 (Cat [Lit (lit "date:"); Star Space; Validator.ymd]).

(** [today] is [new Date().toISOString().split('T')[0]]. *)
Definition updateLastMod (today frontMatter : str) : str :=
  if includes frontMatter (lit "lastmod:") then
    replace_re false lastmod_re 0 frontMatter (lit "lastmod: " ++ today)
  else
    replace_re false date_re 1 frontMatter
      (lit "$1" ++ [LF] ++ lit "lastmod: " ++ today).

(** [/^## /m] and [/\{\{<\s*gist/] *)
Definition heading2_re : regex := Eval cbv in Seq Bol (Lit (lit "## ")).
Definition gistOpen_re : regex := Eval cbv in
  Cat [Lit (lit "{{<"); Star Space; Lit (lit "gist")].

Definition extractOpeningParagraph (content : str) : str :=
  let firstHeadingMatch := search true heading2_re content in
  let firstGistMatch := search false gistOpen_re content in
  let endPosition :=
    match firstHeadingMatch, firstGistMatch with
    | Some h, Some g => Nat.min (index h) (index g)
    | Some h, None => index h
    | None, Some g => index g
    | None, None => length content
    end in
  trim (take endPosition content).

(** [/\n\s*\n/] and [/^#+\s/] *)
Definition blank_re : regex := Eval cbv in Cat [Chr LF; Star Space; Chr LF].
Definition headingStart_re : regex := Eval cbv in
  Cat [Bol; Plus (Chr 35%N); Space].

Definition keepParagraph (p : str) : bool :=
  (0 <? length p) && negb (test false headingStart_re p).

Definition extractClosingParagraphs (content : str) : list str :=
  let gistMatches := match_all false Validator.gist_re content in
  match last gistMatches with
  | None => []
  | Some lastGist =>
    let afterLastGist :=
      drop (index lastGist + length (matched lastGist)) content in
    List.filter keepParagraph (trim <$> split false blank_re afterLastGist)
  end.

(** The patterns of [processArticle] for the title and the platform key:
    the field name, a colon, optional white space and a non-empty quoted
    value (group 1). *)
Definition quoted (field : str) : regex :=
  Seq (Lit field)
      (Seq (Star Space)
           (Seq (Chr 34%N) (Seq (Group 1 (Plus (NoneOf [34%N]))) (Chr 34%N)))).

Definition title_re : regex := Eval cbv in quoted (lit "title:").
Definition platform_re : regex := Eval cbv in quoted (lit "platformkey:").

Inductive change :=
| OpeningChanged                 (* 'opening paragraph' *)
| ClosingChanged (n : nat).      (* `${n} closing paragraphs` *)

(** The errors [processArticle] catches, by origin. *)
Inductive failure :=
| ReadFailed                     (* fs.readFileSync threw *)
| NoFrontMatter                  (* No front matter found in file *)
| NoTitleOrPlatform              (* Could not extract title or platform ... *)
| LlmFailed (e : Rewriter.llm_error)
| NotAString                     (* TypeError: .trim() of a value that is no string *)
| FsFailed                       (* a file-system call threw *)
| ValidationFailed (errors : list Validator.message). (* Validation failed: ... *)

Inductive status := success | error.

(** The two shapes of result object. *)
Inductive result :=
| Processed (filePath fileName title platform : str) (changes : list change)
| Errored (filePath fileName : str) (e : failure).

Definition result_status (r : result) : status :=
  match r with
  | Processed _ _ _ _ _ => success
  | Errored _ _ _ => error
  end.

Definition result_changes (r : result) : list change :=
  match r with
  | Processed _ _ _ _ changes => changes
  | Errored _ _ _ => []
  end.

(** What the processor works on: the disk, the rewriter, the validator
    instance and [this.processedFiles]. *)
Record world := World {
  disk : Fs.disk;
  llm : Rewriter.client;
  validator : Validator.validator;
  processedFiles : list result
}.

(** What the run is given from outside: the rewrite service, the clock
    ([now] is [Date.now()] in decimal, [today] the ISO date) and Node's
    [path] functions. *)
Record env := Env {
  svc : Rewriter.service;
  now : str;
  today : str;
  isAbsolute : str -> bool;
  resolve : str -> str;            (* path.resolve(__dirname, '../..', p) *)
  basename : str -> str
}.

(** Statements that may throw, over the world. *)
Inductive res (A : Type) :=
| Ok (a : A)
| Throw (e : failure).
Arguments Ok {A} a.
Arguments Throw {A} e.

Definition M (A : Type) : Type := world -> res A * world.

Definition ret {A} (a : A) : M A := fun w => (Ok a, w).
Definition throw {A} (e : failure) : M A := fun w => (Throw e, w).
Definition bind {A B} (m : M A) (f : A -> M B) : M B :=
  fun w => match m w with
           | (Ok a, w') => f a w'
           | (Throw e, w') => (Throw e, w')
           end.
Definition try_catch {A} (m : M A) (h : failure -> M A) : M A :=
  fun w => match m w with
           | (Throw e, w') => h e w'
           | r => r
           end.

Notation "x <- m ;; k" := (bind m (fun x => k))
  (at level 100, m at next level, right associativity).
Notation "m ;;; k" := (bind m (fun _ => k))
  (at level 100, right associativity).

Definition set_disk (d : Fs.disk) (w : world) : world :=
  World d (llm w) (validator w) (processedFiles w).
Definition set_llm (c : Rewriter.client) (w : world) : world :=
  World (disk w) c (validator w) (processedFiles w).
Definition set_validator (v : Validator.validator) (w : world) : world :=
  World (disk w) (llm w) v (processedFiles w).
Definition push_result (r : result) (w : world) : world :=
  World (disk w) (llm w) (validator w) (processedFiles w ++ [r]).

(** A file-system call that throws when it fails. *)
Definition fs_do (f : Fs.disk -> option Fs.disk) : M unit :=
  fun w => match f (disk w) with
           | Some d => (Ok tt, set_disk d w)
           | None => (Throw FsFailed, w)
           end.

Definition readFile (path : str) : M str :=
  fun w => match Fs.readFileSync (disk w) path with
           | Some c => (Ok c, w)
           | None => (Throw ReadFailed, w)
           end.

Definition writeFile (path content : str) : M unit :=
  fun w => (Ok tt, set_disk (Fs.writeFileSync (disk w) path content) w).

Definition existsFile (path : str) : M bool :=
  fun w => (Ok (Fs.existsSync (disk w) path), w).

(** [await this.llmRewriter.rewrite...(...)] followed by [.trim()]. *)
Definition rewritten
    (call : Rewriter.client -> Rewriter.settled (option str) * Rewriter.client)
    : M str :=
  fun w =>
    let (r, c) := call (llm w) in
    match r with
    | Rewriter.Resolved (Some text) => (Ok (trim text), set_llm c w)
    | Rewriter.Resolved None => (Throw NotAString, set_llm c w)
    | Rewriter.Rejected e => (Throw (LlmFailed e), set_llm c w)
    end.

Definition delay (ms : Z) : M unit :=
  fun w => (Ok tt, set_llm (Rewriter.delay ms (llm w)) w).

Definition validateFile (path : str) (originalContent : option str)
    : M Validator.validation :=
  fun w =>
    let (r, v) := Validator.validateFile (disk w) path originalContent
                    (validator w) in
    (Ok r, set_validator v w).

Definition createBackup (e : env) (path : str) : M str :=
  fun w => match Validator.createBackup (disk w) path (now e) with
           | Some (backupPath, d) => (Ok backupPath, set_disk d w)
           | None => (Throw FsFailed, w)
           end.

Definition restoreFromBackup (path backupPath : str) : M unit :=
  fs_do (fun d => Validator.restoreFromBackup d path backupPath).

(** The loop over [closingParagraphs]. *)
Fixpoint rewriteClosings (e : env) (title platform : str)
    (paragraphs : list str) (newContent : str) : M str :=
  match paragraphs with
  | [] => ret newContent
  | paragraph :: more =>
    rewrittenClosing <-
      rewritten (Rewriter.rewriteClosingParagraph (svc e) paragraph title
                   platform) ;;
    let newContent := replace_str newContent paragraph rewrittenClosing in
    (match more with [] => ret tt | _ => delay 2000 end) ;;;
    rewriteClosings e title platform more newContent
  end.

(** The inner [try] block with its [catch]: write, validate, restore the
    backup when the candidate is rejected, delete it otherwise. *)
Definition commit (absolutePath backupPath originalContent newFileContent : str)
    : M Validator.validation :=
  try_catch
    (writeFile absolutePath newFileContent ;;;
     validation <- validateFile absolutePath (Some originalContent) ;;
     if negb (Validator.valid validation) then
       restoreFromBackup absolutePath backupPath ;;;
       throw (ValidationFailed (Validator.v_errors validation))
     else
       fs_do (fun d => Fs.unlinkSync d backupPath) ;;;
       ret validation)
    (fun err =>
       stillThere <- existsFile backupPath ;;
       (if stillThere : bool then restoreFromBackup absolutePath backupPath
        else ret tt) ;;;
       throw err).

(** What the first half of the outer [try] block hands to the second. *)
Record candidate := Candidate {
  originalContent : str;
  title : str;
  platform : str;
  changes : list change;
  newFileContent : str
}.

(** The outer [try] block up to the reconstruction of the file: read,
    parse, extract, rewrite, reassemble.  [None] is the [return null] of a
    file with nothing to rewrite. *)
Definition prepare (e : env) (absolutePath : str) : M (option candidate) :=
  originalContent <- readFile absolutePath ;;
  match parseFrontMatter originalContent with
  | None => throw NoFrontMatter
  | Some (frontMatter, content) =>
    match search false title_re frontMatter,
          search false platform_re frontMatter with
    | Some titleMatch, Some platformMatch =>
      let title := default [] (group 1 titleMatch) in
      let platform := default [] (group 1 platformMatch) in
      let openingParagraph := extractOpeningParagraph content in
      let closingParagraphs := extractClosingParagraphs content in
      match openingParagraph, closingParagraphs with
      | [], [] => ret None
      | _, _ =>
        newContent <-
          match openingParagraph with
          | [] => ret content
          | _ =>
            rewrittenOpening <-
              rewritten (Rewriter.rewriteOpeningParagraph (svc e)
                           openingParagraph title platform) ;;
            let newContent :=
              replace_str content openingParagraph rewrittenOpening in
            delay 2000 ;;;
            ret newContent
          end ;;
        newContent <- rewriteClosings e title platform closingParagraphs
                        newContent ;;
        let changes :=
          (match openingParagraph with [] => [] | _ => [OpeningChanged] end)
          ++ (match closingParagraphs with
              | [] => []
              | _ => [ClosingChanged (length closingParagraphs)]
              end) in
        let updatedFrontMatter := updateLastMod (today e) frontMatter in
        let newFileContent :=
          lit "---" ++ [LF] ++ updatedFrontMatter ++ [LF] ++ lit "---" ++ [LF]
          ++ newContent in
        ret (Some (Candidate originalContent title platform changes
                             newFileContent))
      end
    | _, _ => throw NoTitleOrPlatform
    end
  end.

(** The rest of the outer [try] block: back up, commit, record. *)
Definition finish (e : env) (absolutePath : str) (c : candidate) : M result :=
  backupPath <- createBackup e absolutePath ;;
  commit absolutePath backupPath (originalContent c) (newFileContent c) ;;;
  let result := Processed absolutePath (basename e absolutePath) (title c)
                  (platform c) (changes c) in
  fun w => (Ok result, push_result result w).

Definition processBody (e : env) (absolutePath : str) : M (option result) :=
  c <- prepare e absolutePath ;;
  match c with
  | None => ret None
  | Some c => result <- finish e absolutePath c ;; ret (Some result)
  end.

Definition processArticle (e : env) (filePath : str) (w : world)
    : option result * world :=
  let absolutePath :=
    if isAbsolute e filePath then filePath else resolve e filePath in
  match processBody e absolutePath w with
  | (Ok r, w') => (r, w')
  | (Throw err, w') =>
    let result := Errored absolutePath (basename e filePath) err in
    (Some result, push_result result w')
  end.

(** [processArticles]: one file after the other, three seconds apart;
    [envs i] is what the i-th file is given. *)
Fixpoint processArticles_from (envs : nat -> env) (i : nat)
    (articlePaths : list str) (w : world) : world :=
  match articlePaths with
  | [] => w
  | path :: more =>
    let w := snd (processArticle (envs i) path w) in
    let w := match more with
             | [] => w
             | _ => set_llm (Rewriter.delay 3000 (llm w)) w
             end in
    processArticles_from envs (S i) more w
  end.

Definition processArticles (envs : nat -> env) (articlePaths : list str)
    (w : world) : list result * world :=
  let w := processArticles_from envs 0 articlePaths w in
  (processedFiles w, w).

Record summary := Summary {
  total : nat;
  successful : nat;
  failed : nat
}.

Record report := Report {
  r_summary : summary;
  files : list result
}.

Definition is_success (r : result) : bool :=
  match result_status r with success => true | error => false end.
Definition is_error (r : result) : bool :=
  match result_status r with success => false | error => true end.

(** [generateReport]; [render] is [JSON.stringify(report, null, 2)] with the
    time stamp. *)
Definition generateReport (render : report -> str) (w : world)
    : report * world :=
  let successful := List.filter is_success (processedFiles w) in
  let failed := List.filter is_error (processedFiles w) in
  let report :=
    Report (Summary (length (processedFiles w)) (length successful)
                    (length failed))
           (processedFiles w) in
  (report,
   set_disk (Fs.writeFileSync (disk w) (lit "processing-report.json")
               (render report)) w).

(** A statement that leaves the disk, the validator and the results as
    they are. *)
Definition frames {A} (m : M A) : Prop :=
  forall w, disk (m w).2 = disk w /\ validator (m w).2 = validator w /\
            processedFiles (m w).2 = processedFiles w.

End Processor.

(** ** Scanners

    What the matcher does on the shapes of pattern the scripts use, written
    as plain recursions over the input; the matcher is proved to agree with
    them below. *)

Module Scan.
Import Js.

(** Consume the literal [l]. *)
Fixpoint strip (l : str) (st : mstate) : option mstate :=
  match l with
  | [] => Some st
  | c :: l' =>
    match rest st with
    | x :: t =>
      if (x =? c)%N then strip l' (MState (Some x) t (caps st)) else None
    | [] => None
    end
  end.

(** Consume exactly [n] code units that satisfy [a]. *)
Fixpoint eat (a : atom) (n : nat) (st : mstate) : option mstate :=
  match n with
  | O => Some st
  | S n' =>
    match rest st with
    | x :: t =>
      if atom_ok a x then eat a n' (MState (Some x) t (caps st)) else None
    | [] => None
    end
  end.

(** A greedy star over [a]: as many code units as possible, then one fewer,
    and so on, until the continuation accepts. *)
Fixpoint star_try (a : atom) (p : option char) (s : str)
    (cs : list (nat * str)) (k : cont) : option mstate :=
  match s with
  | x :: t =>
    if atom_ok a x then
      match star_try a (Some x) t cs k with
      | Some z => Some z
      | None => k (MState p s cs)
      end
    else k (MState p s cs)
  | [] => k (MState p s cs)
  end.

(** A lazy star over [a]: as few code units as possible. *)
Fixpoint lazy_try (a : atom) (p : option char) (s : str)
    (cs : list (nat * str)) (k : cont) : option mstate :=
  match k (MState p s cs) with
  | Some z => Some z
  | None =>
    match s with
    | x :: t => if atom_ok a x then lazy_try a (Some x) t cs k else None
    | [] => None
    end
  end.

(** The state after the longest run of code units that satisfy [a]. *)
Fixpoint skip_all (a : atom) (p : option char) (s : str)
    (cs : list (nat * str)) : mstate :=
  match s with
  | x :: t => if atom_ok a x then skip_all a (Some x) t cs else MState p s cs
  | [] => MState p s cs
  end.



(** The code unit before position [j] of [s], [p] being the one before
    position 0. *)
Definition prev_at (p : option char) (s : str) (j : nat) : option char :=
  match j with
  | O => p
  | S j' => s !! j'
  end.

Definition digit : atom := AClass false [IDigit].

Definition dash : atom := AChar 45%N.

(** Four digits, a dash, two digits, a dash, two digits. *)
Definition eat_ymd (st : mstate) : option mstate :=
  st ← eat digit 4 st; st ← eat dash 1 st; st ← eat digit 2 st;
  st ← eat dash 1 st; eat digit 2 st.

Definition space : atom := AClass false [ISpace].

Definition anychar : atom := AClass false [ISpace; INonSpace].






End Scan.

(** ** The words of the specification

    Definitions that follow the specification's wording rather than the
    scripts, to state what the scripts are compared with. *)

Module Spec.
Import Js.

(** The number of occurrences of a code unit. *)
Fixpoint count_char (c : char) (s : str) : nat :=
  match s with
  | [] => 0
  | x :: t => if (x =? c)%N then S (count_char c t) else count_char c t
  end.

(** *** The opening span *)

(** Position [i] begins a line: it is the first of the text or follows a
    line terminator. *)
Definition line_start (body : str) (i : nat) : Prop :=
  match i with
  | O => True
  | S j => exists c, body !! j = Some c /\ is_line_terminator c = true
  end.

(** A second-level heading line begins at [i]: two hashes and a space at
    the start of a line. *)
Definition heading2_at (body : str) (i : nat) : Prop :=
  line_start body i /\ lit "## " `prefix_of` drop i body.

(** The opening token of a gist shortcode begins at [i]: two braces and an
    angle, any white space, the word gist. *)
Definition gist_open_at (body : str) (i : nat) : Prop :=
  exists ws, Forall (fun c => is_space c = true) ws /\
             (lit "{{<" ++ ws ++ lit "gist") `prefix_of` drop i body.

(** [o] is the first offset at which [P] holds, [None] when there is none. *)
Definition first_at (P : nat -> Prop) (o : option nat) : Prop :=
  match o with
  | Some i => P i /\ forall j, j < i -> ~ P j
  | None => forall j, ~ P j
  end.

(** Where the opening span ends, given the first heading and the first
    gist: at the smaller of the two, at the one there is, at the end of
    the body. *)
Definition opening_end (body : str) (heading gist : option nat) : nat :=
  match heading, gist with
  | Some h, Some g => Nat.min h g
  | Some h, None => h
  | None, Some g => g
  | None, None => length body
  end.

(** White space, as trimming understands it: the white space and the line
    terminators of ECMAScript (tab, line feed, vertical tab, form feed,
    carriage return, space, no-break space, the space separators U+1680,
    U+2000 to U+200A, U+202F, U+205F and U+3000, the line and paragraph
    separators, and the byte order mark). *)
Definition white (c : char) : Prop :=
  c ∈ [9; 10; 11; 12; 13; 32; 160; 5760; 8232; 8233; 8239; 8287; 12288;
       65279]%N
  \/ (8192 <= c <= 8202)%N.

(** [t] is [s] trimmed: [s] is white space, [t] and white space, and [t]
    neither begins nor ends with white space. *)
Definition trimmed (s t : str) : Prop :=
  exists before after,
    s = before ++ t ++ after /\
    Forall white before /\ Forall white after /\
    (forall x, head t = Some x -> ~ white x) /\
    (forall y, last t = Some y -> ~ white y).

(** A decimal digit. *)
Definition digit (c : char) : Prop := (48 <= c <= 57)%N.

(** A date as the front matter writes it: four digits, a dash, two digits,
    a dash, two digits. *)
Definition date_text (d : str) : Prop :=
  exists y m dd, d = y ++ [45%N] ++ m ++ [45%N] ++ dd /\
    length y = 4 /\ length m = 2 /\ length dd = 2 /\
    Forall digit (y ++ m ++ dd).

(** [s] begins with the key, any white space and a date; [rest] is what
    follows the date. *)
Definition dated (key s rest : str) : Prop :=
  exists ws d, Forall white ws /\ date_text d /\ s = key ++ ws ++ d ++ rest.

(** [p] occurs somewhere in [s]. *)
Definition occurs (p s : str) : Prop := exists a b, s = a ++ p ++ b.

(** The lines of a text: the pieces between line feeds. *)
Fixpoint lines (s : str) : list str :=
  match s with
  | [] => [[]]
  | c :: t =>
    if (c =? LF)%N then [] :: lines t
    else match lines t with
         | l :: ls => (c :: l) :: ls
         | [] => [[c]]
         end
  end.

(** *** The closing spans *)

(** [s] without the prefix [l], when it begins with it. *)
Definition strip_prefix (l s : str) : option str :=
  if starts_with l s then Some (drop (length l) s) else None.

(** The text after the first closing token. *)
Fixpoint after_close (s : str) : option str :=
  match strip_prefix (lit ">}}") s with
  | Some t => Some t
  | None =>
    match s with
    | [] => None
    | _ :: s' => after_close s'
    end
  end.

(** A gist shortcode begins the text: the opening token (two braces and
    an angle, any white space, the word gist), then everything up to the
    first closing token.  The result is the text after the shortcode. *)
Definition gist_at (s : str) : option str :=
  t ← strip_prefix (lit "{{<") s;
  u ← strip_prefix (lit "gist") (drop_while is_space t);
  after_close u.

(** The text after the last gist shortcode, the shortcodes being read from
    left to right, each from where the one before ended.  [fuel] bounds the
    number of steps; the length of the text and one more is enough. *)
Fixpoint after_last_gist_from (fuel : nat) (s : str) : option str :=
  match fuel with
  | O => None
  | S fuel' =>
    match gist_at s with
    | Some t => Some (default t (after_last_gist_from fuel' t))
    | None =>
      match s with
      | [] => None
      | _ :: s' => after_last_gist_from fuel' s'
      end
    end
  end.

Definition after_last_gist (s : str) : option str :=
  after_last_gist_from (S (length s)) s.

(** A blank line holds white space only. *)
Definition blank (l : str) : bool := forallb is_space l.

Fixpoint join_lines (ls : list str) : str :=
  match ls with
  | [] => []
  | [l] => l
  | l :: ls' => l ++ LF :: join_lines ls'
  end.

(** The maximal runs of lines that are not blank; [cur] is the run being
    read. *)
Fixpoint runs (cur : list str) (ls : list str) : list (list str) :=
  match ls with
  | [] => match cur with [] => [] | _ => [cur] end
  | l :: ls' =>
    if blank l then
      match cur with
      | [] => runs [] ls'
      | _ => cur :: runs [] ls'
      end
    else runs (cur ++ [l]) ls'
  end.

(** The paragraphs of a text: its maximal runs of non-blank lines, each
    trimmed. *)
Definition run_text (run : list str) : str := trim (join_lines run).

Definition paragraphs (s : str) : list str :=
  run_text <$> runs [] (lines s).



(** A field of a front matter: a line that begins with the name and a
    colon; its value is the rest of that line, trimmed. *)
Definition has_field (name frontMatter : str) : bool :=
  existsb (starts_with (name ++ [58%N])) (lines frontMatter).

Definition field_value (name frontMatter : str) : option str :=
  (fun l => trim (drop (length name + 1) l))
    <$> List.find (starts_with (name ++ [58%N])) (lines frontMatter).

End Spec.

(** ** ArticleSelector (second script of [src/scripts/content-validator.js])

    The selector reaches outside through the directory listing, git and the
    clock (which decide whether a file is old enough), Node's [path]
    functions and [Math.random].  These are given by an environment; the
    filters and the selection loop are the script's. *)

Module Selector.
Import Js.

Inductive Platform := java | net.

(** One entry of [selected]. *)
Record article := Article {
  path : str;
  platform : Platform;
  filename : str;
  lastModified : str
}.

(** [readdirSync] is [None] when the call throws.  [oldEnough] stands for
    [isFileOldEnough], [None] when neither git nor [fs.statSync] answers;
    [lastModifiedDay] for [getLastModifiedDate(p).toISOString().split('T')[0]],
    [None] when the date is invalid and [toISOString] throws.  The n-th
    value [r] of [Math.random()] is used as [Math.floor(r * m)]
    ([floorRandom n m]) or as [r < 0.5] ([belowHalf n]). *)
Record env := Env {
  readdirSync : str -> option (list str);
  oldEnough : str -> option bool;
  lastModifiedDay : str -> option str;
  join : str -> str -> str;
  basename : str -> str;
  contentBase : str;                 (* CONTENT_BASE *)
  floorRandom : nat -> nat -> nat;
  belowHalf : nat -> bool
}.

Definition MIN_ARTICLES_PER_RUN : nat := 2.
Definition MAX_ARTICLES_PER_RUN : nat := 5.

(** [s.endsWith(suffix)]. *)
Definition ends_with (s suffix : str) : bool :=
  starts_with (rev suffix) (rev s).

(** [file.endsWith('.md') && !file.startsWith('_index')] *)
Definition keepName (file : str) : bool :=
  ends_with file (lit ".md") && negb (starts_with (lit "_index") file).

(** [Array.prototype.filter] with a callback that may throw. *)
Fixpoint filter_throwing (f : str -> option bool) (l : list str)
    : option (list str) :=
  match l with
  | [] => Some []
  | x :: t =>
    b ← f x; r ← filter_throwing f t; Some (if b : bool then x :: r else r)
  end.

(** [getMarkdownFiles]: whatever is thrown inside, the result is empty. *)
Definition getMarkdownFiles (e : env) (dirPath : str) : list str :=
  match readdirSync e dirPath with
  | None => []
  | Some files =>
    default [] (filter_throwing (oldEnough e)
                  (join e dirPath <$> List.filter keepName files))
  end.

(** [randomPlatformChoice] on the n-th draw. *)
Definition randomPlatformChoice (e : env) (n : nat) : Platform :=
  if belowHalf e n then net else java.

Definition directory (e : env) (p : Platform) : str :=
  join e (contentBase e) (match p with java => lit "java" | net => lit "net" end).

(** [articles.filter(article => !selected.some(sel => sel.path === article))] *)
Definition unselected (selected : list article) (articles : list str)
    : list str :=
  List.filter
    (fun a => negb (existsb (fun sel => str_eqb (path sel) a) selected))
    articles.

(** The loop of [selectArticles]: [iterations] rounds are left, [n] draws
    have been made.  [None] stands for an exception: [path.basename] of
    [undefined], or [toISOString] of an invalid date. *)
Fixpoint select_loop (e : env) (available : Platform -> list str)
    (iterations n : nat) (selected : list article) : option (list article) :=
  match iterations with
  | O => Some selected
  | S iterations' =>
    let p := randomPlatformChoice e n in
    let articles := available p in
    match articles with
    | [] => select_loop e available iterations' (S n) selected
    | _ :: _ =>
      match unselected selected articles with
      | [] => select_loop e available iterations' (S n) selected
      | unselectedArticles =>
        let randomIndex := floorRandom e (S n) (length unselectedArticles) in
        match unselectedArticles !! randomIndex with
        | None => None
        | Some selectedPath =>
          match lastModifiedDay e selectedPath with
          | None => None
          | Some day =>
            select_loop e available iterations' (S (S n))
              (selected
               ++ [Article selectedPath p (basename e selectedPath) day])
          end
        end
      end
    end
  end.

Definition articlesToProcess (e : env) : nat :=
  floorRandom e 0 (MAX_ARTICLES_PER_RUN - MIN_ARTICLES_PER_RUN + 1)
  + MIN_ARTICLES_PER_RUN.

Definition availableArticles (e : env) (p : Platform) : list str :=
  getMarkdownFiles e (directory e p).

Definition selectArticles (e : env) : option (list article) :=
  select_loop e (availableArticles e) (articlesToProcess e) 1 [].

Record summary := Summary {
  total : nat;
  javaCount : nat;     (* summary.java *)
  netCount : nat       (* summary.net *)
}.

Record selection := Selection {
  articles : list article;
  s_summary : summary
}.

Definition is_java (a : article) : bool :=
  match platform a with java => true | net => false end.
Definition is_net (a : article) : bool :=
  match platform a with java => false | net => true end.

(** [exportSelection]; [render] is [JSON.stringify(selection, null, 2)]
    with the time stamp, [outputPath] the resolved path of
    [selected-articles.json]. *)
Definition exportSelection (render : selection -> str) (outputPath : str)
    (selectedArticles : list article) (d : Fs.disk) : selection * Fs.disk :=
  let selection :=
    Selection selectedArticles
      (Summary (length selectedArticles)
               (length (List.filter is_java selectedArticles))
               (length (List.filter is_net selectedArticles))) in
  (selection, Fs.writeFileSync d outputPath (render selection)).

(** What the loop keeps: no path twice, every entry drawn from the
    articles available for its platform and named after its path. *)
Definition well_selected (e : env) (available : Platform -> list str)
    (selected : list article) : Prop :=
  NoDup (path <$> selected) /\
  Forall (fun a => path a ∈ available (platform a) /\
                   filename a = basename e (path a) /\
                   lastModifiedDay e (path a) = Some (lastModified a))
         selected.

End Selector.

(** ** Sample documents *)

Module Examples.
Import Js.

(** Lines joined, each followed by a line feed. *)
Definition text (ls : list str) : str :=
  concat (List.map (fun l => l ++ [LF]) ls).

(** [name: "value"], the value between double quotes. *)
Definition quotedField (name value : string) : str :=
  lit name ++ lit ": " ++ [34%N] ++ lit value ++ [34%N].

Definition path : str := lit "/content/en/total/java/article.md".

Definition frontMatter : list str :=
  [lit "---"; quotedField "title" "Convert"; lit "productname: Total";
   lit "productkey: total"; quotedField "platformkey" "java";
   lit "date: 2024-01-02"; lit "lastmod: 2024-01-03"; lit "type: docs";
   lit "---"].

(** The scenario of the specification. *)
Definition body : list str :=
  [lit "Intro text."; []; lit "## Heading"; lit "{{< gist a >}}"; [];
   lit "Closing one."; []; lit "Closing two."].

Definition article : str := text (frontMatter ++ body).

Definition gistOnly : str := text (frontMatter ++ [lit "{{< gist a >}}"]).

(** A body that begins with a heading and holds no gist: nothing to
    rewrite. *)
Definition headingOnly : str :=
  text (frontMatter ++ [lit "## Heading"; lit "Text under the heading."]).

(** A front matter without a [title] field; [subtitle] is there instead. *)
Definition subtitled : str :=
  text [lit "---"; quotedField "subtitle" "Convert"; lit "productname: Total";
        lit "productkey: total"; quotedField "platformkey" "java";
        lit "date: 2024-01-02"; lit "lastmod: 2024-01-03"; lit "type: docs";
        lit "---"; lit "Text."].

(** A front matter that names the platform and no title. *)
Definition untitled : str :=
  text [lit "---"; lit "productname: Total"; quotedField "platformkey" "java";
        lit "date: 2024-01-02"; lit "---"; lit "Text."].

(** A date written with slashes. *)
Definition slashDate : str :=
  text [lit "---"; quotedField "title" "Convert"; lit "productname: Total";
        lit "productkey: total"; quotedField "platformkey" "java";
        lit "date: 2024/01/02"; lit "lastmod: 2024-01-03"; lit "type: docs";
        lit "---"; lit "Text."].

(** One opening bracket that is never closed, and nothing else amiss. *)
Definition openBracket : str :=
  text (frontMatter ++ [lit "See [the guide for details."]).

(** A rewrite service that answers every request with a gist shortcode, and
    a run in which the paths are absolute. *)
Definition echoGist : Processor.env :=
  Processor.Env (fun _ _ => Rewriter.Returned (Some (lit "{{< gist z >}}")))
                (lit "1700000000000") (lit "2025-05-06")
                (fun _ => true) (fun p => p) (fun p => p).

(** A rewrite service whose first request fails and whose later requests
    are answered. *)
Definition secondTry : Rewriter.service :=
  fun n _ =>
    match n with
    | O => Rewriter.Failed (lit "HTTP 503: busy")
    | _ => Rewriter.Returned (Some (lit "Better text."))
    end.

(** A rewrite service that answers every request with the same sentence. *)
Definition polite : Processor.env :=
  Processor.Env (fun _ _ => Rewriter.Returned (Some (lit "Better text.")))
                (lit "1700000000000") (lit "2025-05-06")
                (fun _ => true) (fun p => p) (fun p => p).

(** A world whose disk holds one document. *)
Definition holding (content : str) : Processor.world :=
  Processor.World {[ path := content ]} (Rewriter.Client 0 [])
                  (Validator.Validator [] []) [].

(** The front matter and the body of a document, as [parseFrontMatter]
    splits it. *)
Definition parsed (content : str) : str * str :=
  default ([], []) (Processor.parseFrontMatter content).

(** The match of a pattern in the front matter of a document. *)
Definition found (r : regex) (content : str) : match_result :=
  default (MatchResult 0 [] [] []) (search false r (parsed content).1).

(** What [prepare] hands on for the scenario under [echoGist]. *)
Definition echoGistRun : Processor.res (option Processor.candidate)
                         * Processor.world :=
  Processor.prepare echoGist path (holding article).

Definition echoGistCandidate : Processor.candidate :=
  match echoGistRun.1 with
  | Processor.Ok (Some c) => c
  | _ => Processor.Candidate [] [] [] [] []
  end.

Definition echoGistWorld : Processor.world := echoGistRun.2.

(** What [prepare] hands on for the scenario under [polite]. *)
Definition politeRun : Processor.res (option Processor.candidate)
                       * Processor.world :=
  Processor.prepare polite path (holding article).

Definition politeCandidate : Processor.candidate :=
  match politeRun.1 with
  | Processor.Ok (Some c) => c
  | _ => Processor.Candidate [] [] [] [] []
  end.

Definition politeWorld : Processor.world := politeRun.2.

(** A content tree with articles for Java and one for .NET; every file is
    old enough, every draw takes the first index, and the draws alternate
    between the platforms. *)
Definition tree : Selector.env :=
  Selector.Env
    (fun dir =>
       if str_eqb dir (lit "/content/en/total/java")
       then Some [lit "_index.md"; lit "a.md"; lit "b.md"; lit "notes.txt"]
       else if str_eqb dir (lit "/content/en/total/net")
       then Some [lit "c.md"]
       else None)
    (fun _ => Some true)
    (fun _ => Some (lit "2024-01-03"))
    (fun dir file => dir ++ lit "/" ++ file)
    (fun p => p)
    (lit "/content/en/total")
    (fun _ _ => 0)
    Nat.even.

(** A tree without articles for Java, and draws that always choose Java. *)
Definition javaless : Selector.env :=
  Selector.Env
    (fun dir =>
       if str_eqb dir (lit "/content/en/total/net")
       then Some [lit "c.md"; lit "d.md"]
       else None)
    (fun _ => Some true)
    (fun _ => Some (lit "2024-01-03"))
    (fun dir file => dir ++ lit "/" ++ file)
    (fun p => p)
    (lit "/content/en/total")
    (fun _ _ => 0)
    (fun _ => false).

(** Six articles for each platform. *)
Definition sixEach : Selector.env :=
  Selector.Env
    (fun _ => Some [lit "a.md"; lit "b.md"; lit "c.md"; lit "d.md";
                    lit "e.md"; lit "f.md"])
    (fun _ => Some true)
    (fun _ => Some (lit "2024-01-03"))
    (fun dir file => dir ++ lit "/" ++ file)
    (fun p => p)
    (lit "/content/en/total")
    (fun _ _ => 0)
    Nat.even.

End Examples.

(** ** The stages of a validation

    The validator's state after each group of checks, and the properties of
    a state that the checks maintain. *)

Module Stages.
Import Js Validator.

(** The error list only grows along a validation. *)
Definition grows (v v' : validator) : Prop :=
  exists l, errors v' = errors v ++ l.

(** The stages of [validateFile] on a readable file with an original to
    compare with. *)
Definition afterStructure (content : str) : validator :=
  (validateMarkdownStructure content
     (validateFrontMatter content (Validator [] [])).2).2.

Definition afterGists (original content : str) : validator :=
  (validateGistPreservation original content (afterStructure content)).2.

Definition afterAll (original content : str) : validator :=
  (validateContentLength original content
     (validateLinksPreservation original content
        (validateHeadingsPreservation original content
           (afterGists original content)).2).2).2.

(** The messages that are pushed as warnings. *)
Definition is_advisory (m : message) : bool :=
  match m with
  | HeadingCountChanged _ _ | HeadingChanged _ _ _ | LinkCountChanged _ _
  | UnmatchedParentheses | ContentShortened _ _ | ContentLengthened _ _ => true
  | _ => false
  end.

Definition advisory_only (v : validator) : Prop :=
  Forall (fun m => is_advisory m = true) (warnings v).

(** The front matter [validateFrontMatter] works on: [frontMatterMatch[1]]. *)
Definition frontMatterOf (content : str) : option str :=
  m ← search false frontMatter_re content; Some (default [] (group 1 m)).

Definition absent (frontMatter field : str) : bool :=
  negb (includes frontMatter (field ++ [58%N])).

End Stages.

(** ** The outcomes of a run

    Names for what [processArticle] computes on the way: the path it works
    on, the path of its backup, the validator's verdict on a candidate, and
    the requests of the loop over the closing paragraphs. *)

Module Outcomes.
Import Js Processor.

Definition absolutePathOf (e : env) (filePath : str) : str :=
  if isAbsolute e filePath then filePath else resolve e filePath.

Definition backupPathOf (e : env) (filePath : str) : str :=
  Validator.backupPathOf (absolutePathOf e filePath) (now e).

(** The verdict on a candidate.  The validator reads the one file and
    starts from a clean state, so a disk that holds the candidate alone, as
    [fs.writeFileSync] leaves it there, stands for any disk that holds
    it. *)
Definition verdict (absolutePath : str) (c : candidate)
    : Validator.validation * Validator.validator :=
  Validator.validateFile
    {[ absolutePath := toWellFormed (newFileContent c) ]} absolutePath
    (Some (originalContent c)) (Validator.Validator [] []).

Definition result_path (r : result) : str :=
  match r with
  | Processed filePath _ _ _ _ => filePath
  | Errored filePath _ _ => filePath
  end.

(** One request for each paragraph, two seconds apart. *)
Fixpoint paced (first : nat) (title platform : str) (paragraphs : list str)
    : list Rewriter.event :=
  match paragraphs with
  | [] => []
  | paragraph :: more =>
    Rewriter.Request first (Rewriter.ClosingPrompt paragraph title platform)
      :: match more with
         | [] => []
         | _ => Rewriter.Sleep 2000
                  :: paced (S first) title platform more
         end
  end.

(** The paths a batch works on: the i-th file is resolved by the i-th
    environment. *)
Fixpoint absolutePaths_from (envs : nat -> env) (i : nat)
    (articlePaths : list str) : list str :=
  match articlePaths with
  | [] => []
  | path :: more =>
    absolutePathOf (envs i) path :: absolutePaths_from envs (S i) more
  end.

End Outcomes.

(** ** The layout of a document

    The front matter read by hand: the text between the first line, which
    holds three dashes, and the next line that holds three dashes. *)

Module Layout.
Import Js.

(** The text before the first place at which [delim] reads a delimiter,
    and the text after that delimiter. *)
Fixpoint cut_at (delim : str -> option str) (s : str) : option (str * str) :=
  match delim s with
  | Some t => Some ([], t)
  | None =>
    match s with
    | [] => None
    | c :: s' =>
      match cut_at delim s' with
      | Some (a, t) => Some (c :: a, t)
      | None => None
      end
    end
  end.

(** An end of line: a line feed, with or without a carriage return before
    it.  The result is the text after it. *)
Definition line_end (s : str) : option str :=
  match s with
  | c :: t =>
    if (c =? LF)%N then Some t
    else if (c =? CR)%N then
      match t with
      | d :: u => if (d =? LF)%N then Some u else None
      | [] => None
      end
    else None
  | [] => None
  end.

Definition line_feed (s : str) : option str := Spec.strip_prefix [LF] s.

Definition dashes (s : str) : option str := Spec.strip_prefix (lit "---") s.

(** The line that closes the front matter, with the end of the line before
    it: for the validator line feeds only, for the processor either end of
    line. *)
Definition closing_lf (s : str) : option str :=
  t ← line_feed s; u ← dashes t; line_feed u.

Definition closing_line (s : str) : option str :=
  t ← line_end s; u ← dashes t; line_end u.

(** The front matter and the body. *)
Definition front_matter_lf (content : str) : option (str * str) :=
  t ← dashes content; t ← line_feed t; cut_at closing_lf t.

Definition front_matter (content : str) : option (str * str) :=
  t ← dashes content; t ← line_end t; cut_at closing_line t.

(** The two ends of line. *)
Definition is_eol (e : str) : Prop := e = [LF] \/ e = [CR; LF].

(** The file [processArticle] writes. *)
Definition assemble (frontMatter body : str) : str :=
  lit "---" ++ [LF] ++ frontMatter ++ [LF] ++ lit "---" ++ [LF] ++ body.

End Layout.

(** * Properties *)

(** ** The matcher on the shapes of pattern the scripts use *)

Section MatcherFacts.
Import Js Scan.
Context (ml : bool).

Lemma mstate_eta (st : mstate) : MState (prev st) (rest st) (caps st) = st.
Proof. destruct st; reflexivity. Qed.

Lemma run_Seq (r1 r2 : regex) (st : mstate) (k : cont) :
  run ml (Seq r1 r2) st k = run ml r1 st (fun st' => run ml r2 st' k).
Proof. reflexivity. Qed.

Lemma run_One (a : atom) (st : mstate) (k : cont) :
  run ml (One a) st k
  = match eat a 1 st with Some st' => k st' | None => None end.
Proof.
  cbn [run eat]. destruct (rest st) as [|x t]; [reflexivity|].
  destruct (atom_ok a x); reflexivity.
Qed.

Lemma run_Chr (c : char) (st : mstate) (k : cont) :
  run ml (Chr c) st k
  = match rest st with
    | x :: t => if (x =? c)%N then k (MState (Some x) t (caps st)) else None
    | [] => None
    end.
Proof. reflexivity. Qed.

Lemma run_Lit (l : str) : forall st k,
  run ml (Lit l) st k
  = match strip l st with Some st' => k st' | None => None end.
Proof.
  induction l as [|c l IH]; intros st k; [reflexivity|].
  cbn [Lit run Chr strip atom_ok].
  destruct (rest st) as [|x t]; [reflexivity|].
  destruct (x =? c)%N; [apply IH|reflexivity].
Qed.

Lemma rep_times (a : atom) (g : bool) (n : nat) : forall fuel st k,
  n < fuel ->
  rep (run ml (One a)) fuel n (Some n) g st k
  = match eat a n st with Some st' => k st' | None => None end.
Proof.
  induction n as [|n IH]; intros fuel st k Hfuel;
    destruct fuel as [|fuel]; try lia; [reflexivity|].
  cbn [rep Nat.eqb negb run eat andb pred option_map].
  destruct (rest st) as [|x t]; [reflexivity|].
  destruct (atom_ok a x); [|reflexivity].
  apply IH. lia.
Qed.

Lemma run_Times (a : atom) (n : nat) (st : mstate) (k : cont) :
  run ml (Times n (One a)) st k
  = match eat a n st with Some st' => k st' | None => None end.
Proof. unfold Times. cbn [run]. apply rep_times. lia. Qed.

Lemma rep_star (a : atom) (s : str) : forall fuel p cs k,
  length s < fuel ->
  rep (run ml (One a)) fuel 0 None true (MState p s cs) k
  = star_try a p s cs k.
Proof.
  induction s as [|x t IH]; intros fuel p cs k Hfuel;
    destruct fuel as [|fuel]; cbn [length] in Hfuel; try lia.
  - reflexivity.
  - cbn [rep Nat.eqb negb run rest caps star_try andb pred option_map length].
    destruct (atom_ok a x); [|reflexivity].
    replace (length t =? S (length t)) with false
      by (symmetry; apply Nat.eqb_neq; lia).
    rewrite IH by lia. reflexivity.
Qed.

Lemma run_Star (a : atom) (st : mstate) (k : cont) :
  run ml (Star (One a)) st k = star_try a (prev st) (rest st) (caps st) k.
Proof.
  unfold Star. cbn [run]. rewrite <- (mstate_eta st) at 2.
  apply rep_star. simpl. lia.
Qed.

Lemma rep_lazy (a : atom) (s : str) : forall fuel p cs k,
  length s < fuel ->
  rep (run ml (One a)) fuel 0 None false (MState p s cs) k
  = lazy_try a p s cs k.
Proof.
  induction s as [|x t IH]; intros fuel p cs k Hfuel;
    destruct fuel as [|fuel]; cbn [length] in Hfuel; try lia.
  - cbn [rep Nat.eqb negb run rest lazy_try].
    destruct (k _); reflexivity.
  - cbn [rep Nat.eqb negb run rest caps lazy_try andb pred option_map length].
    destruct (k _); [reflexivity|].
    destruct (atom_ok a x); [|reflexivity].
    replace (length t =? S (length t)) with false
      by (symmetry; apply Nat.eqb_neq; lia).
    apply IH. lia.
Qed.

Lemma run_LazyStar (a : atom) (st : mstate) (k : cont) :
  run ml (LazyStar (One a)) st k = lazy_try a (prev st) (rest st) (caps st) k.
Proof.
  unfold LazyStar. cbn [run]. rewrite <- (mstate_eta st) at 2.
  apply rep_lazy. simpl. lia.
Qed.



(** A greedy star whose continuation refuses every state that begins with
    a code unit of the class takes the whole run. *)
Lemma star_try_all (a : atom) (k : cont) (s : str) : forall p cs,
  (forall p' x t cs', atom_ok a x = true -> k (MState p' (x :: t) cs') = None) ->
  star_try a p s cs k = k (skip_all a p s cs).
Proof.
  intros p cs Hk. revert p.
  induction s as [|x t IH]; intros p; [reflexivity|].
  cbn [star_try skip_all]. destruct (atom_ok a x) eqn:Hx; [|reflexivity].
  rewrite IH. destruct (k (skip_all a (Some x) t cs)); [reflexivity|].
  apply Hk. exact Hx.
Qed.

(** What a star hands on: a state with the captures it was given. *)
Lemma star_try_Some (a : atom) (k : cont) (z : mstate) (s : str) :
  forall p cs,
    star_try a p s cs k = Some z ->
    exists p' s', k (MState p' s' cs) = Some z.
Proof.
  induction s as [|x t IH]; intros p cs H; cbn [star_try] in H; [eauto|].
  destruct (atom_ok a x); [|eauto].
  destruct (star_try a (Some x) t cs k) eqn:Hrec; [|eauto].
  injection H as ->. eapply IH. exact Hrec.
Qed.

Lemma strip_caps (l : str) : forall st st',
  strip l st = Some st' -> caps st' = caps st.
Proof.
  induction l as [|c l IH]; intros st st' H; cbn [strip] in H.
  - injection H as <-. reflexivity.
  - destruct (rest st) as [|x t]; [discriminate|].
    destruct (x =? c)%N; [|discriminate].
    apply IH in H. exact H.
Qed.

Lemma eat_caps (a : atom) (n : nat) : forall st st',
  eat a n st = Some st' -> caps st' = caps st.
Proof.
  induction n as [|n IH]; intros st st' H; cbn [eat] in H.
  - injection H as <-. reflexivity.
  - destruct (rest st) as [|x t]; [discriminate|].
    destruct (atom_ok a x); [|discriminate].
    apply IH in H. exact H.
Qed.

(** [eat] takes a prefix whose code units all satisfy the atom. *)
Lemma eat_rest (a : atom) (n : nat) : forall st st',
  eat a n st = Some st' ->
  exists w, rest st = w ++ rest st' /\ length w = n /\
            forallb (atom_ok a) w = true.
Proof.
  induction n as [|n IH]; intros st st' H; cbn [eat] in H.
  - injection H as <-. exists []. auto.
  - destruct (rest st) as [|x t] eqn:Hr; [discriminate|].
    destruct (atom_ok a x) eqn:Hx; [|discriminate].
    apply IH in H as (w & Hw & Hlen & Hall). cbn [rest] in Hw.
    exists (x :: w). rewrite Hw. cbn [forallb length]. rewrite Hx, Hall, Hlen.
    auto.
Qed.

Lemma eat_app (a : atom) (w : str) : forall p t cs,
  forallb (atom_ok a) w = true ->
  eat a (length w) (MState p (w ++ t) cs)
  = Some (MState (match last w with Some c => Some c | None => p end) t cs).
Proof.
  induction w as [|x w IH]; intros p t cs Hall; [reflexivity|].
  cbn [forallb] in Hall. apply andb_prop in Hall as [Hx Hall].
  cbn [length eat rest app caps]. rewrite Hx, IH by exact Hall.
  rewrite last_cons. destruct (last w); reflexivity.
Qed.

Lemma eat_app_n (a : atom) (w : str) (n : nat) p t cs :
  length w = n ->
  forallb (atom_ok a) w = true ->
  eat a n (MState p (w ++ t) cs)
  = Some (MState (match last w with Some c => Some c | None => p end) t cs).
Proof. intros <-. apply eat_app. Qed.

End MatcherFacts.

(** ** Sample runs of the matcher *)

Section MatcherExamples.
Import Js.

(** [/\{\{<\s*gist[\s\S]*?\>\}\}/g]: two gists, the second ended by the
    first closing token after it; an opening token without one is none. *)
Example gists_of_a_text :
  Validator.gists (lit "x {{< gist a >}} y {{<gist b>}}>}} {{< gist")
  = [lit "{{< gist a >}}"; lit "{{<gist b>}}"].
Proof. reflexivity. Qed.

(** [split(/\n\s*\n/)]: a separator runs to the last line feed of the white
    space; a single line feed separates nothing. *)
Example split_on_blank_lines :
  split false Processor.blank_re
    (lit "a" ++ [LF; LF; 32%N; LF] ++ lit "b" ++ [LF] ++ lit "c" ++ [LF; LF])
  = [lit "a"; lit "b" ++ [LF] ++ lit "c"; []].
Proof. reflexivity. Qed.

(** [replace] with a string pattern: the first occurrence, the dollar
    patterns of the replacement expanded. *)
Example replace_first_occurrence :
  replace_str (lit "hello world") (lit "o w") (lit "[$&|$$|$1|$'|$`]")
  = lit "hell[o w|$|$1|orld|hell]orld".
Proof. reflexivity. Qed.

End MatcherExamples.

(** ** Searching *)

Section SearchFacts.
Import Js Scan.
Context (ml : bool) (r : regex).

Lemma search_from_Some (s : str) : forall p i m,
  search_from ml r p s i = Some m ->
  exists j st',
    j <= length s /\
    exec_at ml r (prev_at p s j) (drop j s) = Some st' /\
    m = result_at (i + j) (drop j s) st' /\
    forall j', j' < j -> exec_at ml r (prev_at p s j') (drop j' s) = None.
Proof.
  induction s as [|c t IH]; intros p i m H; cbn [search_from] in H.
  - destruct (exec_at ml r p []) as [st'|] eqn:He; [|discriminate].
    injection H as <-. exists 0, st'. rewrite Nat.add_0_r.
    split; [reflexivity|]. split; [exact He|]. split; [reflexivity|].
    intros j' Hj'. lia.
  - destruct (exec_at ml r p (c :: t)) as [st'|] eqn:He.
    + injection H as <-. exists 0, st'. rewrite Nat.add_0_r.
      split; [simpl; lia|]. split; [exact He|]. split; [reflexivity|].
      intros j' Hj'. lia.
    + apply IH in H as (j & st' & Hj & Hex & Hm & Hmin).
      exists (S j), st'. cbn [drop length].
      replace (i + S j) with (S i + j) by lia.
      split; [lia|]. split; [destruct j; exact Hex|]. split; [exact Hm|].
      intros [|j'] Hj'; [exact He|].
      specialize (Hmin j' ltac:(lia)). destruct j'; exact Hmin.
Qed.

Lemma search_from_None (s : str) : forall p i,
  search_from ml r p s i = None ->
  forall j, j <= length s -> exec_at ml r (prev_at p s j) (drop j s) = None.
Proof.
  induction s as [|c t IH]; intros p i H j Hj; cbn [search_from] in H.
  - destruct (exec_at ml r p []) eqn:He; [discriminate|].
    simpl in Hj. replace j with 0 by lia. exact He.
  - destruct (exec_at ml r p (c :: t)) eqn:He; [discriminate|].
    destruct j as [|j]; [exact He|].
    specialize (IH _ _ H j ltac:(simpl in Hj; lia)). destruct j; exact IH.
Qed.

End SearchFacts.

(** ** The date check *)

Section DateCheck.
Import Js Scan Validator.

Lemma run_ymd ml st k :
  run ml ymd st k = match eat_ymd st with Some st' => k st' | None => None end.
Proof.
  change ymd with
    (Seq (Times 4 (One digit))
       (Seq (One dash)
          (Seq (Times 2 (One digit))
             (Seq (One dash) (Times 2 (One digit)))))).
  unfold eat_ymd. rewrite run_Seq, run_Times.
  destruct (eat digit 4 st) as [st1|]; [|reflexivity]. cbn [mbind option_bind].
  rewrite run_Seq, run_One.
  destruct (eat dash 1 st1) as [st2|]; [|reflexivity]. cbn [mbind option_bind].
  rewrite run_Seq, run_Times.
  destruct (eat digit 2 st2) as [st3|]; [|reflexivity]. cbn [mbind option_bind].
  rewrite run_Seq, run_One.
  destruct (eat dash 1 st3) as [st4|]; [|reflexivity]. cbn [mbind option_bind].
  apply run_Times.
Qed.

Lemma search_from_here ml r p s i st' :
  exec_at ml r p s = Some st' ->
  search_from ml r p s i = Some (result_at i s st').
Proof. intros H. destruct s; cbn [search_from]; rewrite H; reflexivity. Qed.

(** The text [eat_ymd] takes is a date of the strict form, whatever
    follows it. *)
Lemma eat_ymd_text st st' :
  eat_ymd st = Some st' ->
  caps st' = caps st /\
  exists w, rest st = w ++ rest st' /\
            forall p t cs, exists q, eat_ymd (MState p (w ++ t) cs)
                                     = Some (MState q t cs).
Proof.
  unfold eat_ymd. intros H.
  destruct (eat digit 4 st) as [st1|] eqn:H1; [|discriminate].
  cbn [mbind option_bind] in H.
  destruct (eat dash 1 st1) as [st2|] eqn:H2; [|discriminate].
  cbn [mbind option_bind] in H.
  destruct (eat digit 2 st2) as [st3|] eqn:H3; [|discriminate].
  cbn [mbind option_bind] in H.
  destruct (eat dash 1 st3) as [st4|] eqn:H4; [|discriminate].
  cbn [mbind option_bind] in H. rename H into H5.
  split.
  { rewrite (eat_caps _ _ _ _ H5), (eat_caps _ _ _ _ H4),
      (eat_caps _ _ _ _ H3), (eat_caps _ _ _ _ H2). eapply eat_caps; eauto. }
  apply eat_rest in H1 as (w1 & E1 & L1 & A1).
  apply eat_rest in H2 as (w2 & E2 & L2 & A2).
  apply eat_rest in H3 as (w3 & E3 & L3 & A3).
  apply eat_rest in H4 as (w4 & E4 & L4 & A4).
  apply eat_rest in H5 as (w5 & E5 & L5 & A5).
  exists (w1 ++ w2 ++ w3 ++ w4 ++ w5). split.
  { rewrite E1, E2, E3, E4, E5, <- !app_assoc. reflexivity. }
  intros p t cs. rewrite <- !app_assoc. eexists.
  rewrite (eat_app_n _ _ _ _ _ _ L1 A1). cbn [mbind option_bind].
  rewrite (eat_app_n _ _ _ _ _ _ L2 A2). cbn [mbind option_bind].
  rewrite (eat_app_n _ _ _ _ _ _ L3 A3). cbn [mbind option_bind].
  rewrite (eat_app_n _ _ _ _ _ _ L4 A4). cbn [mbind option_bind].
  rewrite (eat_app_n _ _ _ _ _ _ L5 A5). reflexivity.
Qed.

Lemma strictDate_accepts w :
  (exists q, eat_ymd (MState None (w ++ []) []) = Some (MState q [] [])) ->
  test false strictDate_re w = true.
Proof.
  intros [q Hq]. rewrite app_nil_r in Hq. unfold test, search.
  erewrite search_from_here; [reflexivity|].
  unfold exec_at, strictDate_re. rewrite run_Seq. cbn [run at_bol prev].
  rewrite run_ymd, Hq. reflexivity.
Qed.

(** Whatever [dateField_re] captures passes the strict test. *)
Lemma dateField_capture field p s z :
  exec_at false (dateField_re field) p s = Some z ->
  exists dateStr,
    caps z = [(1, dateStr)] /\ test false strictDate_re dateStr = true.
Proof.
  unfold exec_at, dateField_re. rewrite run_Seq, run_Lit.
  destruct (strip _ _) as [st1|] eqn:H1; [|discriminate].
  apply strip_caps in H1. cbn [caps] in H1.
  rewrite run_Seq. unfold Space. rewrite run_Star, H1. intros H.
  apply star_try_Some in H as (p' & s' & H).
  cbn [run] in H. rewrite run_ymd in H.
  destruct (eat_ymd _) as [st3|] eqn:H3; [|discriminate].
  injection H as <-. cbn [caps].
  apply eat_ymd_text in H3 as (Hc & w & Hw & Hall). cbn [caps rest] in Hc, Hw.
  exists w. split.
  - rewrite Hc. unfold consumed. cbn [rest]. rewrite Hw, length_app.
    replace (length w + length (rest st3) - length (rest st3)) with (length w)
      by lia.
    rewrite take_app_length. reflexivity.
  - apply strictDate_accepts. apply Hall.
Qed.

(** The date loop never pushes anything: the pattern that finds the value
    captures only text of the strict form, and a value of another form is
    not found at all. *)
Lemma checkDates_inert frontMatter v : checkDates frontMatter v = v.
Proof.
  unfold checkDates.
  assert (forall fields v,
            foldl (fun v field =>
                     match search false (dateField_re field) frontMatter with
                     | Some m =>
                       let dateStr := default [] (group 1 m) in
                       if negb (test false strictDate_re dateStr)
                       then push_error (InvalidDateFormat field dateStr) v
                       else v
                     | None => v
                     end) v fields = v) as H; [|apply H].
  induction fields as [|f fields IH]; intros v0; [reflexivity|].
  cbn [foldl].
  destruct (search false (dateField_re f) frontMatter) as [m|] eqn:Hs;
    [|apply IH].
  apply search_from_Some in Hs as (j & st' & _ & Hex & -> & _).
  apply dateField_capture in Hex as (d & Hcaps & Hok).
  cbv zeta. unfold group, result_at. cbn [groups]. rewrite Hcaps.
  cbn [List.find fst snd Nat.eqb fmap option_fmap option_map default].
  unfold id. rewrite Hok. apply IH.
Qed.

End DateCheck.

(** ** The rewrite client *)

Section RewriterFacts.
Import Js Rewriter.

(** C9: with [maxRetries] below 1, [callLLM] sends no request, waits for
    nothing, raises no error and returns [undefined]: the rejection after
    the last attempt is not reached. *)
Theorem callLLM_no_attempt_below_one (svc : service) (p : prompt)
    (maxRetries : Z) (c : client) :
  (maxRetries < 1)%Z ->
  callLLM svc p maxRetries c = (Resolved None, c).
Proof.
  intros Hlt. unfold callLLM.
  destruct (Z.to_nat maxRetries) as [|fuel] eqn:Hfuel; simpl.
  - reflexivity.
  - destruct (Z.leb_spec 1 maxRetries) as [Hle|_]; [lia|reflexivity].
Qed.

Lemma callLLM_no_attempt_below_one_witness :
  callLLM (fun _ _ => Failed (lit "down")) (OpeningPrompt [] [] []) 0
          (Client 0 [])
  = (Resolved None, Client 0 []).
Proof.
  apply (callLLM_no_attempt_below_one
           (fun _ _ => Failed (lit "down")) (OpeningPrompt [] [] []) 0
           (Client 0 [])).
  lia.
Defined.

Local Arguments timer : simpl never.

(** The timer of attempt [k]: [2^k] seconds up to attempt 21, one
    millisecond from attempt 22 on. *)
Lemma timer_backoff (k : Z) :
  (1 <= k)%Z ->
  timer (2 ^ k * 1000)
  = (if (2 ^ k * 1000 <=? 2147483647)%Z then 2 ^ k * 1000 else 1)%Z.
Proof.
  intros Hk. unfold timer, TIMEOUT_MAX.
  assert (2 ^ 1 <= 2 ^ k)%Z as Hpow by (apply Z.pow_le_mono_r; lia).
  change (2 ^ 1)%Z with 2%Z in Hpow.
  replace (1 <=? 2 ^ k * 1000)%Z with true
    by (symmetry; apply Z.leb_le; lia).
  reflexivity.
Qed.

Lemma backoff_in_range (k : Z) :
  (1 <= k <= 21)%Z -> (2 ^ k * 1000 <=? 2147483647)%Z = true.
Proof.
  intros Hk. apply Z.leb_le.
  assert (2 ^ k <= 2 ^ 21)%Z as Hpow by (apply Z.pow_le_mono_r; lia).
  change (2 ^ 21)%Z with 2097152%Z in Hpow. lia.
Qed.

(** The loop against a service that fails every time: [left] attempts from
    [attempt] on, the last of them being attempt [maxRetries]. *)
Lemma callLLM_from_always_fails (svc : service) (p : prompt) (left : nat) :
  forall (attempt maxRetries : Z) (c : client),
    (forall i, exists m, svc i p = Failed m) ->
    (maxRetries = attempt + Z.of_nat left)%Z ->
    exists m,
      svc (requests c + left) p = Failed m /\
      callLLM_from svc p (S left) attempt maxRetries c
      = (Rejected (ApiFailed maxRetries m),
         Client (requests c + S left)
                (trace c ++ retry_trace p (requests c) attempt left)).
Proof.
  induction left as [|left IH]; intros attempt maxRetries c Hfail Hmax.
  - destruct (Hfail (requests c)) as [m Hm]. exists m.
    rewrite Nat.add_0_r. split; [exact Hm|].
    simpl. rewrite Hm.
    replace (attempt <=? maxRetries)%Z with true by (symmetry; apply Z.leb_le; lia).
    replace (attempt =? maxRetries)%Z with true by (symmetry; apply Z.eqb_eq; lia).
    do 2 f_equal. lia.
  - destruct (Hfail (requests c)) as [m0 Hm0].
    assert (maxRetries = attempt + 1 + Z.of_nat left)%Z as Hmax' by lia.
    destruct (IH (attempt + 1)%Z maxRetries
                 (sleep (2 ^ attempt * 1000)
                        (Client (S (requests c))
                                (trace c ++ [Request (requests c) p])))
                 Hfail Hmax') as [m [Hm Hrun]].
    exists m. simpl requests in Hm, Hrun.
    replace (requests c + S left) with (S (requests c) + left) by lia.
    split; [exact Hm|].
    change (callLLM_from svc p (S (S left)) attempt maxRetries c)
      with (if (attempt <=? maxRetries)%Z then
              let (o, c') := fetch svc p c in
              match o with
              | Returned content => (Resolved content, c')
              | Failed message =>
                if (attempt =? maxRetries)%Z
                then (Rejected (ApiFailed maxRetries message), c')
                else callLLM_from svc p (S left) (attempt + 1) maxRetries
                       (sleep (2 ^ attempt * 1000) c')
              end
            else (Resolved None, c)).
    replace (attempt <=? maxRetries)%Z with true by (symmetry; apply Z.leb_le; lia).
    unfold fetch. rewrite Hm0.
    replace (attempt =? maxRetries)%Z with false by (symmetry; apply Z.eqb_neq; lia).
    rewrite Hrun. simpl. f_equal. f_equal; [lia|].
    rewrite <- !app_assoc. reflexivity.
Qed.

Lemma attempts_retry_trace (p : prompt) (left : nat) :
  forall first attempt, attempts (retry_trace p first attempt left) = S left.
Proof.
  induction left as [|left IH]; intros first attempt; simpl; [reflexivity|].
  rewrite IH. reflexivity.
Qed.

Lemma waits_retry_trace (p : prompt) (left : nat) :
  forall first attempt,
    waits (retry_trace p first attempt left)
    = (fun k => timer (2 ^ k * 1000)) <$> seqZ attempt (Z.of_nat left).
Proof.
  induction left as [|left IH]; intros first attempt.
  - reflexivity.
  - rewrite Nat2Z.inj_succ, seqZ_cons by lia. simpl.
    rewrite IH. do 3 f_equal. lia.
Qed.

Lemma last_retry_trace (p : prompt) (left : nat) :
  forall first attempt,
    last (retry_trace p first attempt left) = Some (Request (first + left) p).
Proof.
  induction left as [|left IH]; intros first attempt.
  - simpl. rewrite Nat.add_0_r. reflexivity.
  - change (retry_trace p first attempt (S left))
      with ([Request first p; Sleep (timer (2 ^ attempt * 1000))]
            ++ retry_trace p (S first) (attempt + 1) left).
    rewrite last_app, IH. simpl. do 2 f_equal. lia.
Qed.

(** The trace of the retries, place by place: requests at the even places,
    timers at the odd ones. *)
Lemma retry_trace_places (p : prompt) (left : nat) :
  forall first attempt,
    length (retry_trace p first attempt left) = 2 * left + 1 /\
    (forall k, k <= left ->
       retry_trace p first attempt left !! (2 * k)
       = Some (Request (first + k) p)) /\
    (forall k, k < left ->
       retry_trace p first attempt left !! (2 * k + 1)
       = Some (Sleep (timer (2 ^ (attempt + Z.of_nat k) * 1000)))).
Proof.
  induction left as [|left IH]; intros first attempt.
  - split; [reflexivity|]. split.
    + intros k Hk. replace k with 0 by lia. cbn. rewrite Nat.add_0_r.
      reflexivity.
    + intros k Hk. lia.
  - destruct (IH (S first) (attempt + 1)%Z) as (Hlen & Hreq & Hsleep).
    cbn [retry_trace]. split; [cbn [length]; rewrite Hlen; lia|]. split.
    + intros [|k] Hk.
      * cbn. rewrite Nat.add_0_r. reflexivity.
      * replace (2 * S k) with (S (S (2 * k))) by lia. cbn [lookup list_lookup].
        rewrite Hreq by lia. do 2 f_equal. lia.
    + intros [|k] Hk.
      * cbn. rewrite Z.add_0_r. reflexivity.
      * replace (2 * S k + 1) with (S (S (2 * k + 1))) by lia.
        cbn [lookup list_lookup]. rewrite Hsleep by lia.
        replace (attempt + Z.of_nat (S k))%Z
          with (attempt + 1 + Z.of_nat k)%Z by lia.
        reflexivity.
Qed.

(** C5, on the code as it is.  Against a service that fails every time,
    [callLLM] with [maxRetries >= 1] sends exactly [maxRetries] requests
    and is then rejected with the error that carries [maxRetries] and the
    message of the last attempt.  What it adds to the trace is, place by
    place, a request, a timer, a request, and so on, ending with a request:
    after every failed attempt but the last comes one timer, and nothing
    else.  The timer after attempt [k] runs for [2^k] seconds as long as
    [2^k * 1000] milliseconds is at most [2^31 - 1], that is up to attempt
    21, and for one millisecond after every later attempt, the delay handed
    to [setTimeout] being out of its range; so for [maxRetries <= 22] every
    backoff delay is [2^attempt] seconds.  With [maxRetries = 23] there are
    23 requests and 22 timers; the timer after attempt 21 runs for [2^21]
    seconds, the one after attempt 22 for one millisecond and not for
    [2^22] seconds. *)
Theorem callLLM_exhausts_retries :
  (forall (svc : service) (p : prompt) (maxRetries : Z) (c : client),
     (1 <= maxRetries)%Z ->
     (forall i, exists m, svc i p = Failed m) ->
     exists (m : str) (t : list event),
       svc (requests c + Z.to_nat maxRetries - 1) p = Failed m /\
       callLLM svc p maxRetries c
       = (Rejected (ApiFailed maxRetries m),
          Client (requests c + Z.to_nat maxRetries) (trace c ++ t)) /\
       length t = 2 * Z.to_nat maxRetries - 1 /\
       (forall k, k < Z.to_nat maxRetries ->
          t !! (2 * k) = Some (Request (requests c + k) p)) /\
       (forall k, S k < Z.to_nat maxRetries ->
          t !! (2 * k + 1)
          = Some (Sleep (if (2 ^ Z.of_nat (S k) * 1000 <=? 2147483647)%Z
                         then 2 ^ Z.of_nat (S k) * 1000 else 1)%Z)) /\
       ((maxRetries <= 22)%Z ->
        forall k, S k < Z.to_nat maxRetries ->
          t !! (2 * k + 1) = Some (Sleep (2 ^ Z.of_nat (S k) * 1000)%Z)) /\
       attempts t = Z.to_nat maxRetries) /\
  (let run := callLLM (fun _ _ => Failed (lit "down"))
                (OpeningPrompt [] [] []) 23 (Client 0 []) in
   run.1 = Rejected (ApiFailed 23 (lit "down")) /\
   attempts (trace run.2) = 23 /\
   length (waits (trace run.2)) = 22 /\
   trace run.2 !! 41 = Some (Sleep (2 ^ 21 * 1000)%Z) /\
   trace run.2 !! 42 = Some (Request 21 (OpeningPrompt [] [] [])) /\
   trace run.2 !! 43 = Some (Sleep 1%Z) /\
   trace run.2 !! 44 = Some (Request 22 (OpeningPrompt [] [] [])) /\
   (2 ^ 22 * 1000 = 4194304000)%Z /\
   (TIMEOUT_MAX = 2 ^ 31 - 1)%Z /\
   (TIMEOUT_MAX <? 2 ^ 22 * 1000)%Z = true).
Proof.
  split; [|vm_compute; repeat split; reflexivity].
  intros svc p maxRetries c Hpos Hfail. unfold callLLM.
  destruct (Z.to_nat maxRetries) as [|left] eqn:Hn; [lia|].
  assert (maxRetries = 1 + Z.of_nat left)%Z as Hmax by lia.
  destruct (callLLM_from_always_fails svc p left 1 maxRetries c Hfail Hmax)
    as [m [Hm Hrun]].
  destruct (retry_trace_places p left (requests c) 1)
    as (Hlen & Hreq & Hsleep).
  assert (forall k, S k < S left ->
            retry_trace p (requests c) 1 left !! (2 * k + 1)
            = Some (Sleep (if (2 ^ Z.of_nat (S k) * 1000 <=? 2147483647)%Z
                           then 2 ^ Z.of_nat (S k) * 1000 else 1)%Z))
    as Htimer.
  { intros k Hk. rewrite Hsleep by lia.
    replace (1 + Z.of_nat k)%Z with (Z.of_nat (S k)) by lia.
    rewrite timer_backoff by lia. reflexivity. }
  exists m, (retry_trace p (requests c) 1 left).
  replace (requests c + S left - 1) with (requests c + left) by lia.
  split; [exact Hm|]. split; [exact Hrun|]. split; [rewrite Hlen; lia|].
  split; [intros k Hk; apply Hreq; lia|]. split; [exact Htimer|].
  split; [|apply attempts_retry_trace].
  intros Hsmall k Hk. rewrite Htimer by exact Hk.
  rewrite backoff_in_range by lia. reflexivity.
Qed.

(** Three attempts against a service that is down: the timers run for two
    and for four seconds. *)
Lemma callLLM_exhausts_retries_witness :
  exists (m : str) (t : list event),
    (fun _ _ => Failed (lit "down")) (0 + Z.to_nat 3 - 1)
      (OpeningPrompt [] [] []) = Failed m /\
    callLLM (fun _ _ => Failed (lit "down")) (OpeningPrompt [] [] []) 3
            (Client 0 [])
    = (Rejected (ApiFailed 3 m), Client (0 + Z.to_nat 3) ([] ++ t)) /\
    length t = 2 * Z.to_nat 3 - 1 /\
    (forall k, k < Z.to_nat 3 ->
       t !! (2 * k) = Some (Request (0 + k) (OpeningPrompt [] [] []))) /\
    (forall k, S k < Z.to_nat 3 ->
       t !! (2 * k + 1)
       = Some (Sleep (if (2 ^ Z.of_nat (S k) * 1000 <=? 2147483647)%Z
                      then 2 ^ Z.of_nat (S k) * 1000 else 1)%Z)) /\
    ((3 <= 22)%Z ->
     forall k, S k < Z.to_nat 3 ->
       t !! (2 * k + 1) = Some (Sleep (2 ^ Z.of_nat (S k) * 1000)%Z)) /\
    attempts t = Z.to_nat 3.
Proof.
  apply (proj1 callLLM_exhausts_retries
           (fun _ _ => Failed (lit "down")) (OpeningPrompt [] [] []) 3%Z
           (Client 0 [])).
  - lia.
  - intros i. eexists. reflexivity.
Defined.

End RewriterFacts.

(** ** The validator *)

Section ValidatorFacts.
Import Js Validator Stages.

Lemma grows_refl v : grows v v.
Proof. exists []. symmetry. apply app_nil_r. Qed.

Lemma grows_trans v1 v2 v3 : grows v1 v2 -> grows v2 v3 -> grows v1 v3.
Proof.
  intros [l1 H1] [l2 H2]. exists (l1 ++ l2).
  rewrite H2, H1. symmetry. apply app_assoc.
Qed.

Lemma grows_push_error m v : grows v (push_error m v).
Proof. exists [m]. reflexivity. Qed.

Lemma grows_push_warning m v : grows v (push_warning m v).
Proof. exists []. simpl. symmetry. apply app_nil_r. Qed.

Lemma grows_no_errors v v' : grows v v' -> no_errors v' = true -> errors v = [].
Proof.
  intros [l Hl]. unfold no_errors. rewrite Hl.
  destruct (errors v); [reflexivity|discriminate].
Qed.

Lemma grows_elem v v' m : grows v v' -> m ∈ errors v -> m ∈ errors v'.
Proof. intros [l Hl] Hm. rewrite Hl. apply elem_of_app. left. exact Hm. Qed.

Lemma no_errors_false_of_elem v m : m ∈ errors v -> no_errors v = false.
Proof.
  unfold no_errors. destruct (errors v); [|reflexivity].
  intros H. inversion H.
Qed.

Lemma grows_foldl {A} (f : validator -> A -> validator) (l : list A) :
  (forall v a, grows v (f v a)) -> forall v, grows v (foldl f v l).
Proof.
  intros Hf. induction l as [|a l IH]; intros v; simpl.
  - apply grows_refl.
  - eapply grows_trans; [apply Hf|apply IH].
Qed.

Lemma grows_checkRequired fm v : grows v (checkRequired fm v).
Proof.
  apply grows_foldl. intros v' field.
  destruct (negb _); [apply grows_push_error|apply grows_refl].
Qed.

Lemma grows_checkDates fm v : grows v (checkDates fm v).
Proof.
  apply grows_foldl. intros v' field.
  destruct (search _ _ _); [|apply grows_refl]. cbv zeta.
  destruct (negb _); [apply grows_push_error|apply grows_refl].
Qed.

Lemma grows_validateFrontMatter content v :
  grows v (validateFrontMatter content v).2.
Proof.
  unfold validateFrontMatter. destruct (search _ _ _); simpl.
  - eapply grows_trans; [apply grows_checkRequired|apply grows_checkDates].
  - apply grows_push_error.
Qed.

Lemma grows_validateMarkdownStructure content v :
  grows v (validateMarkdownStructure content v).2.
Proof.
  unfold validateMarkdownStructure. simpl.
  match goal with |- grows _ (Validator (errors ?w ++ ?l) _) =>
    exists l; simpl; destruct (1 <? _); reflexivity end.
Qed.

Lemma grows_compareGists orig : forall new i v,
  grows v (compareGists i orig new v).
Proof.
  induction orig as [|o orig IH]; intros [|n new] i v; simpl;
    try apply grows_refl.
  eapply grows_trans; [|apply IH].
  destruct (negb _); [apply grows_push_error|apply grows_refl].
Qed.

Lemma grows_validateGistPreservation original content v :
  grows v (validateGistPreservation original content v).2.
Proof.
  unfold validateGistPreservation. destruct (negb _); simpl.
  - apply grows_push_error.
  - apply grows_compareGists.
Qed.

Lemma errors_compareHeadings orig : forall new i v,
  errors (compareHeadings i orig new v) = errors v.
Proof.
  induction orig as [|o orig IH]; intros [|n new] i v; simpl; try reflexivity.
  rewrite IH. destruct (negb _); reflexivity.
Qed.

Lemma grows_validateHeadingsPreservation original content v :
  grows v (validateHeadingsPreservation original content v).2.
Proof.
  unfold validateHeadingsPreservation. simpl. exists [].
  rewrite errors_compareHeadings, app_nil_r.
  destruct (negb _); reflexivity.
Qed.

Lemma grows_validateLinksPreservation original content v :
  grows v (validateLinksPreservation original content v).2.
Proof.
  unfold validateLinksPreservation. simpl.
  eapply grows_trans.
  2: { destruct (negb (length (match_g false internalLink_re original) =? _));
       [apply grows_push_error|apply grows_refl]. }
  destruct (negb _); [apply grows_push_warning|apply grows_refl].
Qed.

Lemma grows_validateContentLength original content v :
  grows v (validateContentLength original content v).2.
Proof.
  unfold validateContentLength. simpl.
  destruct (_ <? _); [apply grows_push_warning|].
  destruct (_ <? _); [apply grows_push_warning|apply grows_refl].
Qed.

Lemma validateFile_compared d path original content v :
  d !! path = Some content -> original <> [] ->
  validateFile d path (Some original) v
  = (Validation (no_errors (afterAll original content))
                (errors (afterAll original content))
                (warnings (afterAll original content)),
     afterAll original content).
Proof.
  intros Hread Hne. unfold validateFile, Fs.readFileSync. rewrite Hread.
  destruct original as [|c t]; [contradiction|]. reflexivity.
Qed.

Lemma validateFile_alone d path original content v :
  d !! path = Some content -> truthy original = false ->
  validateFile d path original v
  = (Validation (no_errors (afterStructure content))
                (errors (afterStructure content))
                (warnings (afterStructure content)),
     afterStructure content).
Proof.
  intros Hread Hno. unfold validateFile, Fs.readFileSync.
  rewrite Hread, Hno. reflexivity.
Qed.

Lemma grows_afterGists_afterAll original content :
  grows (afterGists original content) (afterAll original content).
Proof.
  unfold afterAll.
  eapply grows_trans; [apply grows_validateHeadingsPreservation|].
  eapply grows_trans; [apply grows_validateLinksPreservation|].
  apply grows_validateContentLength.
Qed.

(** What the comparison loop adds. *)
Lemma compareGists_clean orig : forall new i v,
  length orig = length new ->
  errors (compareGists i orig new v) = [] -> orig = new.
Proof.
  induction orig as [|o orig IH]; intros [|n new] i v Hlen Herr;
    simpl in *; try discriminate; [reflexivity|].
  injection Hlen as Hlen.
  destruct (str_eqb o n) eqn:Heq; simpl in Herr.
  - apply bool_decide_eq_true in Heq. subst n. f_equal. eapply IH; eauto.
  - pose proof (grows_compareGists orig new (S i) (push_error (GistModified i o n) v))
      as [l Hl].
    rewrite Herr in Hl. simpl in Hl.
    destruct (errors v); discriminate.
Qed.

Lemma compareGists_reports orig : forall new i v j o n,
  orig !! j = Some o -> new !! j = Some n -> o <> n ->
  GistModified (i + j) o n ∈ errors (compareGists i orig new v).
Proof.
  induction orig as [|o' orig IH]; intros [|n' new] i v j o n Ho Hn Hne;
    try discriminate.
  destruct j as [|j]; simpl in *.
  - injection Ho as ->. injection Hn as ->.
    replace (str_eqb o n) with false
      by (symmetry; apply bool_decide_eq_false; exact Hne).
    simpl. eapply grows_elem; [apply grows_compareGists|].
    simpl. rewrite Nat.add_0_r. apply elem_of_app. right. constructor.
  - replace (i + S j) with (S i + j) by lia. eapply IH; eauto.
Qed.

Lemma errors_afterGists original content :
  errors (afterGists original content)
  = if length (gists original) =? length (gists content)
    then errors (compareGists 0 (gists original) (gists content)
                   (afterStructure content))
    else errors (afterStructure content)
         ++ [GistCountMismatch (length (gists original))
                               (length (gists content))].
Proof.
  unfold afterGists, validateGistPreservation.
  destruct (length (gists original) =? length (gists content)); reflexivity.
Qed.

End ValidatorFacts.

Section GistPreservation.
Import Js Validator Stages.
Local Arguments afterStructure : simpl never.
Local Arguments afterGists : simpl never.
Local Arguments afterAll : simpl never.
Local Arguments gists : simpl never.

(** C1: for an original document, a candidate that [validateFile] accepts
    has the same gist shortcodes, in the same order and letter for letter,
    as the original; a different number of gists is reported as a fatal
    count mismatch, and with equal numbers every position whose gist
    differs is reported as a fatal modification.  A document is not the
    empty text: what [processArticle] hands to the validator as the
    original has been parsed and is never empty
    ([prepare_original_nonempty]). *)
Theorem validateFile_preserves_gists (d : Fs.disk)
    (path original candidate : str) (v : validator) :
  d !! path = Some candidate ->
  original <> [] ->
  let r := (validateFile d path (Some original) v).1 in
  (valid r = true -> gists candidate = gists original) /\
  (length (gists original) <> length (gists candidate) ->
   valid r = false /\
   GistCountMismatch (length (gists original)) (length (gists candidate))
     ∈ v_errors r) /\
  (length (gists original) = length (gists candidate) ->
   forall i o n,
     gists original !! i = Some o -> gists candidate !! i = Some n ->
     o <> n ->
     valid r = false /\ GistModified i o n ∈ v_errors r).
Proof.
  intros Hread Hne. rewrite (validateFile_compared _ _ _ _ _ Hread Hne).
  simpl. pose proof (grows_afterGists_afterAll original candidate) as Hg.
  split; [|split].
  - intros Hvalid. pose proof (grows_no_errors _ _ Hg Hvalid) as Hclean.
    rewrite errors_afterGists in Hclean.
    destruct (Nat.eqb_spec (length (gists original)) (length (gists candidate)))
      as [Hlen|Hlen].
    + symmetry. eapply compareGists_clean; eauto.
    + destruct (errors (afterStructure candidate)); discriminate.
  - intros Hlen.
    assert (GistCountMismatch (length (gists original))
              (length (gists candidate))
            ∈ errors (afterAll original candidate)) as Hin.
    { eapply grows_elem; [exact Hg|]. rewrite errors_afterGists.
      destruct (Nat.eqb_spec (length (gists original))
                  (length (gists candidate))); [contradiction|].
      apply elem_of_app. right. constructor. }
    split; [eapply no_errors_false_of_elem; exact Hin|exact Hin].
  - intros Hlen i o n Ho Hn Hdiff.
    assert (GistModified i o n ∈ errors (afterAll original candidate)) as Hin.
    { eapply grows_elem; [exact Hg|]. rewrite errors_afterGists.
      destruct (Nat.eqb_spec (length (gists original))
                  (length (gists candidate))); [|contradiction].
      apply (compareGists_reports _ _ 0 _ i o n Ho Hn Hdiff). }
    split; [eapply no_errors_false_of_elem; exact Hin|exact Hin].
Qed.

(** Two candidates for the sample article, neither equal to it: the one
    made of the answers of the service [polite] keeps the gist and is
    accepted; the one made of the answers of [echoGist], which are gists
    themselves, has more gists than the article and is rejected. *)
Lemma validateFile_preserves_gists_witness :
  (toWellFormed (Processor.newFileContent Examples.politeCandidate)
   <> Examples.article /\
   valid (validateFile
            {[ Examples.path :=
                 toWellFormed
                   (Processor.newFileContent Examples.politeCandidate) ]}
            Examples.path (Some Examples.article) (Validator [] [])).1
   = true /\
   gists (toWellFormed (Processor.newFileContent Examples.politeCandidate))
   = gists Examples.article) /\
  (length (gists Examples.article) = 1 /\
   length
     (gists
        (toWellFormed (Processor.newFileContent Examples.echoGistCandidate)))
   = 4 /\
   valid (validateFile
            {[ Examples.path :=
                 toWellFormed
                   (Processor.newFileContent Examples.echoGistCandidate) ]}
            Examples.path (Some Examples.article) (Validator [] [])).1
   = false /\
   GistCountMismatch 1 4
     ∈ v_errors
         (validateFile
            {[ Examples.path :=
                 toWellFormed
                   (Processor.newFileContent Examples.echoGistCandidate) ]}
            Examples.path (Some Examples.article) (Validator [] [])).1).
Proof.
  assert (Examples.article <> []) as Hne by (vm_compute; discriminate).
  split.
  - split; [vm_compute; discriminate|]. split; [vm_compute; reflexivity|].
    apply (proj1 (validateFile_preserves_gists
                    {[ Examples.path :=
                         toWellFormed
                           (Processor.newFileContent
                              Examples.politeCandidate) ]}
                    Examples.path Examples.article
                    (toWellFormed
                       (Processor.newFileContent Examples.politeCandidate))
                    (Validator [] []) (lookup_singleton_eq _ _) Hne)).
    vm_compute. reflexivity.
  - split; [vm_compute; reflexivity|]. split; [vm_compute; reflexivity|].
    apply (proj1 (proj2 (validateFile_preserves_gists
                           {[ Examples.path :=
                                toWellFormed
                                  (Processor.newFileContent
                                     Examples.echoGistCandidate) ]}
                           Examples.path Examples.article
                           (toWellFormed
                              (Processor.newFileContent
                                 Examples.echoGistCandidate))
                           (Validator [] []) (lookup_singleton_eq _ _)
                           Hne))).
    vm_compute. discriminate.
Defined.

End GistPreservation.

Section MarkdownStructure.
Import Js Validator Stages.
Local Arguments afterStructure : simpl never.

(** Matching a single character counts its occurrences. *)
Lemma match_all_chr (c : char) (s : str) : forall p i,
  length (match_all_from false (Chr c) p s i 0) = Spec.count_char c s.
Proof.
  induction s as [|x t IH]; intros p i; [reflexivity|].
  cbn [match_all_from exec_at run Chr rest atom_ok Spec.count_char].
  destruct (x =? c)%N.
  - cbn [result_at matched rest length].
    replace (S (length t) - length t) with 1 by lia.
    cbn [take length pred]. cbn [length]. f_equal. apply IH.
  - apply IH.
Qed.

Lemma match_g_chr (c : char) (s : str) :
  length (match_g false (Chr c) s) = Spec.count_char c s.
Proof. unfold match_g, match_all. rewrite length_fmap. apply match_all_chr. Qed.

Lemma advisory_push_warning m v :
  is_advisory m = true -> advisory_only v -> advisory_only (push_warning m v).
Proof.
  intros Hm Hv. unfold advisory_only. simpl. apply Forall_app. split; [exact Hv|].
  constructor; [exact Hm|constructor].
Qed.

Lemma advisory_push_error m v : advisory_only v -> advisory_only (push_error m v).
Proof. intros Hv. exact Hv. Qed.

Lemma warnings_foldl_errors {A} (f : validator -> A -> validator) (l : list A) :
  (forall v a, warnings (f v a) = warnings v) ->
  forall v, warnings (foldl f v l) = warnings v.
Proof.
  intros Hf. induction l as [|a l IH]; intros v; simpl; [reflexivity|].
  rewrite IH. apply Hf.
Qed.

Lemma warnings_validateFrontMatter content v :
  warnings (validateFrontMatter content v).2 = warnings v.
Proof.
  unfold validateFrontMatter. destruct (search _ _ _); [|reflexivity].
  cbn [snd]. unfold checkDates, checkRequired.
  rewrite !warnings_foldl_errors; [reflexivity| |].
  - intros v' a. destruct (negb _); reflexivity.
  - intros v' a. destruct (search _ _ _); [|reflexivity]. cbv zeta.
    destruct (negb _); reflexivity.
Qed.

Lemma advisory_afterStructure content : advisory_only (afterStructure content).
Proof.
  unfold afterStructure, validateMarkdownStructure. cbn [snd].
  unfold advisory_only. cbn [warnings].
  destruct (1 <? _).
  - apply advisory_push_warning; [reflexivity|].
    unfold advisory_only. rewrite warnings_validateFrontMatter. constructor.
  - rewrite warnings_validateFrontMatter. constructor.
Qed.

Lemma advisory_compareGists orig : forall new i v,
  advisory_only v -> advisory_only (compareGists i orig new v).
Proof.
  induction orig as [|o orig IH]; intros [|n new] i v Hv; simpl; auto.
  apply IH. destruct (negb _); auto.
Qed.

Lemma advisory_compareHeadings orig : forall new i v,
  advisory_only v -> advisory_only (compareHeadings i orig new v).
Proof.
  induction orig as [|o orig IH]; intros [|n new] i v Hv; simpl; auto.
  apply IH. destruct (negb _); auto.
  apply advisory_push_warning; [reflexivity|exact Hv].
Qed.

Lemma advisory_afterAll original content :
  advisory_only (afterAll original content).
Proof.
  pose proof (advisory_afterStructure content) as H0.
  assert (advisory_only (afterGists original content)) as H1.
  { unfold afterGists, validateGistPreservation.
    destruct (negb _); cbn [snd]; [exact H0|].
    apply advisory_compareGists. exact H0. }
  unfold afterAll.
  set (v1 := afterGists original content) in *.
  assert (advisory_only (validateHeadingsPreservation original content v1).2)
    as H2.
  { unfold validateHeadingsPreservation. cbn [snd].
    apply advisory_compareHeadings.
    destruct (negb _); [|exact H1].
    apply advisory_push_warning; [reflexivity|exact H1]. }
  set (v2 := (validateHeadingsPreservation original content v1).2) in *.
  assert (advisory_only (validateLinksPreservation original content v2).2)
    as H3.
  { unfold validateLinksPreservation. cbn [snd].
    assert (advisory_only
              (if negb (length (match_g false link_re original)
                        =? length (match_g false link_re content))
               then push_warning
                      (LinkCountChanged
                         (length (match_g false link_re original))
                         (length (match_g false link_re content))) v2
               else v2)) as H.
    { destruct (negb _); [|exact H2].
      apply advisory_push_warning; [reflexivity|exact H2]. }
    destruct (negb (length (match_g false internalLink_re original) =? _));
      exact H. }
  set (v3 := (validateLinksPreservation original content v2).2) in *.
  unfold validateContentLength. cbn [snd].
  destruct (_ <? _); [apply advisory_push_warning; [reflexivity|exact H3]|].
  destruct (_ <? _); [apply advisory_push_warning; [reflexivity|exact H3]|].
  exact H3.
Qed.

(** Every readable file goes through the structure checks; what follows
    only adds to the errors, and the warnings are of the advisory kinds. *)
Lemma validateFile_read d path original content v :
  d !! path = Some content ->
  exists vf,
    validateFile d path original v
    = (Validation (no_errors vf) (errors vf) (warnings vf), vf) /\
    grows (afterStructure content) vf /\ advisory_only vf.
Proof.
  intros Hread. destruct (truthy original) eqn:Ht.
  - destruct original as [[|c t]|]; try discriminate.
    exists (afterAll (c :: t) content). split; [|split].
    + apply validateFile_compared; [exact Hread|discriminate].
    + eapply grows_trans; [|apply grows_afterGists_afterAll].
      apply grows_validateGistPreservation.
    + apply advisory_afterAll.
  - exists (afterStructure content). split; [|split].
    + apply validateFile_alone; assumption.
    + apply grows_refl.
    + apply advisory_afterStructure.
Qed.

Lemma errors_afterStructure content :
  errors (afterStructure content)
  = errors (validateFrontMatter content (Validator [] [])).2
    ++ (if negb (length (match_g false (Chr 91%N) content)
                 =? length (match_g false (Chr 93%N) content))
        then [UnmatchedSquareBrackets
                (length (match_g false (Chr 91%N) content))
                (length (match_g false (Chr 93%N) content))]
        else [])
    ++ (if negb (length (match_g false fence_re content) mod 2 =? 0)
        then [UnmatchedCodeBlock] else []).
Proof.
  unfold afterStructure, validateMarkdownStructure. cbn [snd errors].
  destruct (1 <? _); cbn [push_warning errors];
    destruct (negb (length (match_g false fence_re content) mod 2 =? 0));
    rewrite ?app_nil_r; reflexivity.
Qed.

(** C6 (as amended): a different number of opening and closing square
    brackets is a fatal error of [validateFile], and never one of its
    warnings; an odd number of code fences is a fatal error too. *)
Theorem bracket_mismatch_is_fatal (d : Fs.disk) (path content : str)
    (original : option str) (v : validator) :
  d !! path = Some content ->
  let r := (validateFile d path original v).1 in
  let opened := Spec.count_char 91%N content in
  let closed := Spec.count_char 93%N content in
  (opened <> closed ->
   valid r = false /\
   UnmatchedSquareBrackets opened closed ∈ v_errors r /\
   forall a b, UnmatchedSquareBrackets a b ∉ v_warnings r) /\
  (length (match_g false fence_re content) mod 2 <> 0 ->
   valid r = false /\ UnmatchedCodeBlock ∈ v_errors r).
Proof.
  intros Hread r opened closed. subst r.
  destruct (validateFile_read d path original content v Hread)
    as (vf & -> & Hgrow & Hadv).
  cbn [fst valid v_errors v_warnings]. split.
  - intros Hne.
    assert (UnmatchedSquareBrackets opened closed ∈ errors vf) as Hin.
    { eapply grows_elem; [exact Hgrow|]. rewrite errors_afterStructure.
      rewrite !match_g_chr. fold opened closed.
      destruct (Nat.eqb_spec opened closed); [contradiction|].
      cbn [negb]. apply elem_of_app. right. apply elem_of_app. left.
      constructor. }
    split; [eapply no_errors_false_of_elem; exact Hin|].
    split; [exact Hin|].
    intros a b Hw. unfold advisory_only in Hadv.
    rewrite Forall_forall in Hadv. apply Hadv in Hw. discriminate.
  - intros Hodd.
    assert (UnmatchedCodeBlock ∈ errors vf) as Hin.
    { eapply grows_elem; [exact Hgrow|]. rewrite errors_afterStructure.
      destruct (Nat.eqb_spec (length (match_g false fence_re content) mod 2) 0);
        [contradiction|].
      cbn [negb]. apply elem_of_app. right. apply elem_of_app. right.
      constructor. }
    split; [eapply no_errors_false_of_elem; exact Hin|exact Hin].
Qed.

Lemma bracket_mismatch_is_fatal_witness :
  let r := (validateFile {[ Examples.path := Examples.openBracket ]}
              Examples.path None (Validator [] [])).1 in
  let opened := Spec.count_char 91%N Examples.openBracket in
  let closed := Spec.count_char 93%N Examples.openBracket in
  (opened <> closed ->
   valid r = false /\
   UnmatchedSquareBrackets opened closed ∈ v_errors r /\
   forall a b, UnmatchedSquareBrackets a b ∉ v_warnings r) /\
  (length (match_g false fence_re Examples.openBracket) mod 2 <> 0 ->
   valid r = false /\ UnmatchedCodeBlock ∈ v_errors r).
Proof.
  apply (bracket_mismatch_is_fatal {[ Examples.path := Examples.openBracket ]}
           Examples.path Examples.openBracket None (Validator [] [])).
  vm_compute. reflexivity.
Defined.

(** C6, the counterexample: a document whose only flaw is one opening
    bracket more than closing ones is rejected, with an error and without
    any warning. *)
Lemma unmatched_bracket_rejected :
  (validateFile {[ Examples.path := Examples.openBracket ]} Examples.path
     None (Validator [] [])).1
  = Validation false [UnmatchedSquareBrackets 1 0] [] /\
  Spec.count_char 91%N Examples.openBracket = 1 /\
  Spec.count_char 93%N Examples.openBracket = 0 /\
  length (match_g false fence_re Examples.openBracket) = 0.
Proof. vm_compute. repeat split; reflexivity. Qed.

End MarkdownStructure.

Section FrontMatter.
Import Js Validator Stages.

Lemma errors_checkRequired_fold frontMatter (fields : list str) : forall v,
  errors (foldl (fun v field =>
                   if absent frontMatter field
                   then push_error (MissingRequiredField field) v else v)
                v fields)
  = errors v ++ (MissingRequiredField <$> List.filter (absent frontMatter) fields).
Proof.
  induction fields as [|f fields IH]; intros v; cbn [foldl List.filter].
  - symmetry. apply app_nil_r.
  - rewrite IH. destruct (absent frontMatter f).
    + cbn [push_error errors fmap list_fmap]. rewrite <- app_assoc. reflexivity.
    + reflexivity.
Qed.

(** What [validateFrontMatter] adds when the block is found: one message for
    each required field whose name and colon occur nowhere in the block. *)
Lemma errors_validateFrontMatter content frontMatter v :
  frontMatterOf content = Some frontMatter ->
  errors (validateFrontMatter content v).2
  = errors v
    ++ (MissingRequiredField <$> List.filter (absent frontMatter) requiredFields).
Proof.
  unfold frontMatterOf, validateFrontMatter.
  destruct (search false frontMatter_re content) as [m|]; [|discriminate].
  cbn [mbind option_bind snd]. intros [= <-].
  rewrite checkDates_inert. apply errors_checkRequired_fold.
Qed.

(** C10: the required-field check is a substring test. For a block that
    [validateFrontMatter] finds, the missing-field error of a required field
    is reported exactly when the field name followed by a colon occurs
    nowhere in the block; and a block without a [title] field, in which
    [subtitle:] supplies the substring, passes without any error. *)
Theorem required_field_is_substring_test :
  (forall content frontMatter v field,
     frontMatterOf content = Some frontMatter ->
     field ∈ requiredFields ->
     MissingRequiredField field ∈ errors (validateFrontMatter content v).2
     <-> (MissingRequiredField field ∈ errors v
          \/ includes frontMatter (field ++ [58%N]) = false)) /\
  (exists frontMatter,
     frontMatterOf Examples.subtitled = Some frontMatter /\
     Spec.has_field (lit "title") frontMatter = false /\
     includes frontMatter (lit "subtitle:") = true /\
     includes frontMatter (lit "title:") = true /\
     validateFrontMatter Examples.subtitled (Validator [] [])
     = (true, Validator [] [])).
Proof.
  split.
  - intros content frontMatter v field Hfm Hreq.
    rewrite (errors_validateFrontMatter _ _ _ Hfm), elem_of_app.
    split; (intros [H|H]; [left; exact H|right]).
    + apply list_elem_of_fmap in H as (f & [= <-] & Hf).
      apply list_elem_of_In, filter_In in Hf as [_ Hf].
      unfold absent in Hf. apply negb_true_iff in Hf. exact Hf.
    + apply list_elem_of_fmap. exists field. split; [reflexivity|].
      apply list_elem_of_In, filter_In. split.
      * apply list_elem_of_In. exact Hreq.
      * unfold absent. rewrite H. reflexivity.
  - eexists. vm_compute. repeat split; reflexivity.
Qed.

(** C7, on the code as it is: [validateFrontMatter] reports no date error
    that was not there before, whatever the content; and a document whose
    date is [2024/01/02], which is not of the strict form, is accepted
    without any error. *)
Theorem malformed_date_goes_unreported :
  (forall content v field dateStr,
     InvalidDateFormat field dateStr ∈ errors (validateFrontMatter content v).2
     <-> InvalidDateFormat field dateStr ∈ errors v) /\
  (exists frontMatter,
     frontMatterOf Examples.slashDate = Some frontMatter /\
     Spec.field_value (lit "date") frontMatter = Some (lit "2024/01/02") /\
     test false strictDate_re (lit "2024/01/02") = false /\
     validateFrontMatter Examples.slashDate (Validator [] [])
     = (true, Validator [] [])).
Proof.
  split.
  - intros content v field dateStr.
    destruct (frontMatterOf content) as [fm|] eqn:Hfm.
    + rewrite (errors_validateFrontMatter _ _ _ Hfm), elem_of_app.
      split; [|intros H; left; exact H].
      intros [H|H]; [exact H|].
      apply list_elem_of_fmap in H as (f & [=] & _).
    + unfold frontMatterOf in Hfm. unfold validateFrontMatter.
      destruct (search false frontMatter_re content); [discriminate|].
      cbn [snd push_error errors]. rewrite elem_of_app.
      split; [|intros H; left; exact H].
      intros [H|H]; [exact H|].
      apply list_elem_of_singleton in H. discriminate.
  - eexists. vm_compute. repeat split; reflexivity.
Qed.

End FrontMatter.

(** ** The pipeline *)

Section Pipeline.
Import Js Processor.

Ltac world_simpl :=
  unfold set_disk, set_validator, set_llm, push_result;
  cbn [disk llm validator processedFiles].

Lemma frames_ret {A} (a : A) : frames (ret a).
Proof. intros w. auto. Qed.

Lemma frames_throw {A} (err : failure) : frames (@throw A err).
Proof. intros w. auto. Qed.

Lemma frames_bind {A B} (m : M A) (f : A -> M B) :
  frames m -> (forall a, frames (f a)) -> frames (bind m f).
Proof.
  intros Hm Hf w. unfold bind. specialize (Hm w).
  destruct (m w) as [[a|err] w1]; cbn [snd] in *; [|exact Hm].
  specialize (Hf a w1). destruct Hm as (<- & <- & <-). exact Hf.
Qed.

Lemma frames_readFile path : frames (readFile path).
Proof. intros w. unfold readFile. destruct (Fs.readFileSync _ _); auto. Qed.

Lemma frames_rewritten call : frames (rewritten call).
Proof.
  intros w. unfold rewritten. destruct (call (llm w)) as [[[text|]|err] c]; auto.
Qed.

Lemma frames_delay ms : frames (delay ms).
Proof. intros w. auto. Qed.

Lemma frames_rewriteClosings e title platform paragraphs :
  forall newContent,
    frames (rewriteClosings e title platform paragraphs newContent).
Proof.
  induction paragraphs as [|p more IH]; intros newContent;
    cbn [rewriteClosings]; [apply frames_ret|].
  apply frames_bind; [apply frames_rewritten|]. intros r.
  apply frames_bind; [|intros _; apply IH].
  destruct more; [apply frames_ret|apply frames_delay].
Qed.

Lemma frames_prepare e absolutePath : frames (prepare e absolutePath).
Proof.
  unfold prepare. apply frames_bind; [apply frames_readFile|].
  intros original.
  destruct (parseFrontMatter original) as [[frontMatter content]|];
    [|apply frames_throw].
  destruct (search false title_re frontMatter);
    [|apply frames_throw].
  destruct (search false platform_re frontMatter); [|apply frames_throw].
  cbv zeta.
  assert (forall opening,
            frames
              (match opening with
               | [] => ret content
               | _ :: _ =>
                 rewrittenOpening <-
                   rewritten (Rewriter.rewriteOpeningParagraph (svc e) opening
                                (default [] (group 1 m))
                                (default [] (group 1 m0))) ;;
                 (delay 2000 ;;;
                  ret (replace_str content opening rewrittenOpening))
               end)) as Hopen.
  { intros [|x t]; [apply frames_ret|].
    apply frames_bind; [apply frames_rewritten|]. intros r.
    apply frames_bind; [apply frames_delay|]. intros _. apply frames_ret. }
  destruct (extractOpeningParagraph content) as [|x t] eqn:Ho;
    destruct (extractClosingParagraphs content) as [|y u] eqn:Hc;
    try apply frames_ret;
    (apply frames_bind; [first [apply frames_ret|apply (Hopen (x :: t))]|];
     intros nc;
     apply frames_bind; [apply frames_rewriteClosings|];
     intros nc'; apply frames_ret).
Qed.

Lemma bind_Ok {A B} (m : M A) (f : A -> M B) w b w' :
  bind m f w = (Ok b, w') ->
  exists a w1, m w = (Ok a, w1) /\ f a w1 = (Ok b, w').
Proof.
  unfold bind. destruct (m w) as [[a|err] w1]; [eauto|discriminate].
Qed.

(** A candidate carries the content of the file as it was read. *)
Lemma prepare_original e absolutePath w c w1 :
  prepare e absolutePath w = (Ok (Some c), w1) ->
  disk w !! absolutePath = Some (originalContent c).
Proof.
  unfold prepare. intros H.
  apply bind_Ok in H as (original & w0 & Hread & H).
  unfold readFile, Fs.readFileSync in Hread.
  destruct (disk w !! absolutePath) as [content0|]; [|discriminate].
  injection Hread as -> ->.
  destruct (parseFrontMatter original) as [[frontMatter content]|];
    [|discriminate].
  destruct (search false title_re frontMatter); [|discriminate].
  destruct (search false platform_re frontMatter); [|discriminate].
  cbv zeta in H.
  destruct (extractOpeningParagraph content) as [|x t];
    destruct (extractClosingParagraphs content) as [|y u];
    try discriminate;
    apply bind_Ok in H as (nc & w2 & _ & H);
    apply bind_Ok in H as (nc' & w3 & _ & H);
    injection H as <- _; reflexivity.
Qed.

(** A candidate is made of a file that could be parsed: the original that
    goes with it is not the empty text. *)
Lemma prepare_original_nonempty e absolutePath w c w1 :
  prepare e absolutePath w = (Ok (Some c), w1) ->
  originalContent c <> [].
Proof.
  unfold prepare. intros H.
  apply bind_Ok in H as (original & w0 & _ & H).
  destruct (parseFrontMatter original) as [[frontMatter content]|] eqn:Hparse;
    [|discriminate].
  assert (original <> []) as Hne.
  { intros ->. vm_compute in Hparse. discriminate. }
  destruct (search false title_re frontMatter); [|discriminate].
  destruct (search false platform_re frontMatter); [|discriminate].
  cbv zeta in H.
  destruct (extractOpeningParagraph content) as [|x t];
    destruct (extractClosingParagraphs content) as [|y u];
    try discriminate;
    apply bind_Ok in H as (nc & w2 & _ & H);
    apply bind_Ok in H as (nc' & w3 & _ & H);
    injection H as <- _; exact Hne.
Qed.

(** [validateFile] reads one file and starts from a clean state: the rest
    of the disk and the state it is entered with do not matter. *)
Lemma validateFile_lookup d d' path original v v' :
  d !! path = d' !! path ->
  Validator.validateFile d path original v
  = Validator.validateFile d' path original v'.
Proof.
  intros H. unfold Validator.validateFile, Fs.readFileSync. rewrite H.
  reflexivity.
Qed.

Lemma rejected_has_errors d path original v :
  Validator.valid (Validator.validateFile d path original v).1 = false ->
  Validator.v_errors (Validator.validateFile d path original v).1 <> [].
Proof.
  unfold Validator.validateFile.
  destruct (Fs.readFileSync d path); cbn [fst Validator.valid Validator.v_errors];
    [|discriminate].
  unfold Validator.no_errors.
  destruct (Validator.errors _); [discriminate|]. intros _. discriminate.
Qed.

Lemma backupPath_fresh path stamp : Validator.backupPathOf path stamp <> path.
Proof.
  unfold Validator.backupPathOf. intros H.
  apply (f_equal length) in H. rewrite !length_app in H.
  change (length (lit ".backup.")) with 8 in H. lia.
Qed.

(** The inner [try] block when the validator rejects the candidate: the
    backup is copied back over the file and removed, and the error is
    thrown on. *)
Lemma commit_rejected absolutePath backupPath original candidate w :
  backupPath <> absolutePath ->
  disk w !! backupPath = Some original ->
  Validator.valid
    (Validator.validateFile {[ absolutePath := toWellFormed candidate ]}
       absolutePath (Some original) (Validator.Validator [] [])).1 = false ->
  exists errs v,
    errs <> [] /\
    commit absolutePath backupPath original candidate w
    = (Throw (ValidationFailed errs),
       World (delete backupPath (<[absolutePath := original]> (disk w)))
             (llm w) v (processedFiles w)).
Proof.
  intros Hne0 Hbackup Hrejected.
  assert (absolutePath <> backupPath) as Hne by (intros E; apply Hne0; symmetry; exact E).
  assert (forall d v,
            d !! absolutePath = Some (toWellFormed candidate) ->
            Validator.validateFile d absolutePath (Some original) v
            = Validator.validateFile
                {[ absolutePath := toWellFormed candidate ]}
                absolutePath (Some original) (Validator.Validator [] []))
    as Hsame.
  { intros d v Hd. apply validateFile_lookup.
    rewrite Hd, lookup_singleton_eq. reflexivity. }
  pose proof (rejected_has_errors _ _ _ _ Hrejected) as Herrs.
  destruct (Validator.validateFile
              {[ absolutePath := toWellFormed candidate ]}
              absolutePath (Some original) (Validator.Validator [] []))
    as [r v'] eqn:Hv.
  cbn [fst] in Hrejected, Herrs.
  exists (Validator.v_errors r), v'. split; [exact Herrs|].
  unfold commit, try_catch, bind, writeFile, validateFile, Fs.writeFileSync.
  world_simpl.
  rewrite (Hsame _ _ (lookup_insert_eq _ _ _)). rewrite Hrejected.
  cbn [negb]. world_simpl.
  unfold restoreFromBackup, fs_do, Validator.restoreFromBackup,
    Fs.copyFileSync, Fs.unlinkSync.
  world_simpl.
  rewrite lookup_insert_ne by exact Hne.
  rewrite Hbackup. cbn [mbind option_bind].
  rewrite lookup_insert_ne by exact Hne.
  rewrite lookup_insert_ne by exact Hne.
  rewrite Hbackup. unfold throw, existsFile, Fs.existsSync. world_simpl.
  rewrite lookup_delete_eq.
  rewrite bool_decide_eq_false_2 by (intros [x Hx]; discriminate).
  unfold ret. rewrite insert_insert_eq. reflexivity.
Qed.

(** C2: when the validator rejects the candidate that [processArticle]
    has written, the file holds again what it held before the run, the
    result has status [error], and no backup is left: the disk is as
    before at every path other than the backup's, and holds nothing
    there.  The verdict of the validator is stated on a disk that holds the
    candidate alone, as [fs.writeFileSync] leaves it there (read back from
    its UTF-8 encoding): the validator reads no other file and starts from a
    clean state ([validateFile_lookup]). *)
Theorem rollback_on_validation_failure (e : env) (filePath : str) (w : world)
    (c : candidate) (w1 : world) :
  let absolutePath :=
    if isAbsolute e filePath then filePath else resolve e filePath in
  let backupPath := Validator.backupPathOf absolutePath (now e) in
  prepare e absolutePath w = (Ok (Some c), w1) ->
  Validator.valid
    (Validator.validateFile
       {[ absolutePath := toWellFormed (newFileContent c) ]}
       absolutePath (Some (originalContent c))
       (Validator.Validator [] [])).1 = false ->
  exists errs r w',
    processArticle e filePath w = (Some r, w') /\
    r = Errored absolutePath (basename e filePath) (ValidationFailed errs) /\
    errs <> [] /\
    result_status r = error /\
    disk w !! absolutePath = Some (originalContent c) /\
    disk w' !! absolutePath = Some (originalContent c) /\
    disk w' !! backupPath = None /\
    (forall q, q <> backupPath -> disk w' !! q = disk w !! q) /\
    processedFiles w' = processedFiles w ++ [r].
Proof.
  intros absolutePath backupPath Hprep Hrejected.
  pose proof (prepare_original _ _ _ _ _ Hprep) as Horig.
  pose proof (frames_prepare e absolutePath w) as (Hd & _ & Hp).
  rewrite Hprep in Hd, Hp. cbn [snd] in Hd, Hp.
  assert (backupPath <> absolutePath) as Hne by apply backupPath_fresh.
  destruct (commit_rejected absolutePath backupPath (originalContent c)
              (newFileContent c)
              (set_disk (<[backupPath := originalContent c]> (disk w1)) w1)
              Hne (lookup_insert_eq _ _ _) Hrejected)
    as (errs & v & Herrs & Hcommit).
  exists errs, (Errored absolutePath (basename e filePath)
                  (ValidationFailed errs)).
  eexists. split; [|split; [reflexivity|split; [exact Herrs|]]].
  - unfold processArticle. fold absolutePath.
    unfold processBody, bind. rewrite Hprep.
    unfold finish, bind, createBackup, Validator.createBackup,
      Fs.copyFileSync.
    fold backupPath. rewrite Hd, Horig. cbn [mbind option_bind].
    rewrite <- Hd. rewrite Hcommit. reflexivity.
  - world_simpl. rewrite Hd, Hp.
    split; [reflexivity|]. split; [exact Horig|]. split; [|split; [|split]].
    + rewrite lookup_delete_ne by exact Hne. apply lookup_insert_eq.
    + apply lookup_delete_eq.
    + intros q Hq. rewrite lookup_delete_ne by (intros E; apply Hq; symmetry; exact E).
      destruct (decide (q = absolutePath)) as [->|Hqa].
      * rewrite lookup_insert_eq. symmetry. exact Horig.
      * rewrite !lookup_insert_ne; [reflexivity| |];
          intros E; [apply Hq|apply Hqa]; symmetry; exact E.
    + reflexivity.
Qed.

(** C8 (as amended): a document that parses, names its title and platform,
    and has neither an opening paragraph nor closing paragraphs is skipped:
    [processArticle] returns [null] and leaves the disk, the rewriter and
    the recorded results as they were, so the report counts the document
    neither as successful nor as failed. *)
Theorem nothing_to_rewrite_is_skipped (e : env) (filePath : str) (w : world)
    (original frontMatter content : str) (titleMatch platformMatch : match_result)
    (render : report -> str) :
  let absolutePath :=
    if isAbsolute e filePath then filePath else resolve e filePath in
  disk w !! absolutePath = Some original ->
  parseFrontMatter original = Some (frontMatter, content) ->
  search false title_re frontMatter = Some titleMatch ->
  search false platform_re frontMatter = Some platformMatch ->
  extractOpeningParagraph content = [] ->
  extractClosingParagraphs content = [] ->
  processArticle e filePath w = (None, w) /\
  (generateReport render (processArticle e filePath w).2).1
  = (generateReport render w).1.
Proof.
  intros absolutePath Hread Hparse Htitle Hplatform Hopen Hclose.
  assert (processArticle e filePath w = (None, w)) as H.
  { unfold processArticle. fold absolutePath.
    unfold processBody, bind, prepare, bind, readFile, Fs.readFileSync.
    rewrite Hread, Hparse, Htitle, Hplatform. cbv zeta.
    rewrite Hopen, Hclose. reflexivity. }
  split; [exact H|]. rewrite H. reflexivity.
Qed.

End Pipeline.

Section PipelineExamples.
Import Js Processor.

Lemma rollback_on_validation_failure_witness :
  exists c w1,
    prepare Examples.echoGist Examples.path
      (Examples.holding Examples.article) = (Ok (Some c), w1) /\
    exists errs r w',
      processArticle Examples.echoGist Examples.path
        (Examples.holding Examples.article) = (Some r, w') /\
      r = Errored Examples.path Examples.path (ValidationFailed errs) /\
      errs <> [] /\
      result_status r = error /\
      disk (Examples.holding Examples.article) !! Examples.path
      = Some (originalContent c) /\
      disk w' !! Examples.path = Some (originalContent c) /\
      disk w' !! Validator.backupPathOf Examples.path (now Examples.echoGist)
      = None /\
      (forall q,
         q <> Validator.backupPathOf Examples.path (now Examples.echoGist) ->
         disk w' !! q = disk (Examples.holding Examples.article) !! q) /\
      processedFiles w'
      = processedFiles (Examples.holding Examples.article) ++ [r].
Proof.
  exists Examples.echoGistCandidate, Examples.echoGistWorld.
  split; [vm_compute; reflexivity|].
  apply (rollback_on_validation_failure Examples.echoGist Examples.path
           (Examples.holding Examples.article) Examples.echoGistCandidate
           Examples.echoGistWorld).
  - vm_compute. reflexivity.
  - vm_compute. reflexivity.
Defined.

Lemma nothing_to_rewrite_is_skipped_witness :
  processArticle Examples.echoGist Examples.path
    (Examples.holding Examples.headingOnly)
  = (None, Examples.holding Examples.headingOnly) /\
  (generateReport (fun _ => [])
     (processArticle Examples.echoGist Examples.path
        (Examples.holding Examples.headingOnly)).2).1
  = (generateReport (fun _ => []) (Examples.holding Examples.headingOnly)).1.
Proof.
  apply (nothing_to_rewrite_is_skipped Examples.echoGist Examples.path
           (Examples.holding Examples.headingOnly)
           Examples.headingOnly
           (Examples.parsed Examples.headingOnly).1
           (Examples.parsed Examples.headingOnly).2
           (Examples.found title_re Examples.headingOnly)
           (Examples.found platform_re Examples.headingOnly)
           (fun _ => [])).
  - vm_compute. reflexivity.
  - vm_compute. reflexivity.
  - vm_compute. reflexivity.
  - vm_compute. reflexivity.
  - vm_compute. reflexivity.
  - vm_compute. reflexivity.
Defined.

(** C8, the counterexample: a document whose body begins with a heading
    and holds no gist has nothing to rewrite; [processArticle] returns
    [null] for it and records nothing, and the report counts no successful
    document. *)
Lemma skipped_document_is_not_reported :
  extractOpeningParagraph (Examples.parsed Examples.headingOnly).2 = [] /\
  extractClosingParagraphs (Examples.parsed Examples.headingOnly).2 = [] /\
  processArticle Examples.echoGist Examples.path
    (Examples.holding Examples.headingOnly)
  = (None, Examples.holding Examples.headingOnly) /\
  r_summary
    (generateReport (fun _ => [])
       (processArticle Examples.echoGist Examples.path
          (Examples.holding Examples.headingOnly)).2).1
  = Summary 0 0 0.
Proof. vm_compute. repeat split; reflexivity. Qed.

End PipelineExamples.

(** ** The opening span *)

Section OpeningSpan.
Import Js Scan Processor.

Lemma strip_Some (l : str) : forall st st',
  strip l st = Some st' -> rest st = l ++ rest st'.
Proof.
  induction l as [|c l IH]; intros st st' H; cbn [strip] in H.
  - injection H as <-. reflexivity.
  - destruct (rest st) as [|x t] eqn:Hr; [discriminate|].
    destruct (N.eqb_spec x c) as [->|]; [|discriminate].
    apply IH in H. cbn [rest] in H. rewrite H. reflexivity.
Qed.

Lemma strip_app (l : str) : forall p t cs,
  exists q, strip l (MState p (l ++ t) cs) = Some (MState q t cs).
Proof.
  induction l as [|c l IH]; intros p t cs; cbn [strip app rest caps].
  - eauto.
  - rewrite N.eqb_refl. apply IH.
Qed.

Lemma strip_prefix (l : str) p s cs :
  (exists st', strip l (MState p s cs) = Some st') <-> l `prefix_of` s.
Proof.
  split.
  - intros [st' H]. apply strip_Some in H. exists (rest st'). exact H.
  - intros [t ->]. destruct (strip_app l p t cs) as [q Hq]. eauto.
Qed.

(** The longest run of white space splits the text. *)
Lemma skip_all_split (a : atom) (s : str) : forall p cs,
  exists ws, s = ws ++ rest (skip_all a p s cs) /\
             forallb (atom_ok a) ws = true /\
             caps (skip_all a p s cs) = cs /\
             match rest (skip_all a p s cs) with
             | x :: _ => atom_ok a x = false
             | [] => True
             end.
Proof.
  induction s as [|x t IH]; intros p cs; cbn [skip_all].
  - exists []. cbn [rest caps app forallb]. auto.
  - destruct (atom_ok a x) eqn:Hx.
    + destruct (IH (Some x) cs) as (ws & Hs & Hall & Hc & Hnext).
      exists (x :: ws). cbn [forallb app]. rewrite Hx, Hall, <- Hs. auto.
    + exists []. cbn [rest caps app forallb]. auto.
Qed.

Lemma skip_all_app (a : atom) (ws : str) : forall p x t cs,
  forallb (atom_ok a) ws = true -> atom_ok a x = false ->
  rest (skip_all a p (ws ++ x :: t) cs) = x :: t.
Proof.
  induction ws as [|c ws IH]; intros p x t cs Hall Hx; cbn [skip_all app].
  - rewrite Hx. reflexivity.
  - cbn [forallb] in Hall. apply andb_prop in Hall as [Hc Hall].
    rewrite Hc. apply IH; assumption.
Qed.

Lemma space_ok c : atom_ok space c = is_space c.
Proof. cbn. rewrite orb_false_r. reflexivity. Qed.

(** The pattern [/^## /m] at one position. *)
Lemma heading2_at_position (p : option char) (s : str) :
  (exists z, exec_at true heading2_re p s = Some z)
  <-> at_bol true (MState p s []) = true /\ lit "## " `prefix_of` s.
Proof.
  change heading2_re with (Seq Bol (Lit (lit "## "))).
  unfold exec_at. rewrite run_Seq. cbn [run].
  rewrite <- (strip_prefix _ p s []).
  destruct (at_bol true (MState p s [])).
  - rewrite run_Lit. split.
    + intros [z H]. split; [reflexivity|].
      destruct (strip _ _) as [st'|]; [eauto|discriminate].
    + intros [_ [st' H]]. rewrite H. eauto.
  - split; [intros [z H]; discriminate|intros [H _]; discriminate].
Qed.

(** The pattern [/\{\{<\s*gist/] at one position. *)
Lemma gistOpen_at_position (p : option char) (s : str) :
  (exists z, exec_at false gistOpen_re p s = Some z)
  <-> exists ws, Forall (fun c => is_space c = true) ws /\
                 (lit "{{<" ++ ws ++ lit "gist") `prefix_of` s.
Proof.
  change gistOpen_re
    with (Seq (Lit (lit "{{<")) (Seq (Star (One space)) (Lit (lit "gist")))).
  unfold exec_at. rewrite run_Seq, run_Lit.
  assert (forall st1,
            run false (Seq (Star (One space)) (Lit (lit "gist"))) st1 Some
            = strip (lit "gist")
                (skip_all space (prev st1) (rest st1) (caps st1))) as Hstar.
  { intros st1. rewrite run_Seq, run_Star, star_try_all.
    - rewrite run_Lit. destruct (strip _ _); reflexivity.
    - intros p' x t cs' Hx. rewrite run_Lit.
      change (lit "gist") with (103%N :: lit "ist"). cbn [strip rest].
      destruct (N.eqb_spec x 103) as [->|]; [|reflexivity].
      rewrite space_ok in Hx. discriminate. }
  split.
  - intros [z H].
    destruct (strip (lit "{{<") (MState p s [])) as [st1|] eqn:H1;
      [|discriminate].
    rewrite Hstar in H. apply strip_Some in H1, H. cbn [rest] in H1.
    destruct (skip_all_split space (rest st1) (prev st1) (caps st1))
      as (ws & Hws & Hall & _ & _).
    exists ws. split.
    + apply Forall_forall. intros c Hc.
      rewrite forallb_forall in Hall. rewrite <- space_ok. apply Hall.
      apply list_elem_of_In. exact Hc.
    + exists (rest z). rewrite H1, Hws, H, <- !app_assoc. reflexivity.
  - intros (ws & Hall & t & ->). rewrite <- !app_assoc.
    destruct (strip_app (lit "{{<") p (ws ++ lit "gist" ++ t) []) as [q ->].
    rewrite Hstar. cbn [prev rest caps].
    assert (rest (skip_all space q (ws ++ lit "gist" ++ t) [])
            = lit "gist" ++ t) as Hrest.
    { change (lit "gist" ++ t) with (103%N :: lit "ist" ++ t).
      apply skip_all_app; [|reflexivity].
      apply forallb_forall. intros c Hc'. rewrite space_ok.
      rewrite Forall_forall in Hall. apply Hall. apply list_elem_of_In.
      exact Hc'. }
    rewrite <- (mstate_eta (skip_all _ _ _ _)), Hrest.
    apply strip_prefix. exists t. reflexivity.
Qed.

(** A search finds the first position at which the pattern matches. *)
Lemma search_first (ml : bool) (r : regex) (body : str) (P : nat -> Prop) :
  (forall j, j <= length body ->
     (exists z, exec_at ml r (prev_at None body j) (drop j body) = Some z)
     <-> P j) ->
  (forall j, length body < j -> ~ P j) ->
  Spec.first_at P (index <$> search ml r body).
Proof.
  intros Hat Hbeyond. unfold search.
  destruct (search_from ml r None body 0) as [m|] eqn:Hs;
    cbn [fmap option_fmap option_map Spec.first_at].
  - apply search_from_Some in Hs as (j & st' & Hj & Hex & -> & Hmin).
    cbn [result_at index Nat.add]. split.
    + apply Hat; eauto.
    + intros j' Hj' HP. apply Hat in HP as [z Hz]; [|lia].
      rewrite (Hmin j' Hj') in Hz. discriminate.
  - intros j HP. destruct (le_lt_dec j (length body)) as [Hj|Hj].
    + apply Hat in HP as [z Hz]; [|exact Hj].
      rewrite (search_from_None _ _ _ _ _ Hs j Hj) in Hz. discriminate.
    + exact (Hbeyond j Hj HP).
Qed.

Lemma at_bol_line_start (body : str) (j : nat) :
  j <= length body ->
  at_bol true (MState (prev_at None body j) (drop j body) []) = true
  <-> Spec.line_start body j.
Proof.
  intros Hj. destruct j as [|j]; cbn [prev_at at_bol prev Spec.line_start].
  - split; auto.
  - destruct (body !! j) as [c|] eqn:Hc.
    + cbn [andb]. split; [eauto|]. intros (c' & [= <-] & H). exact H.
    + apply lookup_ge_None in Hc. lia.
Qed.

Lemma first_heading2 (body : str) :
  Spec.first_at (Spec.heading2_at body)
                (index <$> search true heading2_re body).
Proof.
  apply search_first.
  - intros j Hj. rewrite heading2_at_position, (at_bol_line_start _ _ Hj).
    reflexivity.
  - intros j Hj [_ [t Ht]]. rewrite drop_ge in Ht by lia. discriminate.
Qed.

Lemma first_gist_open (body : str) :
  Spec.first_at (Spec.gist_open_at body)
                (index <$> search false gistOpen_re body).
Proof.
  apply search_first.
  - intros j Hj. apply gistOpen_at_position.
  - intros j Hj (ws & _ & t & Ht). rewrite drop_ge in Ht by lia.
    discriminate.
Qed.

Lemma drop_while_split (f : char -> bool) (s : str) :
  exists w, s = w ++ drop_while f s /\ forallb f w = true /\
            match drop_while f s with
            | x :: _ => f x = false
            | [] => True
            end.
Proof.
  induction s as [|c s (w & Hs & Hw & Hhead)]; cbn [drop_while].
  - exists []. auto.
  - destruct (f c) eqn:Hc.
    + exists (c :: w). cbn [app forallb]. rewrite Hc, Hw, <- Hs. auto.
    + exists []. cbn [app forallb]. auto.
Qed.

(** The white space of the specification is what [\s] and [trim] take
    for white space. *)
Lemma white_is_space (c : char) : Spec.white c <-> is_space c = true.
Proof.
  unfold Spec.white, is_space.
  rewrite !orb_true_iff, andb_true_iff, !N.eqb_eq, !N.leb_le.
  rewrite !elem_of_cons, elem_of_nil. intuition lia.
Qed.

Lemma Forall_white (l : str) :
  Forall Spec.white l <-> forallb is_space l = true.
Proof.
  rewrite forallb_forall, Forall_forall. split; intros H x Hx.
  - apply white_is_space, H, list_elem_of_In, Hx.
  - apply white_is_space, H, list_elem_of_In, Hx.
Qed.

(** [trim] trims. *)
Lemma trim_trimmed (s : str) : Spec.trimmed s (trim s).
Proof.
  unfold trim, trim_start, trim_end.
  destruct (drop_while_split is_space s) as (ws & Hs & Hws & Hhead).
  destruct (drop_while_split is_space (rev (drop_while is_space s)))
    as (w & Hr & Hw & Hlast).
  set (t := drop_while is_space s) in *.
  set (d := drop_while is_space (rev t)) in *.
  assert (t = rev d ++ rev w) as Ht
    by (rewrite <- rev_app_distr, <- Hr, rev_involutive; reflexivity).
  exists ws, (rev w). split; [rewrite Hs at 1; rewrite Ht; reflexivity|].
  split; [apply Forall_white; exact Hws|].
  split; [apply Forall_rev, Forall_white; exact Hw|].
  split.
  - intros x Hx Hwhite. apply white_is_space in Hwhite.
    destruct (rev d) as [|x' u] eqn:Hd; [discriminate|].
    injection Hx as ->. rewrite Ht in Hhead. cbn [app] in Hhead. congruence.
  - intros y Hy Hwhite. apply white_is_space in Hwhite.
    destruct d as [|y' d'].
    + discriminate.
    + cbn [rev] in Hy. rewrite last_snoc in Hy. injection Hy as ->.
      congruence.
Qed.

Lemma drop_while_white (b x : str) :
  Forall Spec.white b -> drop_while is_space (b ++ x) = drop_while is_space x.
Proof.
  induction 1 as [|c b Hc _ IH]; [reflexivity|].
  cbn [app drop_while]. apply white_is_space in Hc. rewrite Hc. exact IH.
Qed.

(** A text has one trimmed text only, the one [trim] returns. *)
Lemma trimmed_trim (s t : str) : Spec.trimmed s t -> t = trim s.
Proof.
  intros (before & after & -> & Hb & Ha & Hhead & Hlast).
  unfold trim, trim_start, trim_end.
  rewrite drop_while_white by exact Hb.
  destruct t as [|x t0].
  - cbn [app]. rewrite <- (app_nil_r after), drop_while_white by exact Ha.
    reflexivity.
  - assert (is_space x = false) as Hx.
    { destruct (is_space x) eqn:E; [|reflexivity].
      exfalso. apply (Hhead x eq_refl), white_is_space, E. }
    cbn [app drop_while]. rewrite Hx.
    change (x :: t0 ++ after) with ((x :: t0) ++ after).
    rewrite rev_app_distr, drop_while_white by (apply Forall_rev; exact Ha).
    destruct (rev (x :: t0)) as [|y r] eqn:Hrev.
    + apply (f_equal (@rev char)) in Hrev. rewrite rev_involutive in Hrev.
      discriminate.
    + assert (last (x :: t0) = Some y) as Hy.
      { rewrite <- (rev_involutive (x :: t0)), Hrev. cbn [rev].
        apply last_snoc. }
      assert (is_space y = false) as Hy'.
      { destruct (is_space y) eqn:E; [|reflexivity].
        exfalso. apply (Hlast y Hy), white_is_space, E. }
      cbn [drop_while]. rewrite Hy', <- Hrev. symmetry.
      apply rev_involutive.
Qed.

(** C4: [extractOpeningParagraph] returns the trimmed prefix of the body
    that ends at the smaller of the offset of the first second-level
    heading line and the offset of the first gist opening token, at the
    one there is when there is only one, and at the end of the body when
    there is none: the prefix is white space, the returned text and white
    space, and the returned text neither begins nor ends with white space.
    A text has one trimmed text only, so this fixes what is returned.  The
    empty body yields the empty string. *)
Theorem extractOpeningParagraph_correct (body : str) :
  (exists heading gist : option nat,
     Spec.first_at (Spec.heading2_at body) heading /\
     Spec.first_at (Spec.gist_open_at body) gist /\
     Spec.trimmed (take (Spec.opening_end body heading gist) body)
       (extractOpeningParagraph body)) /\
  ((forall i, ~ Spec.heading2_at body i) ->
   (forall i, ~ Spec.gist_open_at body i) ->
   Spec.trimmed body (extractOpeningParagraph body)) /\
  extractOpeningParagraph [] = [] /\
  (forall s t t' : str, Spec.trimmed s t -> Spec.trimmed s t' -> t = t').
Proof.
  assert (extractOpeningParagraph body
          = trim (take (Spec.opening_end body
                          (index <$> search true heading2_re body)
                          (index <$> search false gistOpen_re body)) body))
    as Hrun.
  { unfold extractOpeningParagraph.
    destruct (search true heading2_re body), (search false gistOpen_re body);
      reflexivity. }
  split; [|split; [|split]].
  - exists (index <$> search true heading2_re body),
           (index <$> search false gistOpen_re body).
    split; [apply first_heading2|]. split; [apply first_gist_open|].
    rewrite Hrun. apply trim_trimmed.
  - intros Hno_heading Hno_gist. rewrite Hrun.
    pose proof (first_heading2 body) as Hh.
    pose proof (first_gist_open body) as Hg.
    destruct (index <$> search true heading2_re body) as [h|];
      [destruct Hh as [Hh _]; exfalso; exact (Hno_heading h Hh)|].
    destruct (index <$> search false gistOpen_re body) as [g|];
      [destruct Hg as [Hg _]; exfalso; exact (Hno_gist g Hg)|].
    cbn [Spec.opening_end]. rewrite firstn_all. apply trim_trimmed.
  - reflexivity.
  - intros s t t' Ht Ht'. rewrite (trimmed_trim _ _ Ht), (trimmed_trim _ _ Ht').
    reflexivity.
Qed.

End OpeningSpan.

(** ** The closing spans *)

Section ClosingSpans.
Import Js Scan Processor.

Lemma starts_with_app (l : str) : forall t, starts_with l (l ++ t) = true.
Proof.
  induction l as [|c l IH]; intros t; cbn [starts_with app]; [reflexivity|].
  rewrite N.eqb_refl. apply IH.
Qed.

Lemma starts_with_split (l : str) : forall s,
  starts_with l s = true -> s = l ++ drop (length l) s.
Proof.
  induction l as [|c l IH]; intros s H; [reflexivity|].
  destruct s as [|x t]; cbn [starts_with] in H; [discriminate|].
  apply andb_prop in H as [Hx H]. apply N.eqb_eq in Hx. subst x.
  cbn [app length drop]. f_equal. apply IH. exact H.
Qed.

(** [strip] on states and [strip_prefix] on texts. *)
Lemma strip_strip_prefix (l : str) : forall p s cs,
  strip l (MState p s cs)
  = (fun t => MState (match last l with Some c => Some c | None => p end)
                     t cs) <$> Spec.strip_prefix l s.
Proof.
  unfold Spec.strip_prefix.
  induction l as [|c l IH]; intros p s cs; [reflexivity|].
  cbn [strip rest caps starts_with length].
  destruct s as [|x t]; [reflexivity|].
  rewrite N.eqb_sym. destruct (N.eqb_spec c x) as [->|]; [|reflexivity].
  cbn [andb drop]. rewrite IH. rewrite last_cons.
  destruct (starts_with l t); [|reflexivity].
  cbn [fmap option_fmap option_map]. destruct (last l); reflexivity.
Qed.

Lemma skip_all_drop_while (a : atom) (s : str) : forall p cs,
  rest (skip_all a p s cs) = drop_while (atom_ok a) s.
Proof.
  induction s as [|x t IH]; intros p cs; cbn [skip_all drop_while];
    [reflexivity|].
  destruct (atom_ok a x); [apply IH|reflexivity].
Qed.

Lemma skip_all_caps (a : atom) (s : str) : forall p cs,
  caps (skip_all a p s cs) = cs.
Proof.
  induction s as [|x t IH]; intros p cs; cbn [skip_all]; [reflexivity|].
  destruct (atom_ok a x); [apply IH|reflexivity].
Qed.

Lemma drop_while_ext (f g : char -> bool) (s : str) :
  (forall c, f c = g c) -> drop_while f s = drop_while g s.
Proof.
  intros H. induction s as [|x t IH]; cbn [drop_while]; [reflexivity|].
  rewrite H, IH. reflexivity.
Qed.

Lemma anychar_ok c : atom_ok anychar c = true.
Proof. cbn. destruct (is_space c); reflexivity. Qed.

(** The lazy star before the closing token stops at the first one. *)
Lemma lazy_until_close (s : str) : forall p cs,
  lazy_try anychar p s cs (fun st => run false (Lit (lit ">}}")) st Some)
  = (fun t => MState (Some 125%N) t cs) <$> Spec.after_close s.
Proof.
  induction s as [|x t IH]; intros p cs;
    cbn [lazy_try Spec.after_close]; rewrite run_Lit, strip_strip_prefix.
  - reflexivity.
  - destruct (Spec.strip_prefix (lit ">}}") (x :: t)); [reflexivity|].
    cbn [fmap option_fmap option_map]. rewrite anychar_ok. apply IH.
Qed.

(** The gist pattern at one position. *)
Lemma gist_at_position (p : option char) (s : str) :
  exec_at false Validator.gist_re p s
  = (fun t => MState (Some 125%N) t []) <$> Spec.gist_at s.
Proof.
  change Validator.gist_re
    with (Seq (Lit (lit "{{<"))
            (Seq (Star (One space))
               (Seq (Lit (lit "gist"))
                  (Seq (LazyStar (One anychar)) (Lit (lit ">}}")))))).
  unfold exec_at, Spec.gist_at.
  rewrite run_Seq, run_Lit, strip_strip_prefix.
  destruct (Spec.strip_prefix (lit "{{<") s) as [t|]; [|reflexivity].
  cbn [fmap option_fmap option_map mbind option_bind].
  rewrite run_Seq, run_Star, star_try_all.
  - rewrite run_Seq, run_Lit.
    rewrite <- (mstate_eta (skip_all _ _ _ _)), strip_strip_prefix.
    rewrite skip_all_drop_while, skip_all_caps. cbn [rest caps].
    rewrite (drop_while_ext _ is_space) by apply space_ok.
    destruct (Spec.strip_prefix (lit "gist") (drop_while is_space t))
      as [u|]; [|reflexivity].
    cbn [fmap option_fmap option_map mbind option_bind].
    rewrite run_Seq, run_LazyStar. apply lazy_until_close.
  - intros p' x t' cs' Hx. rewrite run_Seq, run_Lit.
    change (lit "gist") with (103%N :: lit "ist"). cbn [strip rest].
    destruct (N.eqb_spec x 103) as [->|]; [|reflexivity].
    rewrite space_ok in Hx. discriminate.
Qed.

Lemma search_from_anchored (r : regex) (s : str) : forall c i,
  search_from false (Seq Bol r) (Some c) s i = None.
Proof.
  induction s as [|x t IH]; intros c i; cbn [search_from]; [reflexivity|].
  apply IH.
Qed.


(** *** All the matches of a pattern *)

(** Skipping the rest of a match only moves the position. *)
Lemma match_all_skip ml r (w : str) : forall p s i,
  match_all_from ml r p (w ++ s) i (length w)
  = match_all_from ml r (match last w with Some c => Some c | None => p end)
      s (i + length w) 0.
Proof.
  induction w as [|x w IH]; intros p s i.
  - cbn [app length last]. rewrite Nat.add_0_r. reflexivity.
  - cbn [app length match_all_from]. rewrite IH, last_cons.
    replace (S i + length w) with (i + S (length w)) by lia.
    destruct (last w); reflexivity.
Qed.


(** *** The gists of a text *)

Lemma strip_prefix_Some l s t :
  Spec.strip_prefix l s = Some t -> s = l ++ t.
Proof.
  unfold Spec.strip_prefix. destruct (starts_with l s) eqn:H; [|discriminate].
  intros [= <-]. apply starts_with_split. exact H.
Qed.

Lemma drop_while_suffix f (s : str) : exists w, s = w ++ drop_while f s.
Proof.
  induction s as [|x t [w IH]]; cbn [drop_while]; [exists []; reflexivity|].
  destruct (f x); [|exists []; reflexivity].
  exists (x :: w). cbn [app]. f_equal. exact IH.
Qed.

Lemma after_close_suffix (s : str) : forall r,
  Spec.after_close s = Some r -> exists w, s = w ++ r.
Proof.
  induction s as [|x t IH]; intros r H; cbn [Spec.after_close] in H.
  - destruct (Spec.strip_prefix _ _) eqn:Hs; [|discriminate].
    injection H as ->. apply strip_prefix_Some in Hs. eauto.
  - destruct (Spec.strip_prefix _ _) eqn:Hs.
    + injection H as ->. apply strip_prefix_Some in Hs. eauto.
    + apply IH in H as [w ->]. exists (x :: w). reflexivity.
Qed.

(** A gist is at least its opening token long. *)
Lemma gist_at_suffix s r :
  Spec.gist_at s = Some r -> exists c w, s = c :: w ++ r.
Proof.
  unfold Spec.gist_at. intros H.
  destruct (Spec.strip_prefix (lit "{{<") s) as [t|] eqn:H1; [|discriminate].
  cbn [mbind option_bind] in H.
  destruct (Spec.strip_prefix (lit "gist") (drop_while is_space t))
    as [u|] eqn:H2; [|discriminate].
  cbn [mbind option_bind] in H.
  apply strip_prefix_Some in H1, H2. apply after_close_suffix in H as [w3 ->].
  destruct (drop_while_suffix is_space t) as [w2 Hw2].
  rewrite H2 in Hw2. rewrite H1, Hw2.
  exists 123%N, (lit "{<" ++ w2 ++ lit "gist" ++ w3).
  rewrite <- !app_assoc. reflexivity.
Qed.


(** What follows the last match of the gist pattern is the text after the
    last gist. *)
Lemma gist_last_after (fuel : nat) : forall s p i,
  length s < fuel ->
  after <$> last (match_all_from false Validator.gist_re p s i 0)
  = Spec.after_last_gist_from fuel s.
Proof.
  induction fuel as [|fuel IH]; intros s p i Hfuel; [lia|].
  cbn [Spec.after_last_gist_from].
  destruct s as [|c t]; cbn [match_all_from]; rewrite gist_at_position.
  - destruct (Spec.gist_at []) as [r|] eqn:Hg; [|reflexivity].
    apply gist_at_suffix in Hg as (c & w & Hg). discriminate.
  - destruct (Spec.gist_at (c :: t)) as [r|] eqn:Hg;
      cbn [fmap option_fmap option_map].
    + destruct (gist_at_suffix _ _ Hg) as (c' & w & Hs).
      injection Hs as <- ->.
      cbn [result_at matched rest length].
      rewrite length_app.
      replace (S (length w + length r) - length r) with (S (length w)) by lia.
      rewrite length_take. cbn [length]. rewrite length_app.
      replace (S (length w) `min` S (length w + length r))
        with (S (length w)) by lia.
      cbn [pred]. rewrite match_all_skip, last_cons.
      specialize (IH r (match last w with Some x => Some x | None => Some c end)
                    (S i + length w)).
      cbn [length] in Hfuel. rewrite length_app in Hfuel.
      rewrite <- IH by lia.
      destruct (last (match_all_from _ _ _ r _ 0)); reflexivity.
    + apply IH. cbn [length] in Hfuel. lia.
Qed.

(** Any fuel above the length of the text gives the same result. *)
Lemma after_last_gist_fuel (fuel : nat) (s : str) :
  length s < fuel ->
  Spec.after_last_gist_from fuel s = Spec.after_last_gist s.
Proof.
  intros Hfuel. unfold Spec.after_last_gist.
  rewrite <- (gist_last_after fuel s None 0 Hfuel).
  apply gist_last_after. lia.
Qed.


(** *** The blank-line separator *)





(** *** Splitting on blank lines *)










(** *** Trimming *)











(** *** Lines *)










(** *** Pieces and paragraphs *)













(** The scenario of the specification. *)
Example scenario_spans :
  extractOpeningParagraph (Examples.text Examples.body) = lit "Intro text."
  /\ extractClosingParagraphs (Examples.text Examples.body)
     = [lit "Closing one."; lit "Closing two."].
Proof. vm_compute. split; reflexivity. Qed.

End ClosingSpans.

(** * Further properties *)

(** ** The rewrite client, whatever the service does *)

Section RewriterMore.
Import Js Rewriter.

(** The loop from attempt [attempt] on, with [fuel] attempts left: it makes
    [S left] of them for some [left] below [fuel]; a rejection uses them
    all and carries the message of the last, a resolution returns what the
    last request answered. *)
Lemma callLLM_from_shape (svc : service) (p : prompt) (fuel : nat) :
  forall (attempt maxRetries : Z) (c : client),
    (maxRetries = attempt + Z.of_nat fuel)%Z ->
    exists left,
      left <= fuel /\
      (callLLM_from svc p (S fuel) attempt maxRetries c).2
      = Client (requests c + S left)
               (trace c ++ retry_trace p (requests c) attempt left) /\
      match (callLLM_from svc p (S fuel) attempt maxRetries c).1 with
      | Rejected (ApiFailed n m) =>
        left = fuel /\ n = maxRetries /\
        svc (requests c + left) p = Failed m
      | Resolved content => svc (requests c + left) p = Returned content
      end.
Proof.
  induction fuel as [|fuel IH]; intros attempt maxRetries c Hmax.
  - exists 0. cbn [callLLM_from fetch].
    replace (attempt <=? maxRetries)%Z with true
      by (symmetry; apply Z.leb_le; lia).
    replace (attempt =? maxRetries)%Z with true
      by (symmetry; apply Z.eqb_eq; lia).
    rewrite Nat.add_0_r.
    destruct (svc (requests c) p) as [m|content] eqn:Hsvc; cbn [fst snd];
      (split; [lia|split; [do 2 f_equal; lia|auto]]).
  - change (callLLM_from svc p (S (S fuel)) attempt maxRetries c)
      with (if (attempt <=? maxRetries)%Z then
              let (o, c') := fetch svc p c in
              match o with
              | Returned content => (Resolved content, c')
              | Failed message =>
                if (attempt =? maxRetries)%Z
                then (Rejected (ApiFailed maxRetries message), c')
                else callLLM_from svc p (S fuel) (attempt + 1) maxRetries
                       (sleep (2 ^ attempt * 1000) c')
              end
            else (Resolved None, c)).
    replace (attempt <=? maxRetries)%Z with true
      by (symmetry; apply Z.leb_le; lia).
    replace (attempt =? maxRetries)%Z with false
      by (symmetry; apply Z.eqb_neq; lia).
    unfold fetch. destruct (svc (requests c) p) as [m|content] eqn:Hsvc.
    + destruct (IH (attempt + 1)%Z maxRetries
                   (sleep (2 ^ attempt * 1000)
                      (Client (S (requests c))
                              (trace c ++ [Request (requests c) p])))
                   ltac:(lia)) as (left & Hle & Hstate & Hres).
      exists (S left). split; [lia|]. cbn [requests trace sleep] in Hstate, Hres.
      split.
      * rewrite Hstate. cbn [retry_trace]. f_equal; [lia|].
        rewrite <- !app_assoc. reflexivity.
      * replace (requests c + S left) with (S (requests c) + left) by lia.
        destruct (callLLM_from svc p (S fuel) (attempt + 1) maxRetries _).1
          as [content|[n m']]; [exact Hres|].
        destruct Hres as (-> & Hn & Hm). auto.
    + exists 0. cbn [fst snd retry_trace]. rewrite Nat.add_0_r.
      split; [lia|]. split; [do 2 f_equal; lia|exact Hsvc].
Qed.

Lemma waits_retry_trace_clamped (p : prompt) (first : nat) (left : nat) :
  waits (retry_trace p first 1 left)
  = (fun k => if (2 ^ k * 1000 <=? 2147483647)%Z then 2 ^ k * 1000 else 1)%Z
      <$> seqZ 1 (Z.of_nat left).
Proof.
  rewrite waits_retry_trace. apply list_fmap_ext.
  intros i k Hk. apply lookup_seqZ in Hk as [-> _].
  apply timer_backoff. lia.
Qed.

Lemma waits_retry_trace_short (p : prompt) (first : nat) (left : nat) :
  left <= 21 ->
  waits (retry_trace p first 1 left)
  = (fun k => 2 ^ k * 1000)%Z <$> seqZ 1 (Z.of_nat left).
Proof.
  intros Hleft. rewrite waits_retry_trace_clamped. apply list_fmap_ext.
  intros i k Hk. apply lookup_seqZ in Hk as [-> Hi].
  rewrite backoff_in_range by lia. reflexivity.
Qed.

(** X1: whatever the service answers, [callLLM] with [maxRetries >= 1] sends at
    least one and at most [maxRetries] requests, sets one timer after every
    attempt but the last and none elsewhere, is rejected only after
    [maxRetries] failed attempts, with the message of the last one, and
    otherwise returns the content of the last answer.  The timer after
    attempt [k] runs for [2^k] seconds as long as [2^k * 1000] milliseconds
    is at most [2^31 - 1] (up to attempt 21) and for one millisecond after
    every later attempt, Node replacing a longer delay by 1; with
    [maxRetries <= 22] every wait is [2^k] seconds. *)
Theorem callLLM_attempts_bounded (svc : service) (p : prompt)
    (maxRetries : Z) (c : client) :
  (1 <= maxRetries)%Z ->
  exists n,
    1 <= n <= Z.to_nat maxRetries /\
    (callLLM svc p maxRetries c).2
    = Client (requests c + n)
             (trace c ++ retry_trace p (requests c) 1 (n - 1)) /\
    attempts (retry_trace p (requests c) 1 (n - 1)) = n /\
    waits (retry_trace p (requests c) 1 (n - 1))
    = (fun k => if (2 ^ k * 1000 <=? 2147483647)%Z
                then 2 ^ k * 1000 else 1)%Z
        <$> seqZ 1 (Z.of_nat n - 1) /\
    ((maxRetries <= 22)%Z ->
     waits (retry_trace p (requests c) 1 (n - 1))
     = (fun k => 2 ^ k * 1000)%Z <$> seqZ 1 (Z.of_nat n - 1)) /\
    match (callLLM svc p maxRetries c).1 with
    | Rejected (ApiFailed r m) =>
      n = Z.to_nat maxRetries /\ r = maxRetries /\
      svc (requests c + n - 1) p = Failed m
    | Resolved content => svc (requests c + n - 1) p = Returned content
    end.
Proof.
  intros Hpos. unfold callLLM.
  destruct (Z.to_nat maxRetries) as [|fuel] eqn:Hfuel; [lia|].
  assert (maxRetries = 1 + Z.of_nat fuel)%Z as Hmax by lia.
  destruct (callLLM_from_shape svc p fuel 1 maxRetries c Hmax)
    as (left & Hle & Hstate & Hres).
  exists (S left). replace (S left - 1) with left by lia.
  replace (requests c + S left - 1) with (requests c + left) by lia.
  replace (Z.of_nat (S left) - 1)%Z with (Z.of_nat left) by lia.
  split; [lia|]. split; [exact Hstate|].
  split; [apply attempts_retry_trace|].
  split; [apply waits_retry_trace_clamped|].
  split; [intros Hsmall; apply waits_retry_trace_short; lia|].
  destruct (callLLM_from svc p (S fuel) 1 maxRetries c).1 as [content|[n m]];
    [exact Hres|].
  destruct Hres as (-> & Hn & Hm). auto.
Qed.

Lemma callLLM_attempts_bounded_witness :
  exists n,
    1 <= n <= Z.to_nat 3 /\
    (callLLM Examples.secondTry (OpeningPrompt [] [] []) 3 (Client 0 [])).2
    = Client (0 + n)
             ([] ++ retry_trace (OpeningPrompt [] [] []) 0 1 (n - 1)) /\
    attempts (retry_trace (OpeningPrompt [] [] []) 0 1 (n - 1)) = n /\
    waits (retry_trace (OpeningPrompt [] [] []) 0 1 (n - 1))
    = (fun k => if (2 ^ k * 1000 <=? 2147483647)%Z
                then 2 ^ k * 1000 else 1)%Z
        <$> seqZ 1 (Z.of_nat n - 1) /\
    ((3 <= 22)%Z ->
     waits (retry_trace (OpeningPrompt [] [] []) 0 1 (n - 1))
     = (fun k => 2 ^ k * 1000)%Z <$> seqZ 1 (Z.of_nat n - 1)) /\
    match (callLLM Examples.secondTry (OpeningPrompt [] [] []) 3
             (Client 0 [])).1 with
    | Rejected (ApiFailed r m) =>
      n = Z.to_nat 3 /\ r = 3%Z /\
      Examples.secondTry (0 + n - 1) (OpeningPrompt [] [] []) = Failed m
    | Resolved content =>
      Examples.secondTry (0 + n - 1) (OpeningPrompt [] [] [])
      = Returned content
    end.
Proof.
  apply (callLLM_attempts_bounded Examples.secondTry (OpeningPrompt [] [] [])
           3 (Client 0 [])).
  lia.
Defined.

(** X2: when the service fails [k - 1] times and then answers, [callLLM]
    returns that answer after exactly [k] requests, having waited after
    each of the failed attempts, and makes no further request. *)
Theorem callLLM_stops_at_first_answer (svc : service) (p : prompt)
    (maxRetries : Z) (c : client) (k : nat) (content : option str) :
  1 <= k <= Z.to_nat maxRetries ->
  (forall j, j < k - 1 -> exists m, svc (requests c + j) p = Failed m) ->
  svc (requests c + k - 1) p = Returned content ->
  callLLM svc p maxRetries c
  = (Resolved content,
     Client (requests c + k)
            (trace c ++ retry_trace p (requests c) 1 (k - 1))).
Proof.
  intros Hk Hfail Hanswer.
  assert (forall left fuel attempt c',
            left < fuel ->
            (attempt + Z.of_nat left <= maxRetries)%Z ->
            (forall j, j < left -> exists m, svc (requests c' + j) p = Failed m) ->
            svc (requests c' + left) p = Returned content ->
            callLLM_from svc p fuel attempt maxRetries c'
            = (Resolved content,
               Client (requests c' + S left)
                      (trace c' ++ retry_trace p (requests c') attempt left)))
    as Hloop.
  { induction left as [|left IH]; intros fuel attempt c' Hfuel Hmax Hf Ha;
      (destruct fuel as [|fuel]; [lia|]); cbn [callLLM_from fetch].
    - replace (attempt <=? maxRetries)%Z with true
        by (symmetry; apply Z.leb_le; lia).
      rewrite Nat.add_0_r in Ha. rewrite Ha. cbn [retry_trace].
      do 2 f_equal. lia.
    - replace (attempt <=? maxRetries)%Z with true
        by (symmetry; apply Z.leb_le; lia).
      destruct (Hf 0 ltac:(lia)) as [m Hm]. rewrite Nat.add_0_r in Hm.
      rewrite Hm.
      replace (attempt =? maxRetries)%Z with false
        by (symmetry; apply Z.eqb_neq; lia).
      rewrite IH.
      + cbn [requests trace sleep retry_trace]. f_equal. f_equal; [lia|].
        rewrite <- !app_assoc. reflexivity.
      + lia.
      + lia.
      + cbn [requests sleep]. intros j Hj.
        destruct (Hf (S j) ltac:(lia)) as [m' Hm']. exists m'.
        rewrite <- Hm'. f_equal. lia.
      + cbn [requests sleep]. rewrite <- Ha. f_equal. lia. }
  unfold callLLM.
  replace (requests c + k) with (requests c + S (k - 1)) by lia.
  apply Hloop.
  - lia.
  - lia.
  - exact Hfail.
  - rewrite <- Hanswer. f_equal. lia.
Qed.

Lemma callLLM_stops_at_first_answer_witness :
  callLLM Examples.secondTry (OpeningPrompt [] [] []) 3 (Client 0 [])
  = (Resolved (Some (lit "Better text.")),
     Client (0 + 2) ([] ++ retry_trace (OpeningPrompt [] [] []) 0 1 (2 - 1))).
Proof.
  apply (callLLM_stops_at_first_answer Examples.secondTry
           (OpeningPrompt [] [] []) 3 (Client 0 []) 2
           (Some (lit "Better text."))).
  - split; [lia|]. vm_compute. lia.
  - intros j Hj. assert (j = 0) as -> by lia. eexists. reflexivity.
  - reflexivity.
Defined.

End RewriterMore.

(** ** Backups *)

Section Backups.
Import Js.

(** X3: a backup brings the file back: after [createBackup], whatever is
    written to the file since, [restoreFromBackup] leaves the file with the
    content it had, removes the backup and touches no other path.  Without
    the file there is no backup, and without the backup no restoring. *)
Theorem backup_round_trip (d : Fs.disk) (filePath stamp content : str) :
  d !! filePath = Some content ->
  exists backupPath d1,
    Validator.createBackup d filePath stamp = Some (backupPath, d1) /\
    backupPath = filePath ++ lit ".backup." ++ stamp /\
    d1 !! filePath = Some content /\
    forall written,
    exists d2,
      Validator.restoreFromBackup (<[filePath := written]> d1) filePath
        backupPath = Some d2 /\
      d2 !! filePath = Some content /\
      d2 !! backupPath = None /\
      forall q, q <> backupPath -> d2 !! q = d !! q.
Proof.
  intros Hfile.
  pose proof (backupPath_fresh filePath stamp) as Hne.
  unfold Validator.createBackup, Fs.copyFileSync. rewrite Hfile.
  cbn [mbind option_bind]. eexists _, _. split; [reflexivity|].
  split; [reflexivity|].
  split; [rewrite lookup_insert_ne by exact Hne; exact Hfile|].
  intros written. unfold Validator.restoreFromBackup, Fs.copyFileSync.
  rewrite lookup_insert_ne by (intros E; apply Hne; symmetry; exact E).
  rewrite lookup_insert_eq. cbn [mbind option_bind]. unfold Fs.unlinkSync.
  rewrite lookup_insert_ne by (intros E; apply Hne; symmetry; exact E).
  rewrite lookup_insert_ne by (intros E; apply Hne; symmetry; exact E).
  rewrite lookup_insert_eq. eexists. split; [reflexivity|].
  split; [rewrite lookup_delete_ne by exact Hne; apply lookup_insert_eq|].
  split; [apply lookup_delete_eq|].
  intros q Hq.
  rewrite lookup_delete_ne by (intros E; apply Hq; symmetry; exact E).
  destruct (decide (q = filePath)) as [->|Hqf].
  - rewrite lookup_insert_eq. symmetry. exact Hfile.
  - rewrite !lookup_insert_ne by congruence. reflexivity.
Qed.

Lemma backup_round_trip_witness :
  exists backupPath d1,
    Validator.createBackup {[ Examples.path := Examples.article ]}
      Examples.path (lit "1700000000000") = Some (backupPath, d1) /\
    backupPath = Examples.path ++ lit ".backup." ++ lit "1700000000000" /\
    d1 !! Examples.path = Some Examples.article /\
    forall written,
    exists d2,
      Validator.restoreFromBackup (<[Examples.path := written]> d1)
        Examples.path backupPath = Some d2 /\
      d2 !! Examples.path = Some Examples.article /\
      d2 !! backupPath = None /\
      forall q, q <> backupPath ->
                d2 !! q
                = ({[ Examples.path := Examples.article ]} : Fs.disk) !! q.
Proof.
  apply (backup_round_trip {[ Examples.path := Examples.article ]}
           Examples.path (lit "1700000000000") Examples.article).
  apply lookup_singleton_eq.
Defined.

(** Neither call works on a missing file. *)
Lemma backup_needs_the_file (d : Fs.disk) (filePath stamp backupPath : str) :
  (d !! filePath = None -> Validator.createBackup d filePath stamp = None) /\
  (d !! backupPath = None ->
   Validator.restoreFromBackup d filePath backupPath = None).
Proof.
  split; intros H.
  - unfold Validator.createBackup, Fs.copyFileSync. rewrite H. reflexivity.
  - unfold Validator.restoreFromBackup, Fs.copyFileSync. rewrite H.
    reflexivity.
Qed.

End Backups.

(** ** The outcomes of [processArticle] *)

Section PipelineMore.
Import Js Processor Outcomes.

Ltac world_simpl :=
  unfold set_disk, set_validator, set_llm, push_result;
  cbn [disk llm validator processedFiles].

(** A text without surrogate code units is written and read back as it
    is. *)
Lemma toWellFormed_plain (s : str) :
  Forall (fun u => is_high_surrogate u || is_low_surrogate u = false) s ->
  toWellFormed s = s.
Proof.
  induction 1 as [|c t Hc _ IH]; [reflexivity|].
  apply orb_false_elim in Hc as [Hh Hl].
  cbn [toWellFormed]. rewrite Hh, Hl, IH. reflexivity.
Qed.

(** The inner [try] block on a disk that holds the backup: the candidate
    stays and the backup goes when the validator accepts, the backup is
    copied back and goes when it rejects. *)
Lemma commit_outcome absolutePath backupPath original candidate w :
  backupPath <> absolutePath ->
  disk w !! backupPath = Some original ->
  commit absolutePath backupPath original candidate w
  = let v := Validator.validateFile
               {[ absolutePath := toWellFormed candidate ]}
               absolutePath (Some original) (Validator.Validator [] []) in
    if Validator.valid v.1 then
      (Ok v.1,
       World (delete backupPath
                (<[absolutePath := toWellFormed candidate]> (disk w)))
             (llm w) v.2 (processedFiles w))
    else
      (Throw (ValidationFailed (Validator.v_errors v.1)),
       World (delete backupPath (<[absolutePath := original]> (disk w)))
             (llm w) v.2 (processedFiles w)).
Proof.
  intros Hne0 Hbackup.
  assert (absolutePath <> backupPath) as Hne by congruence.
  cbv zeta.
  unfold commit, try_catch, bind, writeFile, validateFile, Fs.writeFileSync.
  world_simpl.
  rewrite (validateFile_lookup _
             {[ absolutePath := toWellFormed candidate ]} _ _ _
             (Validator.Validator [] []))
    by (rewrite lookup_insert_eq, lookup_singleton_eq; reflexivity).
  destruct (Validator.validateFile
              {[ absolutePath := toWellFormed candidate ]}
              absolutePath (Some original) (Validator.Validator [] []))
    as [r v'].
  cbn [fst snd]. destruct (Validator.valid r); cbn [negb]; world_simpl.
  - unfold fs_do, Fs.unlinkSync. world_simpl.
    rewrite lookup_insert_ne by exact Hne. rewrite Hbackup.
    unfold ret. world_simpl. reflexivity.
  - unfold restoreFromBackup, fs_do, Validator.restoreFromBackup,
      Fs.copyFileSync, Fs.unlinkSync.
    world_simpl.
    rewrite lookup_insert_ne by exact Hne.
    rewrite Hbackup. cbn [mbind option_bind].
    rewrite lookup_insert_ne by exact Hne.
    rewrite lookup_insert_ne by exact Hne.
    rewrite Hbackup. unfold throw, existsFile, Fs.existsSync. world_simpl.
    rewrite lookup_delete_eq.
    rewrite bool_decide_eq_false_2 by (intros [x Hx]; discriminate).
    unfold ret. rewrite insert_insert_eq. reflexivity.
Qed.

(** [prepare] hands on nothing only before the first request. *)
Lemma prepare_skip e absolutePath w w1 :
  prepare e absolutePath w = (Ok None, w1) -> w1 = w.
Proof.
  unfold prepare. intros H.
  apply bind_Ok in H as (original & w0 & Hread & H).
  unfold readFile in Hread.
  destruct (Fs.readFileSync (disk w) absolutePath); [|discriminate].
  injection Hread as -> ->.
  destruct (parseFrontMatter original) as [[frontMatter content]|];
    [|discriminate].
  destruct (search false title_re frontMatter); [|discriminate].
  destruct (search false platform_re frontMatter); [|discriminate].
  cbv zeta in H.
  destruct (extractOpeningParagraph content) as [|x t];
    destruct (extractClosingParagraphs content) as [|y u];
    try (injection H as <-; reflexivity);
    apply bind_Ok in H as (nc & w2 & _ & H);
    apply bind_Ok in H as (nc' & w3 & _ & H);
    discriminate.
Qed.

(** The three ways through [processArticle]: the article is skipped, the
    first half of the [try] block throws, or a candidate is written and
    judged. *)
Lemma processArticle_cases e filePath w :
  processArticle e filePath w = (None, w) \/
  (exists err w1,
     prepare e (absolutePathOf e filePath) w = (Throw err, w1) /\
     processArticle e filePath w
     = (Some (Errored (absolutePathOf e filePath) (basename e filePath) err),
        World (disk w) (llm w1) (validator w)
              (processedFiles w
               ++ [Errored (absolutePathOf e filePath) (basename e filePath)
                     err]))) \/
  (exists c w1,
     prepare e (absolutePathOf e filePath) w = (Ok (Some c), w1) /\
     disk w !! absolutePathOf e filePath = Some (originalContent c) /\
     processArticle e filePath w
     = let v := verdict (absolutePathOf e filePath) c in
       let r :=
         if Validator.valid v.1 then
           Processed (absolutePathOf e filePath)
             (basename e (absolutePathOf e filePath)) (title c) (platform c)
             (changes c)
         else
           Errored (absolutePathOf e filePath) (basename e filePath)
             (ValidationFailed (Validator.v_errors v.1)) in
       (Some r,
        World (delete (backupPathOf e filePath)
                 (<[absolutePathOf e filePath :=
                      if Validator.valid v.1
                      then toWellFormed (newFileContent c)
                      else originalContent c]>
                    (<[backupPathOf e filePath := originalContent c]>
                       (disk w))))
              (llm w1) v.2 (processedFiles w ++ [r]))).
Proof.
  unfold processArticle. fold (absolutePathOf e filePath).
  set (absolutePath := absolutePathOf e filePath).
  pose proof (frames_prepare e absolutePath w) as (Hd & Hv & Hp).
  unfold processBody, bind.
  destruct (prepare e absolutePath w) as [[[c|]|err] w1] eqn:Hprep;
    cbn [snd] in Hd, Hv, Hp.
  - right. right. exists c, w1. split; [reflexivity|].
    pose proof (prepare_original _ _ _ _ _ Hprep) as Horig.
    split; [exact Horig|].
    unfold finish, bind, createBackup, Validator.createBackup,
      Fs.copyFileSync.
    rewrite Hd, Horig. cbn [mbind option_bind].
    fold (backupPathOf e filePath). set (backupPath := backupPathOf e filePath).
    rewrite commit_outcome;
      [|apply backupPath_fresh|world_simpl; apply lookup_insert_eq].
    cbv zeta. fold (verdict absolutePath c). world_simpl.
    destruct (Validator.valid (verdict absolutePath c).1); world_simpl;
      rewrite Hp; reflexivity.
  - left. apply prepare_skip in Hprep. subst w1. unfold ret. reflexivity.
  - right. left. exists err, w1. split; [reflexivity|].
    world_simpl. rewrite Hd, Hv, Hp. reflexivity.
Qed.

(** X4: an accepted candidate is committed: when the first half of the [try]
    block hands on a candidate and the validator finds no error in the
    file as written (warnings do not count), the file holds the candidate
    as [fs.writeFileSync] stores it, that is, read back from its UTF-8
    encoding, with U+FFFD for every surrogate code unit that has no
    partner, and unchanged when there is none; no backup is left, every
    other path is as before, and the one result recorded has status
    [success] and names the title, the platform and the changes. *)
Theorem accepted_candidate_is_committed (e : env) (filePath : str)
    (w : world) (c : candidate) (w1 : world) :
  prepare e (absolutePathOf e filePath) w = (Ok (Some c), w1) ->
  Validator.valid (verdict (absolutePathOf e filePath) c).1 = true ->
  exists r w',
    processArticle e filePath w = (Some r, w') /\
    r = Processed (absolutePathOf e filePath)
          (basename e (absolutePathOf e filePath)) (title c) (platform c)
          (changes c) /\
    result_status r = success /\
    disk w' !! absolutePathOf e filePath
    = Some (toWellFormed (newFileContent c)) /\
    (Forall (fun u => is_high_surrogate u || is_low_surrogate u = false)
       (newFileContent c) ->
     disk w' !! absolutePathOf e filePath = Some (newFileContent c)) /\
    disk w' !! backupPathOf e filePath = None /\
    (forall q, q <> absolutePathOf e filePath ->
               q <> backupPathOf e filePath -> disk w' !! q = disk w !! q) /\
    llm w' = llm w1 /\
    processedFiles w' = processedFiles w ++ [r].
Proof.
  intros Hprep Hvalid.
  destruct (processArticle_cases e filePath w)
    as [H|[(err & w2 & Hprep' & _)|(c' & w2 & Hprep' & _ & H)]].
  - exfalso. unfold processArticle in H.
    fold (absolutePathOf e filePath) in H.
    unfold processBody, bind in H. rewrite Hprep in H.
    destruct (finish e (absolutePathOf e filePath) c w1) as [[x|x] w2];
      discriminate.
  - rewrite Hprep in Hprep'. discriminate.
  - rewrite Hprep in Hprep'. injection Hprep' as <- <-.
    cbv zeta in H. rewrite Hvalid in H. eexists _, _.
    split; [exact H|]. split; [reflexivity|]. split; [reflexivity|].
    cbn [disk llm processedFiles].
    pose proof (backupPath_fresh (absolutePathOf e filePath) (now e)) as Hne.
    fold (backupPathOf e filePath) in Hne.
    split; [rewrite lookup_delete_ne by exact Hne; apply lookup_insert_eq|].
    split.
    { intros Hplain. rewrite lookup_delete_ne by exact Hne.
      rewrite lookup_insert_eq, toWellFormed_plain by exact Hplain.
      reflexivity. }
    split; [apply lookup_delete_eq|].
    split; [|split; reflexivity].
    intros q Hqa Hqb.
    rewrite lookup_delete_ne by congruence.
    rewrite !lookup_insert_ne by congruence. reflexivity.
Qed.

Lemma accepted_candidate_is_committed_witness :
  exists r w',
    processArticle Examples.polite Examples.path
      (Examples.holding Examples.article) = (Some r, w') /\
    r = Processed (absolutePathOf Examples.polite Examples.path)
          (basename Examples.polite
             (absolutePathOf Examples.polite Examples.path))
          (title Examples.politeCandidate)
          (platform Examples.politeCandidate)
          (changes Examples.politeCandidate) /\
    result_status r = success /\
    disk w' !! absolutePathOf Examples.polite Examples.path
    = Some (toWellFormed (newFileContent Examples.politeCandidate)) /\
    (Forall (fun u => is_high_surrogate u || is_low_surrogate u = false)
       (newFileContent Examples.politeCandidate) ->
     disk w' !! absolutePathOf Examples.polite Examples.path
     = Some (newFileContent Examples.politeCandidate)) /\
    disk w' !! backupPathOf Examples.polite Examples.path = None /\
    (forall q, q <> absolutePathOf Examples.polite Examples.path ->
               q <> backupPathOf Examples.polite Examples.path ->
               disk w' !! q = disk (Examples.holding Examples.article) !! q) /\
    llm w' = llm Examples.politeWorld /\
    processedFiles w'
    = processedFiles (Examples.holding Examples.article) ++ [r].
Proof.
  apply (accepted_candidate_is_committed Examples.polite Examples.path
           (Examples.holding Examples.article) Examples.politeCandidate
           Examples.politeWorld).
  - vm_compute. reflexivity.
  - vm_compute. reflexivity.
Defined.

(** X5: what [processArticle] leaves alone, whatever the file, the service and
    the validator do: it touches no path but the file's and the backup's;
    it records exactly the result it returns, at the end of the list; an
    article it skips changes nothing at all; and whenever the result has
    status [error], the file holds what it held before the call. *)
Theorem processArticle_frame (e : env) (filePath : str) (w : world) :
  (forall q, q <> absolutePathOf e filePath -> q <> backupPathOf e filePath ->
             disk (processArticle e filePath w).2 !! q = disk w !! q) /\
  processedFiles (processArticle e filePath w).2
  = processedFiles w ++ option_list (processArticle e filePath w).1 /\
  ((processArticle e filePath w).1 = None ->
   (processArticle e filePath w).2 = w) /\
  (forall r, (processArticle e filePath w).1 = Some r ->
             result_path r = absolutePathOf e filePath /\
             (result_status r = error ->
              disk (processArticle e filePath w).2 !! absolutePathOf e filePath
              = disk w !! absolutePathOf e filePath)).
Proof.
  pose proof (backupPath_fresh (absolutePathOf e filePath) (now e)) as Hne.
  fold (backupPathOf e filePath) in Hne.
  destruct (processArticle_cases e filePath w)
    as [H|[(err & w1 & _ & H)|(c & w1 & _ & Horig & H)]];
    rewrite H; cbv zeta; cbn [fst snd disk processedFiles option_list].
  - rewrite app_nil_r. repeat split; try reflexivity; discriminate.
  - split; [reflexivity|]. split; [reflexivity|].
    split; [discriminate|]. intros r [= <-]. split; reflexivity.
  - split; [|split; [reflexivity|split; [discriminate|]]].
    + intros q Hqa Hqb. rewrite lookup_delete_ne by congruence.
      rewrite !lookup_insert_ne by congruence. reflexivity.
    + intros r [= <-].
      destruct (Validator.valid (verdict (absolutePathOf e filePath) c).1);
        (split; [reflexivity|]); cbn [result_status]; [discriminate|].
      intros _. rewrite lookup_delete_ne by exact Hne.
      rewrite lookup_insert_eq. symmetry. exact Horig.
Qed.

End PipelineMore.

(** ** Files that cannot be processed, batches and the report *)

Section Batches.
Import Js Processor Outcomes.

(** X6: a file that cannot be read, has no front matter, or names no title or
    no platform in it, yields a result with status [error] that carries the
    cause; no request is sent and nothing is written. *)
Theorem malformed_article_is_an_error (e : env) (filePath : str) (w : world) :
  (disk w !! absolutePathOf e filePath = None ->
   processArticle e filePath w
   = (Some (Errored (absolutePathOf e filePath) (basename e filePath)
              ReadFailed),
      push_result (Errored (absolutePathOf e filePath) (basename e filePath)
                     ReadFailed) w)) /\
  (forall original,
     disk w !! absolutePathOf e filePath = Some original ->
     parseFrontMatter original = None ->
     processArticle e filePath w
     = (Some (Errored (absolutePathOf e filePath) (basename e filePath)
                NoFrontMatter),
        push_result (Errored (absolutePathOf e filePath) (basename e filePath)
                       NoFrontMatter) w)) /\
  (forall original frontMatter content,
     disk w !! absolutePathOf e filePath = Some original ->
     parseFrontMatter original = Some (frontMatter, content) ->
     search false title_re frontMatter = None \/
     search false platform_re frontMatter = None ->
     processArticle e filePath w
     = (Some (Errored (absolutePathOf e filePath) (basename e filePath)
                NoTitleOrPlatform),
        push_result (Errored (absolutePathOf e filePath) (basename e filePath)
                       NoTitleOrPlatform) w)).
Proof.
  unfold processArticle. fold (absolutePathOf e filePath).
  unfold processBody, prepare, bind, readFile, Fs.readFileSync.
  split; [|split].
  - intros ->. reflexivity.
  - intros original -> ->. reflexivity.
  - intros original frontMatter content -> -> [H|H].
    + rewrite H. reflexivity.
    + rewrite H. destruct (search false title_re frontMatter); reflexivity.
Qed.

Lemma malformed_article_is_an_error_witness :
  processArticle Examples.polite Examples.path
    (Examples.holding Examples.untitled)
  = (Some (Errored Examples.path Examples.path NoTitleOrPlatform),
     push_result (Errored Examples.path Examples.path NoTitleOrPlatform)
       (Examples.holding Examples.untitled)).
Proof.
  refine (proj2 (proj2 (malformed_article_is_an_error Examples.polite
                          Examples.path
                          (Examples.holding Examples.untitled)))
            Examples.untitled (Examples.parsed Examples.untitled).1
            (Examples.parsed Examples.untitled).2 _ _ _).
  - vm_compute. reflexivity.
  - vm_compute. reflexivity.
  - left. vm_compute. reflexivity.
Defined.

Lemma length_absolutePaths_from envs articlePaths :
  forall i, length (absolutePaths_from envs i articlePaths)
            = length articlePaths.
Proof.
  induction articlePaths as [|p more IH]; intros i; [reflexivity|].
  cbn. rewrite IH. reflexivity.
Qed.

(** What one article adds to the results and leaves of the disk. *)
Lemma processArticle_pushes e filePath w :
  exists l,
    processedFiles (processArticle e filePath w).2 = processedFiles w ++ l /\
    sublist (result_path <$> l) [absolutePathOf e filePath] /\
    forall q, q <> absolutePathOf e filePath -> q <> backupPathOf e filePath ->
              disk (processArticle e filePath w).2 !! q = disk w !! q.
Proof.
  destruct (processArticle_cases e filePath w)
    as [H|[(err & w1 & _ & H)|(c & w1 & _ & _ & H)]];
    rewrite H; cbv zeta; cbn [snd disk processedFiles].
  - exists []. rewrite app_nil_r. split; [reflexivity|].
    split; [apply sublist_nil_l|reflexivity].
  - eexists [_]. split; [reflexivity|]. split; [reflexivity|reflexivity].
  - eexists [_]. split; [reflexivity|]. split.
    + destruct (Validator.valid _); reflexivity.
    + intros q Hqa Hqb. rewrite lookup_delete_ne by congruence.
      rewrite !lookup_insert_ne by congruence. reflexivity.
Qed.

Lemma processArticles_from_pushes envs articlePaths :
  forall i w,
  exists l,
    processedFiles (processArticles_from envs i articlePaths w)
    = processedFiles w ++ l /\
    sublist (result_path <$> l) (absolutePaths_from envs i articlePaths) /\
    forall q,
      (forall k path, articlePaths !! k = Some path ->
                      q <> absolutePathOf (envs (i + k)) path /\
                      q <> backupPathOf (envs (i + k)) path) ->
      disk (processArticles_from envs i articlePaths w) !! q = disk w !! q.
Proof.
  induction articlePaths as [|path more IH]; intros i w.
  - exists []. cbn. rewrite app_nil_r. split; [reflexivity|].
    split; [constructor|reflexivity].
  - cbn [processArticles_from absolutePaths_from].
    destruct (processArticle_pushes (envs i) path w) as (l1 & Hp1 & Hs1 & Hd1).
    set (w1 := (processArticle (envs i) path w).2) in *.
    set (w2 := match more with
               | [] => w1
               | _ :: _ => set_llm (Rewriter.delay 3000 (llm w1)) w1
               end).
    assert (processedFiles w2 = processedFiles w1 /\ disk w2 = disk w1)
      as [Hp2 Hd2] by (unfold w2; destruct more; split; reflexivity).
    destruct (IH (S i) w2) as (l2 & Hp & Hs & Hd).
    exists (l1 ++ l2). split; [|split].
    + rewrite Hp, Hp2, Hp1, app_assoc. reflexivity.
    + rewrite fmap_app.
      change (absolutePathOf (envs i) path
              :: absolutePaths_from envs (S i) more)
        with ([absolutePathOf (envs i) path]
              ++ absolutePaths_from envs (S i) more).
      apply sublist_app; assumption.
    + intros q Hq. rewrite Hd.
      * rewrite Hd2. apply Hd1.
        -- pose proof (Hq 0 path eq_refl) as [H _].
           rewrite Nat.add_0_r in H. exact H.
        -- pose proof (Hq 0 path eq_refl) as [_ H].
           rewrite Nat.add_0_r in H. exact H.
      * intros k p Hk. pose proof (Hq (S k) p Hk) as H.
        rewrite Nat.add_succ_r in H. exact H.
Qed.

(** X7: a batch only appends to the results: [processArticles] returns the
    list the processor keeps, which is the list it had with results for
    some of the given files added in the order of the files, at most one
    for each; and it touches no path that is neither one of the files nor
    one of their backups. *)
Theorem processArticles_appends (envs : nat -> env) (articlePaths : list str)
    (w : world) :
  exists l,
    (processArticles envs articlePaths w).1 = processedFiles w ++ l /\
    processedFiles (processArticles envs articlePaths w).2
    = processedFiles w ++ l /\
    sublist (result_path <$> l) (absolutePaths_from envs 0 articlePaths) /\
    length l <= length articlePaths /\
    forall q,
      (forall k path, articlePaths !! k = Some path ->
                      q <> absolutePathOf (envs k) path /\
                      q <> backupPathOf (envs k) path) ->
      disk (processArticles envs articlePaths w).2 !! q = disk w !! q.
Proof.
  destruct (processArticles_from_pushes envs articlePaths 0 w)
    as (l & Hp & Hs & Hd).
  exists l. unfold processArticles. cbn [fst snd].
  split; [exact Hp|]. split; [exact Hp|]. split; [exact Hs|].
  split; [|exact Hd].
  apply sublist_length in Hs. rewrite length_fmap in Hs.
  rewrite length_absolutePaths_from in Hs. exact Hs.
Qed.

Lemma status_partition (l : list result) :
  length (List.filter is_success l) + length (List.filter is_error l)
  = length l.
Proof.
  induction l as [|r l IH]; [reflexivity|].
  cbn [List.filter]. unfold is_success at 1, is_error at 1.
  destruct (result_status r); cbn [length]; lia.
Qed.

(** X8: the report accounts for every result once: the total is the number of
    results recorded, and the successful and the failed add up to it;
    nothing has failed exactly when every result has status [success].
    The report lists the results as recorded, leaves them in place and
    writes one file. *)
Theorem generateReport_counts (render : report -> str) (w : world) :
  total (r_summary (generateReport render w).1)
  = successful (r_summary (generateReport render w).1)
    + failed (r_summary (generateReport render w).1) /\
  total (r_summary (generateReport render w).1) = length (processedFiles w) /\
  (failed (r_summary (generateReport render w).1) = 0 <->
   Forall (fun r => result_status r = success) (processedFiles w)) /\
  files (generateReport render w).1 = processedFiles w /\
  processedFiles (generateReport render w).2 = processedFiles w /\
  disk (generateReport render w).2
  = <[lit "processing-report.json" :=
        toWellFormed (render (generateReport render w).1)]> (disk w).
Proof.
  unfold generateReport.
  cbn [fst snd r_summary total successful failed files].
  split; [symmetry; apply status_partition|]. split; [reflexivity|].
  split; [|repeat split].
  induction (processedFiles w) as [|r l IH].
  - split; [constructor|reflexivity].
  - cbn [List.filter]. unfold is_error at 1 3.
    destruct (result_status r) eqn:Hr.
    + rewrite IH. split; [intros H; constructor; assumption|].
      intros H. inversion H. assumption.
    + split; [discriminate|]. intros H. inversion H as [|? ? Hs _].
      congruence.
Qed.

End Batches.

(** ** The requests of one article *)

Section Requests.
Import Js Processor Outcomes.

(** A request that is answered at once. *)
Lemma callLLM_answered (svc : Rewriter.service) (p : Rewriter.prompt)
    (c : Rewriter.client) (content : option str) :
  svc (Rewriter.requests c) p = Rewriter.Returned content ->
  Rewriter.callLLM svc p 3 c
  = (Rewriter.Resolved content,
     Rewriter.Client (S (Rewriter.requests c))
       (Rewriter.trace c ++ [Rewriter.Request (Rewriter.requests c) p])).
Proof.
  intros H. unfold Rewriter.callLLM. change (Z.to_nat 3) with 3.
  cbn [Rewriter.callLLM_from]. change (1 <=? 3)%Z with true.
  unfold Rewriter.fetch. rewrite H. reflexivity.
Qed.

Lemma attempts_app (t u : list Rewriter.event) :
  Rewriter.attempts (t ++ u) = Rewriter.attempts t + Rewriter.attempts u.
Proof.
  induction t as [|[n p|ms] t IH]; cbn; [reflexivity| |]; rewrite IH;
    reflexivity.
Qed.

(** X9: with a service that answers every request with a text, the loop over
    the closing paragraphs sends one request for each paragraph, in order
    and with the paragraph as it was extracted, waits two seconds between
    two requests and not after the last, and ends without an error; it
    leaves the disk alone. *)
Theorem rewriteClosings_requests (e : env) (title platform : str)
    (paragraphs : list str) (newContent : str) (w : world) :
  (forall n p, exists text, svc e n p = Rewriter.Returned (Some text)) ->
  exists newContent' w',
    rewriteClosings e title platform paragraphs newContent w
    = (Ok newContent', w') /\
    llm w'
    = Rewriter.Client (Rewriter.requests (llm w) + length paragraphs)
        (Rewriter.trace (llm w)
         ++ paced (Rewriter.requests (llm w)) title platform paragraphs) /\
    Rewriter.attempts (Rewriter.trace (llm w'))
    = Rewriter.attempts (Rewriter.trace (llm w)) + length paragraphs /\
    disk w' = disk w /\
    processedFiles w' = processedFiles w.
Proof.
  intros Hsvc. revert newContent w.
  induction paragraphs as [|paragraph more IH]; intros newContent w.
  - exists newContent, w. split; [reflexivity|].
    destruct (llm w) as [n t]. cbn. rewrite Nat.add_0_r, app_nil_r.
    repeat split; lia.
  - cbn [rewriteClosings]. unfold bind at 1. unfold rewritten.
    unfold Rewriter.rewriteClosingParagraph.
    destruct (Hsvc (Rewriter.requests (llm w))
                (Rewriter.ClosingPrompt paragraph title platform))
      as [text Htext].
    rewrite (callLLM_answered _ _ _ _ Htext).
    unfold bind at 1.
    set (w1 := set_llm _ w).
    set (w2 := (match more with [] => ret tt | _ :: _ => delay 2000 end w1).2).
    assert (match more with [] => ret tt | _ :: _ => delay 2000 end w1
            = (Ok tt, w2)) as -> by (unfold w2; destruct more; reflexivity).
    destruct (IH (replace_str newContent paragraph (trim text)) w2)
      as (nc & w' & Hrun & Hllm & Hatt & Hdisk & Hfiles).
    exists nc, w'. split; [exact Hrun|].
    assert (disk w2 = disk w /\ processedFiles w2 = processedFiles w)
      as [Hd2 Hp2] by (unfold w2, w1; destruct more; split; reflexivity).
    rewrite Hdisk, Hfiles, Hatt, Hllm.
    split; [|split; [|split; assumption]].
    + unfold w2, w1. destruct more as [|p2 more'].
      * cbn. rewrite Nat.add_0_r, app_nil_r. f_equal. lia.
      * cbn [snd delay set_llm llm Rewriter.delay Rewriter.sleep
               Rewriter.requests Rewriter.trace].
        cbn [paced length]. rewrite <- !app_assoc. cbn [app].
        f_equal. lia.
    + unfold w2, w1. cbn [length].
      destruct more as [|p2 more'];
        cbn [snd ret delay set_llm llm Rewriter.delay Rewriter.sleep
               Rewriter.requests Rewriter.trace];
        rewrite ?attempts_app; cbn [Rewriter.attempts]; lia.
Qed.

Lemma rewriteClosings_requests_witness :
  exists newContent' w',
    rewriteClosings Examples.polite (lit "Convert") (lit "java")
      [lit "Closing one."; lit "Closing two."]
      (lit "Closing one. Closing two.")
      (Examples.holding Examples.article)
    = (Ok newContent', w') /\
    llm w'
    = Rewriter.Client
        (Rewriter.requests (llm (Examples.holding Examples.article)) + 2)
        (Rewriter.trace (llm (Examples.holding Examples.article))
         ++ paced (Rewriter.requests (llm (Examples.holding Examples.article)))
              (lit "Convert") (lit "java")
              [lit "Closing one."; lit "Closing two."]) /\
    Rewriter.attempts (Rewriter.trace (llm w'))
    = Rewriter.attempts
        (Rewriter.trace (llm (Examples.holding Examples.article))) + 2 /\
    disk w' = disk (Examples.holding Examples.article) /\
    processedFiles w' = processedFiles (Examples.holding Examples.article).
Proof.
  apply (rewriteClosings_requests Examples.polite (lit "Convert") (lit "java")
           [lit "Closing one."; lit "Closing two."]
           (lit "Closing one. Closing two.")
           (Examples.holding Examples.article)).
  intros n p. eexists. reflexivity.
Defined.

End Requests.

(** ** What the validator accepts *)

Section ValidatorMore.
Import Js Validator Stages.

Local Arguments afterStructure : simpl never.
Local Arguments afterGists : simpl never.
Local Arguments gists : simpl never.

Lemma compareGists_same l : forall i v, compareGists i l l v = v.
Proof.
  induction l as [|x l IH]; intros i v; [reflexivity|].
  cbn [compareGists]. unfold str_eqb.
  rewrite bool_decide_eq_true_2 by reflexivity. apply IH.
Qed.

Lemma compareHeadings_same l : forall i v, compareHeadings i l l v = v.
Proof.
  induction l as [|x l IH]; intros i v; [reflexivity|].
  cbn [compareHeadings]. unfold str_eqb.
  rewrite bool_decide_eq_true_2 by reflexivity. apply IH.
Qed.

(** Of the checks that follow the gists, the count of internal links
    alone can add an error. *)
Lemma errors_afterAll original content :
  errors (afterAll original content)
  = errors (afterGists original content)
    ++ (if length (match_g false internalLink_re original)
           =? length (match_g false internalLink_re content)
        then []
        else [InternalLinkCountMismatch
                (length (match_g false internalLink_re original))
                (length (match_g false internalLink_re content))]).
Proof.
  unfold afterAll, validateContentLength, validateLinksPreservation,
    validateHeadingsPreservation.
  cbv zeta. cbn [snd].
  set (vh := compareHeadings _ _ _ _).
  assert (errors vh = errors (afterGists original content)) as Hh.
  { unfold vh. rewrite errors_compareHeadings.
    destruct (negb _); reflexivity. }
  clearbody vh.
  set (vl := if negb (length (match_g false link_re original)
                      =? length (match_g false link_re content))
             then _ else vh).
  assert (errors vl = errors vh) as Hl
    by (unfold vl; destruct (negb _); reflexivity).
  clearbody vl.
  destruct (length (match_g false internalLink_re original)
            =? length (match_g false internalLink_re content)); cbn [negb];
    repeat match goal with
           | |- context [if ?b then _ else _] => destruct b
           end;
    cbn [errors push_warning push_error]; rewrite Hl, Hh, ?app_nil_r;
    reflexivity.
Qed.

Lemma no_errors_nil v : no_errors v = true <-> errors v = [].
Proof.
  unfold no_errors. destruct (errors v); split; intros H;
    first [reflexivity|discriminate].
Qed.

(** The checks on the candidate alone. *)
Lemma afterStructure_clean content :
  errors (afterStructure content) = [] <->
  (exists frontMatter,
     frontMatterOf content = Some frontMatter /\
     forall field : str, field ∈ requiredFields ->
                   includes frontMatter (field ++ [58%N]) = true) /\
  Spec.count_char 91%N content = Spec.count_char 93%N content /\
  length (match_g false fence_re content) mod 2 = 0.
Proof.
  rewrite errors_afterStructure, !match_g_chr.
  assert (errors (validateFrontMatter content (Validator [] [])).2 = [] <->
          exists frontMatter,
            frontMatterOf content = Some frontMatter /\
            forall field : str, field ∈ requiredFields ->
                          includes frontMatter (field ++ [58%N]) = true)
    as Hfm.
  { destruct (frontMatterOf content) as [fm|] eqn:Hof.
    - rewrite (errors_validateFrontMatter _ _ _ Hof). cbn [errors app].
      split.
      + intros H. exists fm. split; [reflexivity|]. intros field Hin.
        destruct (includes fm (field ++ [58%N])) eqn:Hinc; [reflexivity|].
        exfalso.
        assert (field ∈ List.filter (absent fm) requiredFields) as Hf.
        { apply list_elem_of_In, List.filter_In.
          split; [apply list_elem_of_In; exact Hin|].
          unfold absent. rewrite Hinc. reflexivity. }
        apply (list_elem_of_fmap_2 MissingRequiredField) in Hf.
        rewrite H in Hf. inversion Hf.
      + intros (fm' & [= <-] & Hall).
        replace (List.filter (absent fm) requiredFields) with (@nil str);
          [reflexivity|].
        symmetry. induction requiredFields as [|f fs IH]; [reflexivity|].
        cbn [List.filter]. unfold absent at 1.
        rewrite (Hall f) by constructor. cbn [negb].
        apply IH. intros field Hin. apply Hall. constructor. exact Hin.
    - split.
      + unfold frontMatterOf in Hof. unfold validateFrontMatter.
        destruct (search false frontMatter_re content); [discriminate|].
        cbn. discriminate.
      + intros (fm & [=] & _). }
  rewrite <- Hfm.
  destruct (Spec.count_char 91%N content =? Spec.count_char 93%N content)
    eqn:Hb;
    [apply Nat.eqb_eq in Hb|apply Nat.eqb_neq in Hb];
    (destruct (length (match_g false fence_re content) mod 2 =? 0) eqn:Hf;
     [apply Nat.eqb_eq in Hf|apply Nat.eqb_neq in Hf]);
    cbn [negb]; rewrite ?app_nil_r; split;
    try (intros H; apply app_eq_nil in H as [H1 H2]; try discriminate);
    try (intros H; apply app_eq_nil in H as [H1 H2];
         apply app_eq_nil in H1 as [H1 H3]; discriminate);
    try (intros (H1 & H2 & H3); contradiction);
    try (intros H; repeat split; assumption);
    try (intros (H1 & _ & _); exact H1).
Qed.

(** X10: what it takes to be accepted.  [validateFile] accepts the file
    exactly when it has a front matter in which every required field name
    occurs followed by a colon, has as many opening as closing square
    brackets and an even number of code fences, and, if an original with
    some text in it is given, has the gists of the original, one by one,
    and as many internal links.  Headings, links and length have no say. *)
Theorem validateFile_accepts_iff (d : Fs.disk) (path content : str)
    (original : option str) (v : validator) :
  d !! path = Some content ->
  valid (validateFile d path original v).1 = true <->
  (exists frontMatter,
     frontMatterOf content = Some frontMatter /\
     forall field : str, field ∈ requiredFields ->
                   includes frontMatter (field ++ [58%N]) = true) /\
  Spec.count_char 91%N content = Spec.count_char 93%N content /\
  length (match_g false fence_re content) mod 2 = 0 /\
  (truthy original = true ->
   gists content = gists (default [] original) /\
   length (match_g false internalLink_re content)
   = length (match_g false internalLink_re (default [] original))).
Proof.
  intros Hfile.
  destruct (truthy original) eqn:Htruthy.
  - destruct original as [[|x t]|]; try discriminate.
    rewrite (validateFile_compared _ _ _ _ _ Hfile) by discriminate.
    cbn [fst valid default]. set (o := x :: t).
    rewrite no_errors_nil, errors_afterAll, errors_afterGists.
    split.
    + intros H. apply app_eq_nil in H as [Hg Hl].
      destruct (length (match_g false internalLink_re o)
                =? length (match_g false internalLink_re content)) eqn:Hil;
        [|discriminate].
      apply Nat.eqb_eq in Hil.
      destruct (length (gists o) =? length (gists content)) eqn:Hlen.
      * apply Nat.eqb_eq in Hlen.
        pose proof (compareGists_clean _ _ _ _ Hlen Hg) as Heq.
        rewrite Heq, compareGists_same in Hg.
        apply afterStructure_clean in Hg as (H1 & H2 & H3).
        split; [exact H1|]. split; [exact H2|]. split; [exact H3|].
        intros _. split; [symmetry; exact Heq|symmetry; exact Hil].
      * apply app_eq_nil in Hg as [_ Hg]. discriminate.
    + intros (H1 & H2 & H3 & Hrest). destruct (Hrest eq_refl) as [Hg Hil].
      rewrite Hg, Hil, !Nat.eqb_refl, compareGists_same, app_nil_r.
      apply afterStructure_clean. repeat split; assumption.
  - rewrite (validateFile_alone _ _ _ _ _ Hfile Htruthy).
    cbn [fst valid]. rewrite no_errors_nil, afterStructure_clean.
    split.
    + intros (H1 & H2 & H3). repeat split; try assumption; discriminate.
    + intros (H1 & H2 & H3 & _). repeat split; assumption.
Qed.

Lemma validateFile_accepts_iff_witness :
  valid (validateFile {[ Examples.path := Examples.article ]} Examples.path
           (Some Examples.article) (Validator [] [])).1 = true <->
  (exists frontMatter,
     frontMatterOf Examples.article = Some frontMatter /\
     forall field : str, field ∈ requiredFields ->
                   includes frontMatter (field ++ [58%N]) = true) /\
  Spec.count_char 91%N Examples.article
  = Spec.count_char 93%N Examples.article /\
  length (match_g false fence_re Examples.article) mod 2 = 0 /\
  (truthy (Some Examples.article) = true ->
   gists Examples.article = gists (default [] (Some Examples.article)) /\
   length (match_g false internalLink_re Examples.article)
   = length (match_g false internalLink_re
               (default [] (Some Examples.article)))).
Proof.
  apply (validateFile_accepts_iff {[ Examples.path := Examples.article ]}
           Examples.path Examples.article (Some Examples.article)
           (Validator [] [])).
  apply lookup_singleton_eq.
Defined.

(** X11: a file compared with itself passes every comparison: validating it
    against its own content gives the result, messages and all, of
    validating it alone. *)
Theorem validateFile_against_itself (d : Fs.disk) (path content : str)
    (v : validator) :
  d !! path = Some content ->
  validateFile d path (Some content) v = validateFile d path None v.
Proof.
  intros Hfile. destruct content as [|x t].
  - rewrite !(validateFile_alone _ _ _ _ _ Hfile) by reflexivity.
    reflexivity.
  - rewrite (validateFile_compared _ _ _ _ _ Hfile) by discriminate.
    rewrite (validateFile_alone _ _ None _ _ Hfile) by reflexivity.
    assert (afterAll (x :: t) (x :: t) = afterStructure (x :: t)) as ->;
      [|reflexivity].
    unfold afterAll, afterGists, validateContentLength,
      validateLinksPreservation, validateHeadingsPreservation,
      validateGistPreservation.
    cbv zeta. rewrite !Nat.eqb_refl. cbn [negb snd].
    rewrite compareGists_same, compareHeadings_same.
    replace (2 * length (x :: t) <? length (x :: t)) with false
      by (symmetry; apply Nat.ltb_ge; lia).
    reflexivity.
Qed.

Lemma validateFile_against_itself_witness :
  validateFile {[ Examples.path := Examples.article ]} Examples.path
    (Some Examples.article) (Validator [] [])
  = validateFile {[ Examples.path := Examples.article ]} Examples.path None
      (Validator [] []).
Proof.
  apply (validateFile_against_itself {[ Examples.path := Examples.article ]}
           Examples.path Examples.article (Validator [] [])).
  apply lookup_singleton_eq.
Defined.

End ValidatorMore.

(** ** The front matter of a document *)

Section FrontMatterLayout.
Import Js Scan Layout.

(** An optional character, greedy. *)
Lemma run_Opt ml (c : char) (st : mstate) (k : cont) :
  run ml (Rep 0 (Some 1) true (Chr c)) st k
  = match rest st with
    | x :: t =>
      if (x =? c)%N then
        match k (MState (Some x) t (caps st)) with
        | Some z => Some z
        | None => k st
        end
      else k st
    | [] => k st
    end.
Proof.
  cbn [run]. destruct st as [p [|x t] cs]; cbn [rest caps length Nat.add].
  - cbn. reflexivity.
  - cbn [rep Nat.eqb negb andb option_map pred run Chr rest caps atom_ok].
    destruct (x =? c)%N; [|reflexivity].
    cbn [rest length].
    replace (length t =? S (length t)) with false
      by (symmetry; apply Nat.eqb_neq; lia).
    reflexivity.
Qed.

Lemma run_Chr_strip ml (c : char) (st : mstate) (k : cont) :
  run ml (Chr c) st k
  = match Spec.strip_prefix [c] (rest st) with
    | Some t => k (MState (Some c) t (caps st))
    | None => None
    end.
Proof.
  rewrite run_Chr. unfold Spec.strip_prefix.
  destruct (rest st) as [|x t]; [reflexivity|].
  cbn [starts_with]. rewrite andb_true_r, (N.eqb_sym c x).
  destruct (x =? c)%N eqn:E; [|reflexivity].
  apply N.eqb_eq in E. subst x. reflexivity.
Qed.

Lemma run_dashes ml (st : mstate) (k : cont) :
  run ml (Lit (lit "---")) st k
  = match dashes (rest st) with
    | Some t => k (MState (Some 45%N) t (caps st))
    | None => None
    end.
Proof.
  rewrite run_Lit, <- (mstate_eta st), strip_strip_prefix.
  cbn [rest caps]. unfold dashes.
  destruct (Spec.strip_prefix (lit "---") (rest st)); reflexivity.
Qed.

(** An end of line, then the rest of the pattern. *)
Lemma run_line_end (r : regex) (st : mstate) (k : cont) :
  run false (Seq Processor.optCR (Seq (Chr LF) r)) st k
  = match line_end (rest st) with
    | Some u => run false r (MState (Some LF) u (caps st)) k
    | None => None
    end.
Proof.
  rewrite run_Seq. unfold Processor.optCR. rewrite run_Opt.
  destruct st as [p [|x t] cs]; cbn [rest caps line_end].
  - rewrite run_Seq, run_Chr. reflexivity.
  - rewrite !run_Seq, !run_Chr. cbn [rest caps].
    destruct (N.eqb_spec x CR) as [->|Hx].
    + change (CR =? LF)%N with false. cbv iota.
      destruct t as [|d u]; [reflexivity|].
      destruct (N.eqb_spec d LF) as [->|]; [|reflexivity].
      destruct (run false r _ k); reflexivity.
    + destruct (N.eqb_spec x LF) as [->|]; reflexivity.
Qed.

Lemma drop_while_anychar (s : str) : drop_while (atom_ok anychar) s = [].
Proof.
  induction s as [|x t IH]; [reflexivity|].
  cbn [drop_while]. rewrite anychar_ok. exact IH.
Qed.

(** The rest of the text as a group, up to the end of the input. *)
Lemma run_rest_group (n : nat) (st : mstate) :
  caps <$> run false (Seq (Group n (Star (One anychar))) Eol) st Some
  = Some ((n, rest st) :: caps st).
Proof.
  rewrite run_Seq. cbn [run]. fold (Star (One anychar)).
  change (rep (run false (One anychar)) _ 0 None true st)
    with (run false (Star (One anychar)) st).
  rewrite run_Star, star_try_all.
  - pose proof (skip_all_drop_while anychar (rest st) (prev st) (caps st))
      as Hrest.
    rewrite drop_while_anychar in Hrest.
    unfold at_eol. cbn [rest]. rewrite Hrest.
    cbn [fmap option_fmap option_map caps]. unfold consumed.
    rewrite Hrest, skip_all_caps. cbn [length].
    rewrite Nat.sub_0_r, firstn_all. reflexivity.
  - intros p' x t cs' _. reflexivity.
Qed.

(** The lazy group before a delimiter ends at the first delimiter. *)
Lemma lazy_try_cut (delim : str -> option str) (K : cont)
    (more : str -> list (nat * str)) (st0 : mstate) :
  (forall p s cs,
     caps <$> K (MState p s cs) = (fun u => more u ++ cs) <$> delim s) ->
  forall s pre p,
    rest st0 = pre ++ s ->
    caps <$> lazy_try anychar p s (caps st0)
               (fun st' =>
                  K (MState (prev st') (rest st')
                       ((1, consumed st0 st') :: caps st')))
    = (fun au => more au.2 ++ (1, pre ++ au.1) :: caps st0)
        <$> cut_at delim s.
Proof.
  intros HK. induction s as [|x t IH]; intros pre p Hpre;
    cbn [lazy_try cut_at prev rest caps].
  - unfold consumed. cbn [rest length]. rewrite Nat.sub_0_r, firstn_all.
    rewrite Hpre, app_nil_r.
    specialize (HK p [] ((1, pre) :: caps st0)).
    destruct (K _) as [z|], (delim []) as [u|]; try discriminate;
      cbn [fmap option_fmap option_map fst snd] in *; [|reflexivity].
    rewrite app_nil_r. exact HK.
  - assert (consumed st0 (MState p (x :: t) (caps st0)) = pre) as ->.
    { unfold consumed. cbn [rest]. rewrite Hpre, length_app.
      replace (length pre + length (x :: t) - length (x :: t))
        with (length pre) by lia.
      apply take_app_length. }
    specialize (HK p (x :: t) ((1, pre) :: caps st0)).
    destruct (K _) as [z|], (delim (x :: t)) as [u|]; try discriminate;
      cbn [fmap option_fmap option_map fst snd] in *.
    + rewrite app_nil_r. exact HK.
    + rewrite anychar_ok.
      rewrite (IH (pre ++ [x]) (Some x))
        by (rewrite Hpre, <- app_assoc; reflexivity).
      destruct (cut_at delim t) as [[a u]|]; [|reflexivity].
      cbn [fmap option_fmap option_map fst snd].
      rewrite <- app_assoc. reflexivity.
Qed.

(** A pattern anchored at the start of the text matches there or
    nowhere. *)
Lemma search_anchored_groups (r : regex) (s : str) :
  groups <$> search false (Seq Bol r) s
  = caps <$> run false r (MState None s []) Some.
Proof.
  unfold search. destruct s as [|c t]; cbn [search_from]; unfold exec_at;
    rewrite run_Seq; cbn [run at_bol prev];
    destruct (run false r _ Some); try reflexivity.
  rewrite search_from_anchored. reflexivity.
Qed.

Lemma closing_lf_run (p : option char) (s : str) (cs : list (nat * str)) :
  caps <$> run false (Seq (Chr LF) (Seq (Lit (lit "---")) (Chr LF)))
             (MState p s cs) Some
  = (fun _ => [] ++ cs) <$> closing_lf s.
Proof.
  unfold closing_lf, line_feed.
  rewrite run_Seq, run_Chr_strip. cbn [rest caps].
  destruct (Spec.strip_prefix [LF] s) as [t|]; [|reflexivity].
  rewrite run_Seq, run_dashes. cbn [rest caps mbind option_bind].
  destruct (dashes t) as [u|]; [|reflexivity].
  rewrite run_Chr_strip. cbn [rest caps mbind option_bind].
  destruct (Spec.strip_prefix [LF] u); reflexivity.
Qed.

Lemma closing_line_run (p : option char) (s : str) (cs : list (nat * str)) :
  caps <$> run false
             (Seq Processor.optCR
                (Seq (Chr LF)
                   (Seq (Lit (lit "---"))
                      (Seq Processor.optCR
                         (Seq (Chr LF)
                            (Seq (Group 2 (Star (One anychar))) Eol))))))
             (MState p s cs) Some
  = (fun u => [(2, u)] ++ cs) <$> closing_line s.
Proof.
  unfold closing_line.
  rewrite run_line_end. cbn [rest caps].
  destruct (line_end s) as [t|]; [|reflexivity].
  rewrite run_Seq, run_dashes. cbn [rest caps mbind option_bind].
  destruct (dashes t) as [u|]; [|reflexivity].
  rewrite run_line_end. cbn [rest caps mbind option_bind].
  destruct (line_end u) as [v|]; [|reflexivity].
  rewrite run_rest_group. reflexivity.
Qed.

(** The front matter the validator checks is the text between the first
    line, which must hold three dashes and end in a line feed, and the
    first later line feed that is followed by three dashes and a line
    feed; there is none when the content does not begin with such a line or
    has no such closing line. *)
Lemma frontMatterOf_reads_block (content : str) :
  Stages.frontMatterOf content = fst <$> front_matter_lf content.
Proof.
  unfold Stages.frontMatterOf, front_matter_lf.
  change Validator.frontMatter_re
    with (Seq Bol
            (Seq (Lit (lit "---"))
               (Seq (Chr LF)
                  (Seq (Group 1 (LazyStar (One anychar)))
                     (Seq (Chr LF) (Seq (Lit (lit "---")) (Chr LF))))))).
  pose proof (search_anchored_groups
                (Seq (Lit (lit "---"))
                   (Seq (Chr LF)
                      (Seq (Group 1 (LazyStar (One anychar)))
                         (Seq (Chr LF) (Seq (Lit (lit "---")) (Chr LF))))))
                content) as Hsearch.
  rewrite run_Seq, run_dashes in Hsearch. cbn [rest caps] in Hsearch.
  destruct (dashes content) as [t|]; cbn [mbind option_bind];
    [|destruct (search false _ _); [discriminate|reflexivity]].
  rewrite run_Seq, run_Chr_strip in Hsearch. cbn [rest caps] in Hsearch.
  unfold line_feed.
  destruct (Spec.strip_prefix [LF] t) as [u|]; cbn [mbind option_bind];
    [|destruct (search false _ _); [discriminate|reflexivity]].
  rewrite run_Seq in Hsearch. cbn [run] in Hsearch.
  change (rep (run false (One anychar)) _ 0 None false (MState (Some LF) u []))
    with (run false (LazyStar (One anychar)) (MState (Some LF) u []))
    in Hsearch.
  rewrite run_LazyStar in Hsearch. cbn [prev rest caps] in Hsearch.
  pose proof (lazy_try_cut closing_lf
                (fun st =>
                   run false (Seq (Chr LF) (Seq (Lit (lit "---")) (Chr LF)))
                     st Some)
                (fun _ => []) (MState (Some LF) u [])
                (fun p s cs => closing_lf_run p s cs)
                u [] (Some LF) eq_refl) as Hcut.
  cbn [caps app] in Hcut. apply (fun H => eq_trans H Hcut) in Hsearch.
  clear Hcut.
  destruct (search false _ _) as [m|], (cut_at closing_lf u) as [[a v]|];
    try discriminate; [|reflexivity].
  cbn [fmap option_fmap option_map fst snd mbind option_bind] in Hsearch |- *.
  injection Hsearch as Hg. unfold group. rewrite Hg. reflexivity.
Qed.

(** [parseFrontMatter] splits the content at the same places, with either
    end of line: the front matter is the text between the first line,
    which must hold three dashes, and the first later end of line that is
    followed by a line of three dashes; the body is everything after that
    line.  It throws exactly when the content does not begin with such a
    line or has no such closing line. *)
Lemma parseFrontMatter_reads_block (content : str) :
  Processor.parseFrontMatter content = front_matter content.
Proof.
  unfold Processor.parseFrontMatter, front_matter.
  change Processor.parse_re
    with (Seq Bol
            (Seq (Lit (lit "---"))
               (Seq Processor.optCR
                  (Seq (Chr LF)
                     (Seq (Group 1 (LazyStar (One anychar)))
                        (Seq Processor.optCR
                           (Seq (Chr LF)
                              (Seq (Lit (lit "---"))
                                 (Seq Processor.optCR
                                    (Seq (Chr LF)
                                       (Seq (Group 2 (Star (One anychar)))
                                          Eol))))))))))).
  match goal with
  | |- context [search false (Seq Bol ?r) content] =>
    pose proof (search_anchored_groups r content) as Hsearch
  end.
  rewrite run_Seq, run_dashes in Hsearch. cbn [rest caps] in Hsearch.
  destruct (dashes content) as [t|]; cbn [mbind option_bind];
    [|destruct (search false _ _); [discriminate|reflexivity]].
  rewrite run_line_end in Hsearch. cbn [rest caps] in Hsearch.
  destruct (line_end t) as [u|]; cbn [mbind option_bind];
    [|destruct (search false _ _); [discriminate|reflexivity]].
  rewrite run_Seq in Hsearch. cbn [run] in Hsearch.
  change (rep (run false (One anychar)) _ 0 None false (MState (Some LF) u []))
    with (run false (LazyStar (One anychar)) (MState (Some LF) u []))
    in Hsearch.
  rewrite run_LazyStar in Hsearch. cbn [prev rest caps] in Hsearch.
  pose proof (lazy_try_cut closing_line
                (fun st =>
                   run false
                     (Seq Processor.optCR
                        (Seq (Chr LF)
                           (Seq (Lit (lit "---"))
                              (Seq Processor.optCR
                                 (Seq (Chr LF)
                                    (Seq (Group 2 (Star (One anychar)))
                                       Eol))))))
                     st Some)
                (fun v => [(2, v)])
                (MState (Some LF) u [])
                (fun p s cs => closing_line_run p s cs)
                u [] (Some LF) eq_refl) as Hcut.
  cbn [caps app] in Hcut. apply (fun H => eq_trans H Hcut) in Hsearch.
  clear Hcut.
  destruct (search false _ _) as [m|], (cut_at closing_line u) as [[a v]|];
    try discriminate; [|reflexivity].
  cbn [fmap option_fmap option_map fst snd mbind option_bind] in Hsearch |- *.
  injection Hsearch as Hg. unfold group. rewrite Hg. reflexivity.
Qed.

Lemma line_end_Some (s r : str) :
  line_end s = Some r <-> exists e, is_eol e /\ s = e ++ r.
Proof.
  unfold line_end, is_eol. split.
  - destruct s as [|c t]; [discriminate|].
    destruct (N.eqb_spec c LF) as [->|_].
    + intros [= <-]. exists [LF]. auto.
    + destruct (N.eqb_spec c CR) as [->|_]; [|discriminate].
      destruct t as [|d u]; [discriminate|].
      destruct (N.eqb_spec d LF) as [->|_]; [|discriminate].
      intros [= <-]. exists [CR; LF]. auto.
  - intros (e & [->| ->] & ->); reflexivity.
Qed.

Lemma dashes_Some (s r : str) : dashes s = Some r <-> s = lit "---" ++ r.
Proof.
  unfold dashes. split; [apply strip_prefix_Some|].
  intros ->. unfold Spec.strip_prefix. rewrite starts_with_app.
  rewrite drop_app_length. reflexivity.
Qed.

Lemma closing_line_Some (s r : str) :
  closing_line s = Some r <->
  exists e2 e3, is_eol e2 /\ is_eol e3 /\ s = e2 ++ lit "---" ++ e3 ++ r.
Proof.
  unfold closing_line. split.
  - destruct (line_end s) as [t|] eqn:H1; [|discriminate].
    cbn [mbind option_bind].
    destruct (dashes t) as [u|] eqn:H2; [|discriminate].
    cbn [mbind option_bind]. intros H3.
    apply line_end_Some in H1 as (e2 & He2 & ->).
    apply dashes_Some in H2 as ->.
    apply line_end_Some in H3 as (e3 & He3 & ->).
    exists e2, e3. auto.
  - intros (e2 & e3 & He2 & He3 & ->).
    rewrite (proj2 (line_end_Some _ _)) by eauto.
    cbn [mbind option_bind].
    rewrite (proj2 (dashes_Some _ _) eq_refl). cbn [mbind option_bind].
    apply line_end_Some. eauto.
Qed.

(** [cut_at] finds the first delimiter. *)
Lemma cut_at_Some (delim : str -> option str) (s : str) : forall a r,
  cut_at delim s = Some (a, r) <->
  exists rest, s = a ++ rest /\ delim rest = Some r /\
               forall i, i < length a -> delim (drop i s) = None.
Proof.
  induction s as [|x t IH]; intros a r; cbn [cut_at].
  - split.
    + destruct (delim []) as [u|] eqn:Hd; [|discriminate].
      intros [= <- <-]. exists []. repeat split; [exact Hd|].
      cbn. lia.
    + intros (rest & Hs & Hd & Hmin). symmetry in Hs.
      apply app_eq_nil in Hs as [-> ->]. rewrite Hd. reflexivity.
  - destruct (delim (x :: t)) as [u|] eqn:Hd.
    + split.
      * intros [= <- <-]. exists (x :: t). repeat split; [exact Hd|].
        cbn. lia.
      * intros (rest & Hs & Hr & Hmin). destruct a as [|y a].
        -- cbn [app] in Hs. subst rest.
           pose proof (eq_trans (eq_sym Hd) Hr) as [= ->]. reflexivity.
        -- specialize (Hmin 0 ltac:(cbn; lia)).
           pose proof (eq_trans (eq_sym Hd) Hmin). discriminate.
    + split.
      * destruct (cut_at delim t) as [[a' u]|] eqn:Hc; [|discriminate].
        intros [= <- <-].
        destruct (proj1 (IH a' u) eq_refl) as (rest & -> & Hr & Hmin).
        exists rest. repeat split; [exact Hr|].
        intros [|i] Hi; [exact Hd|]. cbn [drop]. apply Hmin.
        cbn [length] in Hi. lia.
      * intros (rest & Hs & Hr & Hmin). destruct a as [|y a].
        -- cbn [app] in Hs. subst rest.
           pose proof (eq_trans (eq_sym Hd) Hr). discriminate.
        -- injection Hs as <- ->.
           assert (cut_at delim (a ++ rest) = Some (a, r)) as ->;
             [|reflexivity].
           apply IH. exists rest. repeat split; [exact Hr|].
           intros i Hi. apply (Hmin (S i)). cbn [length]. lia.
Qed.

(** X12: what [parseFrontMatter] returns, in terms of the content alone: a
    front matter and a body exactly when the content is a line of three
    dashes, the front matter, an end of line, a line of three dashes and
    the body, either end of line (line feed, or carriage return and line
    feed) standing at each of the three places, and no closing line begins
    earlier inside the front matter.  In every other case it throws. *)
Theorem parseFrontMatter_splits (content frontMatter body : str) :
  Processor.parseFrontMatter content = Some (frontMatter, body) <->
  exists e1 e2 e3,
    is_eol e1 /\ is_eol e2 /\ is_eol e3 /\
    content = lit "---" ++ e1 ++ frontMatter ++ e2 ++ lit "---" ++ e3 ++ body /\
    forall i, i < length frontMatter ->
              closing_line
                (drop i (frontMatter ++ e2 ++ lit "---" ++ e3 ++ body))
              = None.
Proof.
  rewrite parseFrontMatter_reads_block. unfold front_matter. split.
  - destruct (dashes content) as [t|] eqn:H1; [|discriminate].
    cbn [mbind option_bind].
    destruct (line_end t) as [u|] eqn:H2; [|discriminate].
    cbn [mbind option_bind]. intros H3.
    apply dashes_Some in H1 as ->.
    apply line_end_Some in H2 as (e1 & He1 & ->).
    apply cut_at_Some in H3 as (rest & -> & Hr & Hmin).
    apply closing_line_Some in Hr as (e2 & e3 & He2 & He3 & ->).
    exists e1, e2, e3. auto.
  - intros (e1 & e2 & e3 & He1 & He2 & He3 & -> & Hmin).
    rewrite (proj2 (dashes_Some _ _) eq_refl). cbn [mbind option_bind].
    rewrite (proj2 (line_end_Some _ _)) by eauto.
    cbn [mbind option_bind]. apply cut_at_Some.
    exists (e2 ++ lit "---" ++ e3 ++ body). split; [reflexivity|].
    split; [|exact Hmin]. apply closing_line_Some. eauto.
Qed.

Lemma cut_at_app (delim : str -> option str) (rest r : str) :
  delim rest = Some r ->
  forall a, exists a' r', cut_at delim (a ++ rest) = Some (a', r').
Proof.
  intros Hr. induction a as [|x a (a' & r' & IH)]; cbn [app].
  - exists [], r. destruct rest; cbn [cut_at]; rewrite Hr; reflexivity.
  - cbn [cut_at]. destruct (delim (x :: a ++ rest)); [eauto|]. rewrite IH. eauto.
Qed.

Lemma front_matter_lf_Some (content : str) :
  (exists block body, front_matter_lf content = Some (block, body)) <->
  exists frontMatter body, content = assemble frontMatter body.
Proof.
  unfold front_matter_lf, assemble. split.
  - intros (block & body & H).
    destruct (dashes content) as [t|] eqn:H1; [|discriminate].
    cbn [mbind option_bind] in H.
    destruct (line_feed t) as [u|] eqn:H2; [|discriminate].
    cbn [mbind option_bind] in H.
    apply dashes_Some in H1 as ->. apply strip_prefix_Some in H2 as ->.
    apply cut_at_Some in H as (rest & -> & Hr & _).
    unfold closing_lf in Hr.
    destruct (line_feed rest) as [t1|] eqn:H3; [|discriminate].
    cbn [mbind option_bind] in Hr.
    destruct (dashes t1) as [t2|] eqn:H4; [|discriminate].
    cbn [mbind option_bind] in Hr.
    apply strip_prefix_Some in H3 as ->. apply dashes_Some in H4 as ->.
    apply strip_prefix_Some in Hr as ->.
    exists block, body. reflexivity.
  - intros (frontMatter & body & ->).
    rewrite (proj2 (dashes_Some _ _) eq_refl). cbn [mbind option_bind].
    change (line_feed ([LF] ++ frontMatter ++ [LF] ++ lit "---" ++ [LF] ++ body))
      with (Some (frontMatter ++ [LF] ++ lit "---" ++ [LF] ++ body)).
    cbn [mbind option_bind].
    destruct (cut_at_app closing_lf ([LF] ++ lit "---" ++ [LF] ++ body) body
                eq_refl frontMatter) as (a' & r' & H).
    eauto.
Qed.

(** X13: the validator reports [Missing or malformed front matter] exactly for
    a content that is not a line of three dashes, some text, a line feed,
    a line of three dashes and its line feed, and a rest, every line ending
    in a bare line feed.  A file with carriage returns before these line
    feeds is therefore reported, although [parseFrontMatter] reads it; what
    [processArticle] assembles never is. *)
Theorem missing_front_matter_iff (content : str) (v : Validator.validator) :
  Validator.MissingFrontMatter
    ∈ Validator.errors (Validator.validateFrontMatter content v).2 <->
  Validator.MissingFrontMatter ∈ Validator.errors v \/
  ~ exists frontMatter body, content = assemble frontMatter body.
Proof.
  rewrite <- front_matter_lf_Some.
  pose proof (frontMatterOf_reads_block content) as Hblock.
  destruct (Stages.frontMatterOf content) as [fm|] eqn:Hof.
  - rewrite (errors_validateFrontMatter _ _ _ Hof).
    destruct (front_matter_lf content) as [[block body]|]; [|discriminate].
    rewrite elem_of_app, list_elem_of_fmap. split.
    + intros [H|(field & [=] & _)]. left. exact H.
    + intros [H|H]; [left; exact H|]. exfalso. apply H. eauto.
  - unfold Stages.frontMatterOf in Hof. unfold Validator.validateFrontMatter.
    destruct (search false Validator.frontMatter_re content); [discriminate|].
    destruct (front_matter_lf content) as [[block body]|]; [discriminate|].
    cbn [snd Validator.push_error Validator.errors].
    rewrite elem_of_app. split.
    + intros _. right. intros (block & body & [=]).
    + intros _. right. constructor.
Qed.

(** A closing line that begins inside a text which does not end in a
    carriage return, and is read with the help of the line feed after the
    text, is read whatever end of line follows the text. *)
Lemma closing_line_inside (w x Y r : str) :
  w <> [] -> last w <> Some CR ->
  closing_line (w ++ LF :: x) = Some r ->
  (exists r', line_end Y = Some r') ->
  exists r'', closing_line (w ++ Y) = Some r''.
Proof.
  intros Hw Hlast Hclose (r' & HY).
  assert (exists e2 w2, is_eol e2 /\ w = e2 ++ w2) as (e2 & w2 & He2 & ->).
  { unfold closing_line in Hclose.
    destruct (line_end (w ++ LF :: x)) as [t|] eqn:H1; [|discriminate].
    destruct w as [|c1 w']; [contradiction|]. cbn [app line_end] in H1.
    destruct (N.eqb_spec c1 LF) as [->|_].
    - exists [LF], w'. split; [left|]; reflexivity.
    - destruct (N.eqb_spec c1 CR) as [->|_]; [|discriminate].
      destruct w' as [|c2 w''].
      + exfalso. apply Hlast. reflexivity.
      + cbn [app] in H1.
        destruct (N.eqb_spec c2 LF) as [->|_]; [|discriminate].
        exists [CR; LF], w''. split; [right|]; reflexivity. }
  rewrite <- app_assoc in Hclose. unfold closing_line in Hclose.
  rewrite (proj2 (line_end_Some _ _)) in Hclose by eauto.
  cbn [mbind option_bind] in Hclose.
  assert (last w2 <> Some CR) as Hlast2.
  { intros H. apply Hlast. rewrite last_app, H. reflexivity. }
  assert (exists w3, w2 = lit "---" ++ w3) as (w3 & ->).
  { destruct (dashes (w2 ++ LF :: x)) as [u|] eqn:H2; [|discriminate].
    unfold dashes, Spec.strip_prefix in H2.
    destruct (starts_with (lit "---") (w2 ++ LF :: x)) eqn:Hs;
      [|discriminate].
    change (lit "---") with [45; 45; 45]%N in Hs.
    destruct w2 as [|d1 [|d2 [|d3 w3]]]; cbn [app starts_with] in Hs;
      repeat (apply andb_prop in Hs as [?H Hs]);
      repeat match goal with
             | H : (_ =? _)%N = true |- _ => apply N.eqb_eq in H
             end;
      try discriminate.
    subst. exists w3. reflexivity. }
  rewrite <- app_assoc in Hclose.
  rewrite (proj2 (dashes_Some _ _) eq_refl) in Hclose.
  cbn [mbind option_bind] in Hclose.
  assert (last w3 <> Some CR) as Hlast3.
  { intros H. apply Hlast2. rewrite last_app, H. reflexivity. }
  assert (exists r3, line_end (w3 ++ Y) = Some r3) as (r3 & H3).
  { destruct w3 as [|c1 w']; [eauto|]. cbn [app line_end] in Hclose |- *.
    destruct (N.eqb_spec c1 LF) as [->|_]; [eauto|].
    destruct (N.eqb_spec c1 CR) as [->|_]; [|discriminate].
    destruct w' as [|c2 w''].
    - exfalso. apply Hlast3. reflexivity.
    - cbn [app] in Hclose |- *.
      destruct (N.eqb_spec c2 LF) as [->|_]; [eauto|discriminate]. }
  exists r3. unfold closing_line. rewrite <- !app_assoc.
  rewrite (proj2 (line_end_Some _ _)) by eauto. cbn [mbind option_bind].
  rewrite (proj2 (dashes_Some _ _) eq_refl). cbn [mbind option_bind].
  exact H3.
Qed.

(** X14: parsing, assembling and parsing again.  The front matter and the body
    that [parseFrontMatter] reads from a content are read again from the
    text that [processArticle] would assemble from them, provided the front
    matter does not end in a carriage return (which would be taken for the
    beginning of the closing line). *)
Theorem parseFrontMatter_round_trip (content frontMatter body : str) :
  Processor.parseFrontMatter content = Some (frontMatter, body) ->
  last frontMatter <> Some CR ->
  Processor.parseFrontMatter (assemble frontMatter body)
  = Some (frontMatter, body).
Proof.
  rewrite !parseFrontMatter_reads_block. unfold front_matter, assemble.
  intros H Hlast.
  destruct (dashes content) as [t|]; [|discriminate].
  cbn [mbind option_bind] in H.
  destruct (line_end t) as [u|]; [|discriminate].
  cbn [mbind option_bind] in H.
  apply cut_at_Some in H as (rest & -> & Hr & Hmin).
  rewrite (proj2 (dashes_Some _ _) eq_refl). cbn [mbind option_bind].
  change (line_end ([LF] ++ frontMatter ++ [LF] ++ lit "---" ++ [LF] ++ body))
    with (Some (frontMatter ++ [LF] ++ lit "---" ++ [LF] ++ body)).
  cbn [mbind option_bind]. apply cut_at_Some.
  exists ([LF] ++ lit "---" ++ [LF] ++ body).
  split; [reflexivity|]. split; [reflexivity|].
  intros i Hi.
  destruct (closing_line
              (drop i (frontMatter ++ [LF] ++ lit "---" ++ [LF] ++ body)))
    as [r|] eqn:Hc; [|reflexivity].
  exfalso. specialize (Hmin i Hi).
  rewrite drop_app_le in Hc, Hmin by lia.
  assert (drop i frontMatter <> []) as Hne.
  { intros E. apply (f_equal length) in E. rewrite length_drop in E.
    cbn in E. lia. }
  assert (last (drop i frontMatter) <> Some CR) as Hl.
  { intros E. apply Hlast.
    rewrite <- (take_drop i frontMatter), last_app, E. reflexivity. }
  destruct (closing_line_inside (drop i frontMatter)
              (lit "---" ++ [LF] ++ body) rest r Hne Hl Hc)
    as (r'' & Hr'').
  - unfold closing_line in Hr.
    destruct (line_end rest); [eauto|discriminate].
  - rewrite Hr'' in Hmin. discriminate.
Qed.

Lemma parseFrontMatter_round_trip_witness :
  Processor.parseFrontMatter
    (assemble (Examples.parsed Examples.article).1
       (Examples.parsed Examples.article).2)
  = Some ((Examples.parsed Examples.article).1,
          (Examples.parsed Examples.article).2).
Proof.
  apply (parseFrontMatter_round_trip Examples.article).
  - vm_compute. reflexivity.
  - vm_compute. discriminate.
Defined.

End FrontMatterLayout.

(** ** The date of the last change *)

Section LastMod.
Import Js Scan Processor.

(** A match is handed to the continuation at a later place of the text. *)
Lemma rep_cont (m : mstate -> cont -> option mstate) :
  (forall st k z, m st k = Some z ->
                  exists st', k st' = Some z /\ rest st' `suffix_of` rest st) ->
  forall fuel lo hi g st k z,
    rep m fuel lo hi g st k = Some z ->
    exists st', k st' = Some z /\ rest st' `suffix_of` rest st.
Proof.
  intros Hm. induction fuel as [|fuel IH]; intros lo hi g st k z H;
    [discriminate|].
  cbn [rep] in H.
  assert (forall y,
            (if (lo =? 0) && (length (rest y) =? length (rest st)) then None
             else rep m fuel (pred lo) (option_map pred hi) g y k) = Some z ->
            rest y `suffix_of` rest st ->
            exists st', k st' = Some z /\ rest st' `suffix_of` rest st) as Hd.
  { intros y Hy Hsuf.
    destruct ((lo =? 0) && (length (rest y) =? length (rest st)));
      [discriminate|].
    apply IH in Hy as (st' & Hk & Hs). exists st'. split; [exact Hk|].
    etransitivity; eassumption. }
  assert (m st (fun y =>
                  if (lo =? 0) && (length (rest y) =? length (rest st))
                  then None
                  else rep m fuel (pred lo) (option_map pred hi) g y k)
          = Some z ->
          exists st', k st' = Some z /\ rest st' `suffix_of` rest st) as Hstep.
  { intros Hrun. apply Hm in Hrun as (y & Hy & Hsuf). eauto. }
  assert (k st = Some z ->
          exists st', k st' = Some z /\ rest st' `suffix_of` rest st) as Hhere
    by (intros Hk; exists st; split; [exact Hk|reflexivity]).
  destruct hi as [[|hi]|].
  - auto.
  - destruct (negb (lo =? 0)); [auto|]. destruct g.
    + destruct (m st _) eqn:Hrun; [injection H as ->; auto|auto].
    + destruct (k st) eqn:Hk; [injection H as ->; auto|auto].
  - destruct (negb (lo =? 0)); [auto|]. destruct g.
    + destruct (m st _) eqn:Hrun; [injection H as ->; auto|auto].
    + destruct (k st) eqn:Hk; [injection H as ->; auto|auto].
Qed.

Lemma run_cont ml (r : regex) : forall st k z,
  run ml r st k = Some z ->
  exists st', k st' = Some z /\ rest st' `suffix_of` rest st.
Proof.
  induction r as [|a| | |r1 IH1 r2 IH2|lo hi g r1 IH|n r1 IH];
    intros st k z H; cbn [run] in H.
  - exists st. split; [exact H|reflexivity].
  - destruct (rest st) as [|c t] eqn:Hr; [discriminate|].
    destruct (atom_ok a c); [|discriminate].
    eexists. split; [exact H|]. cbn [rest]. exists [c]. reflexivity.
  - destruct (at_bol ml st); [|discriminate].
    exists st. split; [exact H|reflexivity].
  - destruct (at_eol ml st); [|discriminate].
    exists st. split; [exact H|reflexivity].
  - apply IH1 in H as (st1 & H & Hs1). apply IH2 in H as (st2 & H & Hs2).
    exists st2. split; [exact H|]. etransitivity; eassumption.
  - eapply rep_cont; [exact IH|exact H].
  - apply IH in H as (st' & H & Hs). eexists. split; [exact H|exact Hs].
Qed.

(** A match is a piece of the text: the text is what precedes the match,
    the match and what follows it. *)
Lemma search_splits ml (r : regex) (s : str) (m : match_result) :
  search ml r s = Some m ->
  s = take (index m) s ++ matched m ++ after m.
Proof.
  intros H. apply search_from_Some in H as (j & st' & Hj & Hexec & -> & _).
  unfold exec_at in Hexec.
  apply run_cont in Hexec as (st'' & [= ->] & [w Hw]). cbn [rest] in Hw.
  cbn [result_at index matched after Nat.add].
  rewrite Hw, length_app, Nat.add_sub, take_app_length, <- Hw.
  symmetry. apply take_drop.
Qed.

(** A group around the whole pattern captures the match. *)
Lemma search_group_whole ml (n : nat) (r : regex) (s : str)
    (m : match_result) :
  search ml (Group n r) s = Some m ->
  exists gs, groups m = (n, matched m) :: gs.
Proof.
  intros H. apply search_from_Some in H as (j & st' & Hj & Hexec & -> & _).
  unfold exec_at in Hexec. cbn [run] in Hexec.
  apply run_cont in Hexec as (st'' & [= <-] & _).
  cbn [result_at groups matched caps rest]. unfold consumed. cbn [rest].
  eauto.
Qed.

(** A replacement text without a dollar stands for itself. *)
Lemma substitute_plain (ngroups : nat) (before m after : str)
    (gs : list (nat * str)) (tpl : str) :
  Forall (fun c => c <> 36%N) tpl ->
  substitute ngroups before m after gs tpl = tpl.
Proof.
  induction 1 as [|c t Hc _ IH]; [reflexivity|].
  cbn [substitute]. apply N.eqb_neq in Hc. rewrite Hc. cbn [negb].
  rewrite IH. reflexivity.
Qed.

(** [$1] before a line feed stands for the first capture. *)
Lemma substitute_group1 (before m after : str) (gs : list (nat * str))
    (tpl : str) :
  substitute 1 before m after gs (36%N :: 49%N :: LF :: tpl)
  = cap_text gs 1 ++ LF :: substitute 1 before m after gs tpl.
Proof. reflexivity. Qed.

(** *** The patterns of [updateLastMod] read by hand *)

Lemma is_digit_digit (c : char) : is_digit c = true <-> Spec.digit c.
Proof.
  unfold is_digit, Spec.digit. rewrite andb_true_iff, !N.leb_le. tauto.
Qed.

Lemma digit_ok (c : char) : atom_ok digit c = is_digit c.
Proof. cbn. apply orb_false_r. Qed.

Lemma digit_not_space (x : char) : Spec.digit x -> is_space x = false.
Proof.
  intros Hd. destruct (is_space x) eqn:E; [|reflexivity].
  apply white_is_space in E. unfold Spec.white, Spec.digit in *.
  rewrite !elem_of_cons, elem_of_nil in E. exfalso. intuition lia.
Qed.

Lemma ymd_after_space (k : cont) p' x t cs' :
  atom_ok space x = true ->
  run false Validator.ymd (MState p' (x :: t) cs') k = None.
Proof.
  intros Hx. rewrite run_ymd. unfold eat_ymd. cbn [eat rest].
  rewrite digit_ok. destruct (is_digit x) eqn:E; [|reflexivity].
  apply is_digit_digit, digit_not_space in E. rewrite space_ok in Hx.
  congruence.
Qed.

(** A key, white space and a date: the key is stripped, the white space
    skipped and the date eaten. *)
Lemma run_key (key : str) (st : mstate) (k : cont) :
  run false (Seq (Lit key) (Seq (Star (One space)) Validator.ymd)) st k
  = match st1 ← strip key st;
          eat_ymd (skip_all space (prev st1) (rest st1) (caps st1)) with
    | Some st' => k st'
    | None => None
    end.
Proof.
  rewrite run_Seq, run_Lit. destruct (strip key st) as [st1|]; [|reflexivity].
  cbn [mbind option_bind]. rewrite run_Seq, run_Star, star_try_all.
  - apply run_ymd.
  - intros p' x t cs' Hx. apply ymd_after_space. exact Hx.
Qed.

Lemma forallb_digit (w : str) :
  forallb (atom_ok digit) w = true -> Forall Spec.digit w.
Proof.
  rewrite forallb_forall, Forall_forall. intros H x Hx.
  apply is_digit_digit. rewrite <- digit_ok. apply H, list_elem_of_In, Hx.
Qed.

Lemma digit_forallb (w : str) :
  Forall Spec.digit w -> forallb (atom_ok digit) w = true.
Proof.
  rewrite forallb_forall, Forall_forall. intros H x Hx.
  rewrite digit_ok. apply is_digit_digit, H, list_elem_of_In, Hx.
Qed.

Lemma one_dash (w : str) :
  length w = 1 -> forallb (atom_ok dash) w = true -> w = [45%N].
Proof.
  destruct w as [|c [|c' w]]; try discriminate. intros _ H.
  cbn in H. rewrite andb_true_r in H. apply N.eqb_eq in H. subst c.
  reflexivity.
Qed.

Lemma eat_ymd_date (st st' : mstate) :
  eat_ymd st = Some st' ->
  caps st' = caps st /\
  exists d, Spec.date_text d /\ rest st = d ++ rest st'.
Proof.
  unfold eat_ymd. intros H.
  destruct (eat digit 4 st) as [st1|] eqn:H1; [|discriminate].
  cbn [mbind option_bind] in H.
  destruct (eat dash 1 st1) as [st2|] eqn:H2; [|discriminate].
  cbn [mbind option_bind] in H.
  destruct (eat digit 2 st2) as [st3|] eqn:H3; [|discriminate].
  cbn [mbind option_bind] in H.
  destruct (eat dash 1 st3) as [st4|] eqn:H4; [|discriminate].
  cbn [mbind option_bind] in H. rename H into H5.
  split.
  { rewrite (eat_caps _ _ _ _ H5), (eat_caps _ _ _ _ H4),
      (eat_caps _ _ _ _ H3), (eat_caps _ _ _ _ H2).
    eapply eat_caps; eauto. }
  apply eat_rest in H1 as (w1 & E1 & L1 & A1).
  apply eat_rest in H2 as (w2 & E2 & L2 & A2).
  apply eat_rest in H3 as (w3 & E3 & L3 & A3).
  apply eat_rest in H4 as (w4 & E4 & L4 & A4).
  apply eat_rest in H5 as (w5 & E5 & L5 & A5).
  apply one_dash in A2; [subst w2|exact L2].
  apply one_dash in A4; [subst w4|exact L4].
  exists (w1 ++ [45%N] ++ w3 ++ [45%N] ++ w5). split.
  - exists w1, w3, w5. split; [reflexivity|]. repeat split; try assumption.
    rewrite !Forall_app. auto using forallb_digit.
  - rewrite E1, E2, E3, E4, E5, <- !app_assoc. reflexivity.
Qed.

Lemma eat_ymd_of_date (d : str) :
  Spec.date_text d ->
  forall p t cs, exists q, eat_ymd (MState p (d ++ t) cs) = Some (MState q t cs).
Proof.
  intros (y & m & dd & -> & Ly & Lm & Ld & Hall) p t cs.
  rewrite !Forall_app in Hall. destruct Hall as (Hy & Hm & Hd).
  unfold eat_ymd. rewrite <- !app_assoc. eexists.
  rewrite (eat_app_n _ _ _ _ _ _ Ly (digit_forallb _ Hy)).
  cbn [mbind option_bind].
  rewrite (eat_app_n dash [45%N] 1 _ _ _ eq_refl eq_refl).
  cbn [mbind option_bind].
  rewrite (eat_app_n _ _ _ _ _ _ Lm (digit_forallb _ Hm)).
  cbn [mbind option_bind].
  rewrite (eat_app_n dash [45%N] 1 _ _ _ eq_refl eq_refl).
  cbn [mbind option_bind].
  rewrite (eat_app_n _ _ _ _ _ _ Ld (digit_forallb _ Hd)). reflexivity.
Qed.

(** The pattern matches at the start of a text exactly when the text
    begins with the key, white space and a date; the match ends after the
    date. *)
Lemma key_exec_dated (key : str) (p : option char) (s : str) (z : mstate) :
  exec_at false (Seq (Lit key) (Seq (Star (One space)) Validator.ymd)) p s
  = Some z ->
  Spec.dated key s (rest z).
Proof.
  unfold exec_at. rewrite run_key.
  destruct (strip key _) as [st1|] eqn:H1; [|discriminate].
  cbn [mbind option_bind].
  destruct (eat_ymd _) as [st3|] eqn:H3; [|discriminate].
  intros [= <-].
  apply strip_Some in H1. cbn [rest] in H1.
  destruct (skip_all_split space (rest st1) (prev st1) (caps st1))
    as (ws & Hws & Hall & _ & _).
  apply eat_ymd_date in H3 as (_ & d & Hd & Hrest).
  exists ws, d. split.
  - apply Forall_white. rewrite forallb_forall in *. intros x Hx.
    rewrite <- space_ok. apply Hall, Hx.
  - split; [exact Hd|]. rewrite H1, Hws at 1. rewrite Hrest. reflexivity.
Qed.

Lemma dated_key_exec (key s after : str) :
  Spec.dated key s after ->
  forall p, exists z,
    exec_at false (Seq (Lit key) (Seq (Star (One space)) Validator.ymd)) p s
    = Some z /\ rest z = after.
Proof.
  intros (ws & d & Hws & Hd & ->) p. unfold exec_at. rewrite run_key.
  destruct (strip_app key p (ws ++ d ++ after) []) as [q1 H1]. rewrite H1.
  cbn [mbind option_bind prev rest caps].
  assert (exists x t, d = x :: t /\ Spec.digit x) as (x & t & -> & Hx).
  { destruct Hd as (y & m & dd & -> & Ly & _ & _ & Hall).
    destruct y as [|x y]; [discriminate|]. exists x. eexists.
    split; [reflexivity|]. inversion Hall. assumption. }
  pose proof (skip_all_app space ws q1 x (t ++ after) []) as Hskip.
  rewrite <- (mstate_eta (skip_all _ _ _ _)), skip_all_caps.
  cbn [app] in Hskip |- *. rewrite Hskip.
  - destruct (eat_ymd_of_date (x :: t) Hd
                (prev (skip_all space q1 (ws ++ x :: t ++ after) [])) after [])
      as [q H3].
    cbn [app] in H3. rewrite H3. eexists. split; reflexivity.
  - apply Forall_white in Hws. rewrite forallb_forall in *. intros c Hc.
    rewrite space_ok. apply Hws, Hc.
  - rewrite space_ok. apply digit_not_space, Hx.
Qed.

(** Where a search ends: at the first place at which the pattern matches. *)
Lemma search_at ml (r : regex) (s : str) (j : nat) (z : mstate) :
  j <= length s ->
  exec_at ml r (prev_at None s j) (drop j s) = Some z ->
  (forall j', j' < j ->
     exec_at ml r (prev_at None s j') (drop j' s) = None) ->
  search ml r s = Some (result_at j (drop j s) z).
Proof.
  intros Hj Hexec Hmin. unfold search.
  destruct (search_from ml r None s 0) as [m|] eqn:Hs.
  - apply search_from_Some in Hs as (j2 & z2 & Hj2 & Hexec2 & -> & Hmin2).
    destruct (Nat.lt_trichotomy j j2) as [Hlt|[<-|Hlt]].
    + rewrite (Hmin2 j Hlt) in Hexec. discriminate.
    + rewrite Hexec in Hexec2. injection Hexec2 as <-. reflexivity.
    + rewrite (Hmin j2 Hlt) in Hexec2. discriminate.
  - rewrite (search_from_None _ _ _ _ _ Hs j Hj) in Hexec. discriminate.
Qed.

Lemma occurs_includes (p s : str) :
  includes s p = true <-> Spec.occurs p s.
Proof.
  unfold includes, index_of.
  assert (forall i, (exists j, index_of_from p s i = Some j)
                    <-> Spec.occurs p s) as H.
  { induction s as [|c s IH]; intros i; cbn [index_of_from].
    - destruct (starts_with p []) eqn:Hp.
      + split; [|eauto]. intros _. apply starts_with_split in Hp.
        exists [], (drop (length p) []). exact Hp.
      + split; [intros [j Hj]; discriminate|].
        intros (a & b & Hs). symmetry in Hs.
        apply app_eq_nil in Hs as [-> Hs]. apply app_eq_nil in Hs as [-> _].
        discriminate.
    - destruct (starts_with p (c :: s)) eqn:Hp.
      + split; [|eauto]. intros _. apply starts_with_split in Hp.
        exists [], (drop (length p) (c :: s)). exact Hp.
      + rewrite IH. split.
        * intros (a & b & ->). exists (c :: a), b. reflexivity.
        * intros (a & b & Hs). destruct a as [|c' a].
          -- cbn [app] in Hs. rewrite Hs, starts_with_app in Hp.
             discriminate.
          -- injection Hs as _ ->. exists a, b. reflexivity. }
  specialize (H 0). destruct (index_of_from p s 0) as [j|].
  - split; [intros _; apply H; eauto|reflexivity].
  - split; [discriminate|]. intros Ho. apply H in Ho as [j Hj]. discriminate.
Qed.

Lemma run_Group ml (n : nat) (r : regex) (st : mstate) (k : cont) :
  run ml (Group n r) st k
  = run ml r st (fun st' =>
      k (MState (prev st') (rest st') ((n, consumed st st') :: caps st'))).
Proof. reflexivity. Qed.

(** A group around the pattern changes neither where it matches nor where
    the match ends. *)
Lemma exec_key_group (n : nat) (key : str) (p : option char) (s : str) :
  rest <$> exec_at false
             (Group n (Seq (Lit key) (Seq (Star (One space)) Validator.ymd)))
             p s
  = rest <$> exec_at false
               (Seq (Lit key) (Seq (Star (One space)) Validator.ymd)) p s.
Proof.
  unfold exec_at. rewrite run_Group, !run_key.
  destruct (strip key _) as [st1|]; [|reflexivity].
  cbn [mbind option_bind]. destruct (eat_ymd _); reflexivity.
Qed.

(** The search for a key with a date, given the first place at which the
    text holds one; [r] is the pattern, with or without a group around
    it. *)
Lemma search_key (r : regex) (key before ws d after : str) :
  (forall p s,
     rest <$> exec_at false r p s
     = rest <$> exec_at false
                  (Seq (Lit key) (Seq (Star (One space)) Validator.ymd)) p s) ->
  Forall Spec.white ws -> Spec.date_text d ->
  (forall i rest, i < length before ->
     ~ Spec.dated key (drop i (before ++ key ++ ws ++ d ++ after)) rest) ->
  exists m,
    search false r (before ++ key ++ ws ++ d ++ after) = Some m /\
    index m = length before /\ matched m = key ++ ws ++ d /\
    Js.after m = after.
Proof.
  intros Hr Hws Hd Hfirst.
  set (s := before ++ key ++ ws ++ d ++ after) in *.
  assert (drop (length before) s = key ++ ws ++ d ++ after) as Hdrop
    by (unfold s; apply drop_app_length).
  destruct (dated_key_exec key (drop (length before) s) after)
    with (p := prev_at None s (length before)) as (z0 & Hz0 & Hrest0).
  { rewrite Hdrop. exists ws, d. auto. }
  pose proof (Hr (prev_at None s (length before)) (drop (length before) s))
    as Hhere.
  rewrite Hz0 in Hhere.
  destruct (exec_at false r _ (drop (length before) s)) as [z|] eqn:Hz;
    [|discriminate].
  injection Hhere as Hrest. rewrite Hrest0 in Hrest.
  eexists. split.
  - apply (search_at false r s (length before) z).
    + unfold s. rewrite length_app. lia.
    + exact Hz.
    + intros j' Hj'. specialize (Hr (prev_at None s j') (drop j' s)).
      destruct (exec_at false r (prev_at None s j') (drop j' s)) as [z'|];
        [|reflexivity].
      exfalso.
      destruct (exec_at false (Seq (Lit key) _) (prev_at None s j')
                  (drop j' s)) as [z''|] eqn:Hz''; [|discriminate].
      apply key_exec_dated in Hz''. exact (Hfirst j' _ Hj' Hz'').
  - cbn [result_at index matched Js.after]. split; [reflexivity|].
    split; [|exact Hrest].
    rewrite Hdrop, Hrest, !length_app.
    replace (length key + (length ws + (length d + length after))
             - length after)
      with (length (key ++ ws ++ d)) by (rewrite !length_app; lia).
    rewrite !app_assoc, <- (app_assoc key), take_app_length.
    reflexivity.
Qed.

Lemma search_key_none (r : regex) (key s : str) :
  (forall p s,
     rest <$> exec_at false r p s
     = rest <$> exec_at false
                  (Seq (Lit key) (Seq (Star (One space)) Validator.ymd)) p s) ->
  (forall i rest, ~ Spec.dated key (drop i s) rest) ->
  search false r s = None.
Proof.
  intros Hr Hnone.
  destruct (search false r s) as [m|] eqn:Hs; [|reflexivity].
  apply search_from_Some in Hs as (j & z & _ & Hz & _ & _).
  specialize (Hr (prev_at None s j) (drop j s)). rewrite Hz in Hr.
  destruct (exec_at false (Seq (Lit key) _) _ _) as [z'|] eqn:Hz';
    [|discriminate].
  apply key_exec_dated in Hz'. exfalso. exact (Hnone j _ Hz').
Qed.

(** To see that no key with a date begins before a place, it is enough to
    run the pattern at every place before it. *)
Lemma no_key_before (key s : str) (n : nat) :
  forallb
    (fun i =>
       match exec_at false
               (Seq (Lit key) (Seq (Star (One space)) Validator.ymd))
               (prev_at None s i) (drop i s) with
       | Some _ => false
       | None => true
       end) (seq 0 n) = true ->
  forall i rest, i < n -> ~ Spec.dated key (drop i s) rest.
Proof.
  intros Hall i rest Hi Hd. rewrite forallb_forall in Hall.
  specialize (Hall i). rewrite in_seq in Hall.
  destruct (dated_key_exec key (drop i s) rest Hd (prev_at None s i))
    as (z & Hz & _).
  rewrite Hz in Hall. assert (0 <= i < 0 + n) as Hin by lia.
  apply Hall in Hin. discriminate.
Qed.

(** X15: what [updateLastMod] does, [today] being a date (no dollar in it).
    When the front matter holds [lastmod:] somewhere: if it is some text,
    [lastmod:], any white space, a date (four digits, a dash, two digits, a
    dash, two digits) and a rest, no [lastmod:] with white space and a date
    beginning earlier, the result is that text, [lastmod: ] with today's
    date, and that rest; if no [lastmod:] is followed by white space and a
    date, nothing changes and no line is added.  When it holds no
    [lastmod:]: if it is some text, [date:], any white space, a date and a
    rest, no such place beginning earlier, a line feed and [lastmod: ]
    with today's date are put in right after that date; if no [date:] is
    followed by white space and a date, nothing changes. *)
Theorem updateLastMod_result (today frontMatter : str) :
  Forall (fun c => c <> 36%N) today ->
  (forall before ws d after,
     frontMatter = before ++ lit "lastmod:" ++ ws ++ d ++ after ->
     Forall Spec.white ws -> Spec.date_text d ->
     (forall i rest, i < length before ->
        ~ Spec.dated (lit "lastmod:") (drop i frontMatter) rest) ->
     updateLastMod today frontMatter
     = before ++ lit "lastmod: " ++ today ++ after) /\
  (Spec.occurs (lit "lastmod:") frontMatter ->
   (forall i rest, ~ Spec.dated (lit "lastmod:") (drop i frontMatter) rest) ->
   updateLastMod today frontMatter = frontMatter) /\
  (~ Spec.occurs (lit "lastmod:") frontMatter ->
   forall before ws d after,
     frontMatter = before ++ lit "date:" ++ ws ++ d ++ after ->
     Forall Spec.white ws -> Spec.date_text d ->
     (forall i rest, i < length before ->
        ~ Spec.dated (lit "date:") (drop i frontMatter) rest) ->
     updateLastMod today frontMatter
     = before ++ lit "date:" ++ ws ++ d ++ [LF] ++ lit "lastmod: " ++ today
         ++ after) /\
  (~ Spec.occurs (lit "lastmod:") frontMatter ->
   (forall i rest, ~ Spec.dated (lit "date:") (drop i frontMatter) rest) ->
   updateLastMod today frontMatter = frontMatter).
Proof.
  intros Htoday.
  assert (Forall (fun c => c <> 36%N) (lit "lastmod: " ++ today)) as Hplain.
  { apply Forall_app. split; [|exact Htoday].
    repeat constructor; discriminate. }
  unfold updateLastMod, replace_re.
  change lastmod_re
    with (Seq (Lit (lit "lastmod:")) (Seq (Star (One space)) Validator.ymd)).
  change date_re
    with (Group 1 (Seq (Lit (lit "date:"))
                     (Seq (Star (One space)) Validator.ymd))).
  split; [|split; [|split]].
  - intros before ws d after -> Hws Hd Hfirst.
    rewrite (proj2 (occurs_includes _ _)) by (exists before; eauto).
    destruct (search_key _ (lit "lastmod:") before ws d after
                (fun p s => eq_refl) Hws Hd Hfirst)
      as (m & -> & Hi & _ & Ha).
    cbv zeta. rewrite Hi, Ha, take_app_length, substitute_plain by exact Hplain.
    rewrite <- app_assoc. reflexivity.
  - intros Hocc Hnone. rewrite (proj2 (occurs_includes _ _) Hocc).
    rewrite (search_key_none _ (lit "lastmod:") frontMatter
               (fun p s => eq_refl) Hnone).
    reflexivity.
  - intros Hocc before ws d after -> Hws Hd Hfirst.
    destruct (includes _ (lit "lastmod:")) eqn:Hinc;
      [exfalso; apply Hocc, occurs_includes, Hinc|].
    destruct (search_key _ (lit "date:") before ws d after
                (exec_key_group 1 (lit "date:")) Hws Hd Hfirst)
      as (m & Hm & Hi & Hmat & Ha).
    rewrite Hm. cbv zeta.
    apply search_group_whole in Hm as [gs Hgs]. rewrite Hgs.
    change (lit "$1" ++ [LF] ++ lit "lastmod: " ++ today)
      with (36%N :: 49%N :: LF :: lit "lastmod: " ++ today).
    rewrite substitute_group1. unfold cap_text.
    cbn [List.find fst snd Nat.eqb fmap option_fmap option_map default].
    rewrite substitute_plain by exact Hplain.
    unfold id. rewrite Hi, Ha, Hmat, take_app_length, <- !app_assoc.
    reflexivity.
  - intros Hocc Hnone.
    destruct (includes _ (lit "lastmod:")) eqn:Hinc;
      [exfalso; apply Hocc, occurs_includes, Hinc|].
    rewrite (search_key_none _ (lit "date:") frontMatter
               (exec_key_group 1 (lit "date:")) Hnone).
    reflexivity.
Qed.

(** The front matter of the sample article: its [lastmod:] line is the
    sixth, and the date on it is replaced. *)
Lemma updateLastMod_result_witness :
  updateLastMod (lit "2025-05-06") (Examples.parsed Examples.article).1
  = Examples.text
      [Examples.quotedField "title" "Convert"; lit "productname: Total";
       lit "productkey: total"; Examples.quotedField "platformkey" "java";
       lit "date: 2024-01-02"]
    ++ lit "lastmod: " ++ lit "2025-05-06" ++ LF :: lit "type: docs".
Proof.
  assert (Forall (fun c => c <> 36%N) (lit "2025-05-06")) as Htoday
    by (repeat constructor; discriminate).
  apply (proj1 (updateLastMod_result (lit "2025-05-06")
                  (Examples.parsed Examples.article).1 Htoday)
           _ [32%N] (lit "2024-01-03")).
  - vm_compute. reflexivity.
  - constructor; [apply white_is_space; reflexivity|constructor].
  - exists (lit "2024"), (lit "01"), (lit "03").
    do 4 (split; [reflexivity|]). apply forallb_digit. reflexivity.
  - apply no_key_before. vm_compute. reflexivity.
Defined.

End LastMod.

(** ** Replacing the opening paragraph *)

Section OpeningReplaced.
Import Js Processor.

(** A text is white space, its trimmed text, and white space; the trimmed
    text begins and ends with a character that is no white space. *)
Lemma trim_split (s : str) :
  exists ws ws', s = ws ++ trim s ++ ws' /\
                 forallb is_space ws = true /\
                 match trim s with
                 | x :: _ => is_space x = false
                 | [] => True
                 end.
Proof.
  unfold trim, trim_start, trim_end.
  destruct (drop_while_split is_space s) as (ws & Hs & Hws & Hhead).
  destruct (drop_while_split is_space (rev (drop_while is_space s)))
    as (w & Hr & Hw & Hlast).
  exists ws, (rev w). split; [|split; [exact Hws|]].
  - rewrite Hs at 1. f_equal.
    rewrite <- (rev_involutive (drop_while is_space s)) at 1.
    rewrite Hr at 1. apply rev_app_distr.
  - set (t := drop_while is_space s) in *.
    set (d := drop_while is_space (rev t)) in *.
    assert (t = rev d ++ rev w) as Ht
      by (rewrite <- rev_app_distr, <- Hr, rev_involutive; reflexivity).
    destruct (rev d) as [|x u] eqn:Hd; [exact I|].
    rewrite Ht in Hhead. exact Hhead.
Qed.

(** The first occurrence of a text that begins with no white space, after
    white space. *)
Lemma index_of_after_blank (p rest : str) (x : char) (p' : str) :
  p = x :: p' -> is_space x = false ->
  forall ws i,
    forallb is_space ws = true ->
    index_of_from p (ws ++ p ++ rest) i = Some (i + length ws).
Proof.
  intros -> Hx. induction ws as [|c ws IH]; intros i Hws.
  - cbn [app length index_of_from]. rewrite Nat.add_0_r.
    pose proof (starts_with_app (x :: p') rest) as Hsw. cbn [app] in Hsw.
    rewrite Hsw. reflexivity.
  - cbn [forallb] in Hws. apply andb_prop in Hws as [Hc Hws].
    cbn [app index_of_from starts_with].
    destruct (N.eqb_spec x c) as [->|_]; [congruence|].
    cbn [andb]. rewrite IH by exact Hws. cbn [length]. f_equal. lia.
Qed.

(** X16: the opening paragraph is replaced where it stands: the content is
    white space, the opening paragraph and a rest, and replacing the
    paragraph puts the replacement text, its dollar patterns expanded,
    between that white space and that rest; a replacement text without a
    dollar is put there as it is. *)
Theorem opening_replaced_in_place (content tpl : str) :
  extractOpeningParagraph content <> [] ->
  exists ws rest,
    content = ws ++ extractOpeningParagraph content ++ rest /\
    forallb is_space ws = true /\
    replace_str content (extractOpeningParagraph content) tpl
    = ws ++ substitute 0 ws (extractOpeningParagraph content) rest [] tpl
         ++ rest /\
    (Forall (fun c => c <> 36%N) tpl ->
     replace_str content (extractOpeningParagraph content) tpl
     = ws ++ tpl ++ rest).
Proof.
  intros Hne.
  assert (exists e, extractOpeningParagraph content = trim (take e content))
    as [e He].
  { unfold extractOpeningParagraph.
    destruct (search true heading2_re content),
             (search false gistOpen_re content); eauto. }
  set (o := extractOpeningParagraph content) in *.
  destruct (trim_split (take e content)) as (ws & ws' & Ht & Hws & Hhead).
  rewrite <- He in Ht, Hhead.
  destruct o as [|x o'] eqn:Ho; [contradiction|].
  remember (drop e content) as tail eqn:Htail.
  exists ws, (ws' ++ tail).
  assert (content = ws ++ (x :: o') ++ ws' ++ tail) as Hc.
  { rewrite <- (take_drop e content), <- Htail, Ht.
    rewrite <- !app_assoc. reflexivity. }
  clear Htail Ht He Ho o Hne.
  assert (replace_str content (x :: o') tpl
          = ws ++ substitute 0 ws (x :: o') (ws' ++ tail) [] tpl
               ++ ws' ++ tail) as Hrep.
  { unfold replace_str, index_of. rewrite Hc.
    rewrite (index_of_after_blank (x :: o') _ x o' eq_refl Hhead ws 0 Hws).
    cbv zeta. cbn [Nat.add].
    rewrite take_app_length.
    rewrite drop_app_add', drop_app_length by reflexivity.
    reflexivity. }
  split; [exact Hc|]. split; [exact Hws|]. split; [exact Hrep|].
  intros Hplain. rewrite Hrep, substitute_plain by exact Hplain.
  reflexivity.
Qed.

Lemma opening_replaced_in_place_witness :
  exists ws rest,
    Examples.text Examples.body
    = ws ++ extractOpeningParagraph (Examples.text Examples.body) ++ rest /\
    forallb is_space ws = true /\
    replace_str (Examples.text Examples.body)
      (extractOpeningParagraph (Examples.text Examples.body))
      (lit "Better text.")
    = ws ++ substitute 0 ws
              (extractOpeningParagraph (Examples.text Examples.body)) rest []
              (lit "Better text.")
         ++ rest /\
    (Forall (fun c => c <> 36%N) (lit "Better text.") ->
     replace_str (Examples.text Examples.body)
       (extractOpeningParagraph (Examples.text Examples.body))
       (lit "Better text.")
     = ws ++ lit "Better text." ++ rest).
Proof.
  apply (opening_replaced_in_place (Examples.text Examples.body)
           (lit "Better text.")).
  vm_compute. discriminate.
Defined.

End OpeningReplaced.

(** ** The selection of articles *)

Section Selection.
Import Js Selector.

Lemma filter_throwing_Some (f : str -> option bool) (l : list str) :
  forall r, filter_throwing f l = Some r ->
            forall x, x ∈ r -> x ∈ l /\ f x = Some true.
Proof.
  induction l as [|y l IH]; intros r H x Hx; cbn [filter_throwing] in H.
  - injection H as <-. inversion Hx.
  - destruct (f y) as [b|] eqn:Hy; [|discriminate].
    cbn [mbind option_bind] in H.
    destruct (filter_throwing f l) as [r'|]; [|discriminate].
    cbn [mbind option_bind] in H. injection H as <-.
    destruct b.
    + apply elem_of_cons in Hx as [->|Hx].
      * split; [constructor|exact Hy].
      * destruct (IH r' eq_refl x Hx). split; [constructor|]; assumption.
    + destruct (IH r' eq_refl x Hx). split; [constructor|]; assumption.
Qed.

(** What [getMarkdownFiles] returns: files of the directory whose name
    ends in [.md] and does not begin with [_index], joined to the
    directory and found old enough. *)
Lemma getMarkdownFiles_eligible (e : env) (dirPath p : str) :
  p ∈ getMarkdownFiles e dirPath ->
  exists files file,
    readdirSync e dirPath = Some files /\ file ∈ files /\
    keepName file = true /\ p = join e dirPath file /\
    oldEnough e p = Some true.
Proof.
  unfold getMarkdownFiles. intros H.
  destruct (readdirSync e dirPath) as [files|]; [|inversion H].
  destruct (filter_throwing _ _) as [r|] eqn:Hr; [|inversion H].
  cbn [default] in H. unfold id in H.
  destruct (filter_throwing_Some _ _ _ Hr _ H) as [Hin Hold].
  apply list_elem_of_fmap in Hin as (file & -> & Hfile).
  apply list_elem_of_In, List.filter_In in Hfile as [Hfile Hkeep].
  exists files, file. rewrite <- list_elem_of_In in Hfile. auto.
Qed.

Lemma unselected_spec (selected : list article) (pool : list str) (a : str) :
  a ∈ unselected selected pool <-> a ∈ pool /\ a ∉ path <$> selected.
Proof.
  unfold unselected. rewrite list_elem_of_In, List.filter_In.
  rewrite <- list_elem_of_In.
  assert (existsb (fun sel => str_eqb (path sel) a) selected = true
          <-> a ∈ path <$> selected) as Hex.
  { rewrite existsb_exists, list_elem_of_fmap. split.
    - intros (sel & Hin & Heq). apply bool_decide_eq_true in Heq.
      exists sel. rewrite list_elem_of_In. auto.
    - intros (sel & -> & Hin). exists sel. rewrite <- list_elem_of_In.
      split; [exact Hin|]. apply bool_decide_eq_true. reflexivity. }
  split; intros [Hin H]; (split; [exact Hin|]).
  - intros Hsel. apply Hex in Hsel. rewrite Hsel in H. discriminate.
  - destruct (existsb _ selected) eqn:E; [|reflexivity].
    exfalso. apply H, Hex. reflexivity.
Qed.

Lemma select_loop_invariant (e : env) (available : Platform -> list str) :
  (forall n m, 0 < m -> floorRandom e n m < m) ->
  (forall p a, a ∈ available p -> is_Some (lastModifiedDay e a)) ->
  forall iterations n selected,
    well_selected e available selected ->
    exists more,
      select_loop e available iterations n selected
      = Some (selected ++ more) /\
      length more <= iterations /\
      well_selected e available (selected ++ more).
Proof.
  intros Hpick Hday. induction iterations as [|iterations IH];
    intros n selected Hsel; cbn [select_loop].
  - exists []. rewrite app_nil_r. split; [reflexivity|].
    split; [cbn; lia|exact Hsel].
  - cbv zeta.
    assert (exists more,
              select_loop e available iterations (S n) selected
              = Some (selected ++ more) /\
              length more <= S iterations /\
              well_selected e available (selected ++ more)) as Hskip.
    { destruct (IH (S n) selected Hsel) as (more & H1 & H2 & H3).
      exists more. split; [exact H1|]. split; [lia|exact H3]. }
    destruct (available (randomPlatformChoice e n)) as [|a0 pool] eqn:Hpool;
      [exact Hskip|].
    destruct (unselected selected (a0 :: pool)) as [|u0 us] eqn:Hun;
      [exact Hskip|].
    assert (0 < length (u0 :: us)) as Hpos by (cbn; lia).
    pose proof (Hpick (S n) (length (u0 :: us)) Hpos) as Hlt.
    destruct (lookup_lt_is_Some_2 (u0 :: us) _ Hlt) as [chosen Hchosen].
    rewrite Hchosen.
    assert (chosen ∈ unselected selected (a0 :: pool)) as Hin
      by (rewrite Hun; eapply list_elem_of_lookup_2; exact Hchosen).
    apply unselected_spec in Hin as [Hin Hfresh]. rewrite <- Hpool in Hin.
    destruct (Hday _ _ Hin) as [day Hd]. rewrite Hd.
    set (entry := Article chosen (randomPlatformChoice e n)
                    (basename e chosen) day).
    destruct (IH (S (S n)) (selected ++ [entry])) as (more & H1 & H2 & H3).
    + destruct Hsel as [Hnodup Hall]. split.
      * rewrite fmap_app. apply NoDup_app. split; [exact Hnodup|].
        split; [|apply NoDup_singleton].
        intros x Hx Hx'. apply list_elem_of_singleton in Hx'. subst x.
        exact (Hfresh Hx).
      * apply Forall_app. split; [exact Hall|].
        constructor; [|constructor]. cbn. auto.
    + exists (entry :: more). rewrite <- app_assoc in H1, H3.
      split; [exact H1|]. split; [cbn [length]; lia|exact H3].
Qed.

(** X17: the selection, when every draw [Math.floor(r * m)] is below [m] and
    the date of every available file is valid: [selectArticles] returns,
    and what it returns holds no path twice, holds at most as many
    entries as the number drawn for the run, which is between two and five,
    and holds only files of the directory of the entry's platform whose
    name ends in [.md] and does not begin with [_index], which were found
    old enough. *)
Theorem selectArticles_selection (e : env) :
  (forall n m, 0 < m -> floorRandom e n m < m) ->
  (forall p a, a ∈ availableArticles e p -> is_Some (lastModifiedDay e a)) ->
  exists selected,
    selectArticles e = Some selected /\
    NoDup (path <$> selected) /\
    length selected <= articlesToProcess e /\
    MIN_ARTICLES_PER_RUN <= articlesToProcess e <= MAX_ARTICLES_PER_RUN /\
    Forall (fun a =>
              filename a = basename e (path a) /\
              exists files file,
                readdirSync e (directory e (platform a)) = Some files /\
                file ∈ files /\ keepName file = true /\
                path a = join e (directory e (platform a)) file /\
                oldEnough e (path a) = Some true)
           selected.
Proof.
  intros Hpick Hday.
  destruct (select_loop_invariant e (availableArticles e) Hpick Hday
              (articlesToProcess e) 1 [])
    as (more & Hrun & Hlen & Hnodup & Hall).
  { split; [constructor|constructor]. }
  cbn [app] in *. exists more. split; [exact Hrun|].
  split; [exact Hnodup|]. split; [exact Hlen|]. split.
  - unfold articlesToProcess, MIN_ARTICLES_PER_RUN, MAX_ARTICLES_PER_RUN.
    assert (0 < 5 - 2 + 1) as Hpos by (cbn; lia).
    pose proof (Hpick 0 (5 - 2 + 1) Hpos). cbn in *. lia.
  - eapply Forall_impl; [exact Hall|].
    intros a (Hin & Hname & _). split; [exact Hname|].
    apply getMarkdownFiles_eligible in Hin. exact Hin.
Qed.

Lemma selectArticles_selection_witness :
  exists selected,
    selectArticles Examples.tree = Some selected /\
    NoDup (path <$> selected) /\
    length selected <= articlesToProcess Examples.tree /\
    MIN_ARTICLES_PER_RUN <= articlesToProcess Examples.tree
      <= MAX_ARTICLES_PER_RUN /\
    Forall (fun a =>
              filename a = basename Examples.tree (path a) /\
              exists files file,
                readdirSync Examples.tree
                  (directory Examples.tree (platform a)) = Some files /\
                file ∈ files /\ keepName file = true /\
                path a = join Examples.tree
                           (directory Examples.tree (platform a)) file /\
                oldEnough Examples.tree (path a) = Some true)
           selected.
Proof.
  apply (selectArticles_selection Examples.tree).
  - intros n m H. exact H.
  - intros p a _. eexists. reflexivity.
Defined.

Lemma NoDup_list_filter (f : str -> bool) (l : list str) :
  NoDup l -> NoDup (List.filter f l).
Proof.
  induction 1 as [|x l Hx _ IH]; cbn [List.filter]; [constructor|].
  destruct (f x); [|exact IH]. constructor; [|exact IH].
  intros H. apply Hx. apply list_elem_of_In, List.filter_In in H as [H _].
  apply list_elem_of_In. exact H.
Qed.

(** Of articles that are all different, the selection so far rules out at
    most as many as it holds. *)
Lemma unselected_length (selected : list article) (pool : list str) :
  NoDup pool ->
  length pool <= length (unselected selected pool) + length selected.
Proof.
  intros Hnodup. unfold unselected.
  rewrite <- (List.filter_length
                (fun a => negb (existsb (fun sel => str_eqb (path sel) a)
                                  selected)) pool) at 1.
  apply Nat.add_le_mono_l.
  rewrite <- (length_fmap path selected).
  apply submseteq_length, NoDup_submseteq.
  - apply NoDup_list_filter. exact Hnodup.
  - intros x Hx. apply list_elem_of_In, List.filter_In in Hx as [_ Hx].
    rewrite negb_involutive in Hx.
    apply existsb_exists in Hx as (sel & Hin & Heq).
    apply bool_decide_eq_true in Heq. subst x.
    apply list_elem_of_fmap. exists sel. split; [reflexivity|].
    apply list_elem_of_In. exact Hin.
Qed.

Lemma select_loop_full (e : env) (available : Platform -> list str) :
  (forall n m, 0 < m -> floorRandom e n m < m) ->
  (forall p a, a ∈ available p -> is_Some (lastModifiedDay e a)) ->
  (forall p, NoDup (available p) /\
             MAX_ARTICLES_PER_RUN <= length (available p)) ->
  forall iterations n selected,
    length selected + iterations <= MAX_ARTICLES_PER_RUN ->
    exists more,
      select_loop e available iterations n selected
      = Some (selected ++ more) /\
      length more = iterations.
Proof.
  intros Hpick Hday Hpool. induction iterations as [|iterations IH];
    intros n selected Hlen; cbn [select_loop].
  - exists []. rewrite app_nil_r. split; reflexivity.
  - cbv zeta. destruct (Hpool (randomPlatformChoice e n)) as [Hnodup Hmany].
    pose proof (unselected_length selected _ Hnodup) as Hleft.
    unfold MAX_ARTICLES_PER_RUN in *.
    destruct (available (randomPlatformChoice e n)) as [|a0 pool] eqn:Hav;
      [cbn in Hmany; lia|].
    destruct (unselected selected (a0 :: pool)) as [|u0 us] eqn:Hun;
      [cbn [length] in Hleft, Hmany; lia|].
    assert (0 < length (u0 :: us)) as Hpos by (cbn; lia).
    pose proof (Hpick (S n) (length (u0 :: us)) Hpos) as Hlt.
    destruct (lookup_lt_is_Some_2 (u0 :: us) _ Hlt) as [chosen Hchosen].
    rewrite Hchosen.
    assert (chosen ∈ unselected selected (a0 :: pool)) as Hin
      by (rewrite Hun; eapply list_elem_of_lookup_2; exact Hchosen).
    apply unselected_spec in Hin as [Hin _]. rewrite <- Hav in Hin.
    destruct (Hday _ _ Hin) as [day Hd]. rewrite Hd.
    destruct (IH (S (S n))
                (selected
                 ++ [Article chosen (randomPlatformChoice e n)
                       (basename e chosen) day]))
      as (more & H1 & H2).
    + rewrite length_app. cbn [length]. lia.
    + eexists (_ :: more). rewrite <- app_assoc in H1.
      split; [exact H1|]. cbn [length]. lia.
Qed.

(** X18: with five or more different articles available for each platform, no
    round of the loop is lost: the run selects exactly the number of
    articles it drew, which is between two and five. *)
Theorem selectArticles_enough_articles (e : env) :
  (forall n m, 0 < m -> floorRandom e n m < m) ->
  (forall p a, a ∈ availableArticles e p -> is_Some (lastModifiedDay e a)) ->
  (forall p, NoDup (availableArticles e p) /\
             MAX_ARTICLES_PER_RUN <= length (availableArticles e p)) ->
  exists selected,
    selectArticles e = Some selected /\
    length selected = articlesToProcess e /\
    MIN_ARTICLES_PER_RUN <= length selected <= MAX_ARTICLES_PER_RUN.
Proof.
  intros Hpick Hday Hpool.
  assert (0 < 5 - 2 + 1) as Hpos by (cbn; lia).
  pose proof (Hpick 0 (5 - 2 + 1) Hpos) as Hdraw.
  assert (MIN_ARTICLES_PER_RUN <= articlesToProcess e
          <= MAX_ARTICLES_PER_RUN) as Hrange.
  { unfold articlesToProcess, MIN_ARTICLES_PER_RUN, MAX_ARTICLES_PER_RUN.
    cbn in *. lia. }
  destruct (select_loop_full e (availableArticles e) Hpick Hday Hpool
              (articlesToProcess e) 1 []) as (more & Hrun & Hlen).
  { cbn [length]. lia. }
  exists more. split; [exact Hrun|]. split; [exact Hlen|].
  rewrite Hlen. exact Hrange.
Qed.

Lemma selectArticles_enough_articles_witness :
  exists selected,
    selectArticles Examples.sixEach = Some selected /\
    length selected = articlesToProcess Examples.sixEach /\
    MIN_ARTICLES_PER_RUN <= length selected <= MAX_ARTICLES_PER_RUN.
Proof.
  apply (selectArticles_enough_articles Examples.sixEach).
  - intros n m H. exact H.
  - intros p a _. eexists. reflexivity.
  - intros p. split.
    + destruct p; apply (bool_decide_unpack _); vm_compute; exact I.
    + destruct p; vm_compute; lia.
Defined.

Lemma select_loop_skips (e : env) (available : Platform -> list str)
    (p : Platform) :
  (forall n, randomPlatformChoice e n = p) ->
  available p = [] ->
  forall iterations n selected,
    select_loop e available iterations n selected = Some selected.
Proof.
  intros Hchoice Hempty.
  induction iterations as [|iterations IH]; intros n selected;
    cbn [select_loop]; [reflexivity|].
  cbv zeta. rewrite Hchoice, Hempty. apply IH.
Qed.

(** X19: a round whose platform has no article available is lost, whatever
    the other platform holds: when every draw falls on a platform without
    available articles, nothing is selected. *)
Theorem selectArticles_lost_rounds (e : env) (p : Platform) :
  (forall n, randomPlatformChoice e n = p) ->
  availableArticles e p = [] ->
  selectArticles e = Some [].
Proof.
  intros Hchoice Hempty. unfold selectArticles.
  apply (select_loop_skips e (availableArticles e) p Hchoice Hempty).
Qed.

Lemma selectArticles_lost_rounds_witness :
  availableArticles Examples.javaless net
  = [lit "/content/en/total/net/c.md"; lit "/content/en/total/net/d.md"] /\
  selectArticles Examples.javaless = Some [].
Proof.
  split; [vm_compute; reflexivity|].
  apply (selectArticles_lost_rounds Examples.javaless java).
  - intros n. reflexivity.
  - vm_compute. reflexivity.
Defined.

Lemma platform_partition (l : list article) :
  length (List.filter is_java l) + length (List.filter is_net l) = length l.
Proof.
  induction l as [|a l IH]; [reflexivity|].
  cbn [List.filter]. unfold is_java at 1, is_net at 1.
  destruct (platform a); cbn [length]; lia.
Qed.

(** X20: the exported summary accounts for every selected article once: the
    total is the number of selected articles, and the counts for the two
    platforms add up to it.  The selection lists the articles as selected
    and is written to one file. *)
Theorem exportSelection_counts (render : selection -> str)
    (outputPath : str) (selectedArticles : list article) (d : Fs.disk) :
  total (s_summary (exportSelection render outputPath selectedArticles d).1)
  = javaCount
      (s_summary (exportSelection render outputPath selectedArticles d).1)
    + netCount
        (s_summary (exportSelection render outputPath selectedArticles d).1) /\
  total (s_summary (exportSelection render outputPath selectedArticles d).1)
  = length selectedArticles /\
  articles (exportSelection render outputPath selectedArticles d).1
  = selectedArticles /\
  (exportSelection render outputPath selectedArticles d).2
  = <[outputPath :=
        toWellFormed
          (render (exportSelection render outputPath selectedArticles d).1)]>
      d.
Proof.
  unfold exportSelection.
  cbn [fst snd s_summary total javaCount netCount articles].
  split; [symmetry; apply platform_partition|]. repeat split.
Qed.

End Selection.
